(** * Tower Defense engine (game.js): shallow embedding and checked properties

    The development follows the simulation code of [game.js]: tower
    placement, the wave director with its timers, enemy movement, tower
    targeting and firing, projectile flight and impact resolution.

    Conventions of the embedding.
    - JavaScript numbers are idealised: counters that the code only ever
      adds, subtracts, floors or compares as integers (money, lives, wave,
      health, damage, reward, timestamps in ms) are [Z]; coordinates, speeds,
      ranges and rates are exact rationals [Q].  Rounding of doubles is not
      modelled.
    - The host functions [Math.sqrt], [Math.atan2], [Math.cos], [Math.sin]
      and [Math.log10] are an interface ([Math]); the general theorems hold
      for any implementation of it, the scenarios run on a rational one.
    - [Math.random()] is an explicit argument of the functions that draw.
    - Enemy objects have identity: [e_id] stands for the object reference;
      [projectile.target] and [tower.target] hold such a reference.
    - The timer table of the JavaScript runtime ([setInterval],
      [setTimeout], [clearInterval]) is part of the state, each entry
      carrying the local variables its closure captured.
    - The audio calls, the DOM and the fields that only the renderer reads
      (colours, sizes, pulse and trail counters) are left out: no function
      below reads them.  The effect ledger is not part of the engine state,
      nothing of the simulation reads it: [updateEffects] is modelled on the
      ledger alone. *)

From Stdlib Require Import ZArith QArith Qabs Qround List String Bool Lia Lqa.
Import ListNotations.
Local Open Scope Z_scope.

(** ** Numbers and the host's Math object *)

Definition Qleb (a b : Q) : bool := Qle_bool a b.
Definition Qltb (a b : Q) : bool := negb (Qle_bool b a).

Class Math := {
  Math_sqrt : Q -> Q;
  Math_atan2 : Q -> Q -> Q;
  Math_cos : Q -> Q;
  Math_sin : Q -> Q;
  Math_log10 : Q -> Q
}.

(** ** Static tables *)

Record Point := mkPoint { pt_x : Q; pt_y : Q }.

Definition path : list Point :=
  [ mkPoint 0 120; mkPoint 200 120; mkPoint 200 280; mkPoint 400 280;
    mkPoint 400 120; mkPoint 600 120; mkPoint 600 400; mkPoint 800 400 ].

Definition canvas_width : Q := 800.
Definition canvas_height : Q := 600.
Definition gridSize : Q := 40.
Definition preparationTime : Z := 5.

Inductive TowerKind := basic | cannon | magic | sniper | bomber.

(** The key under which a kind is stored in [towerTypes]. *)
Definition kindName (k : TowerKind) : string :=
  match k with
  | basic => "basic" | cannon => "cannon" | magic => "magic"
  | sniper => "sniper" | bomber => "bomber"
  end%string.

(** A [special] descriptor: [{type:'critical', criticalChance,
    criticalMultiplier}] or [{type:'explosion', radius, falloff}]. *)
Inductive Special :=
| critical (criticalChance criticalMultiplier : Q)
| explosion (radius falloff : Q).

Definition specialType (sp : Special) : string :=
  match sp with
  | critical _ _ => "critical"
  | explosion _ _ => "explosion"
  end%string.

Record TowerData := mkTowerData {
  td_name : string;
  td_cost : Z;
  td_damage : Z;
  td_range : Q;
  td_fireRate : Q;
  td_barrelLength : Q;
  td_unlockWave : Z;
  td_special : option Special
}.

Definition towerTypes (k : TowerKind) : TowerData :=
  match k with
  | basic  => mkTowerData "Basic Tower"  25  10 120 1    10 1 None
  | cannon => mkTowerData "Cannon Tower" 60  30 100 0.5  14 2 None
  | magic  => mkTowerData "Magic Tower"  100 15 150 1.5  8  3 None
  | sniper => mkTowerData "Sniper Tower" 150 80 250 0.25 18 5
                          (Some (critical 0.2 2.5))
  | bomber => mkTowerData "Bomber Tower" 200 50 180 0.3  12 7
                          (Some (explosion 60 0.5))
  end.

Inductive EnemyKind := Ebasic | Efast | Estrong | Eboss.

Record EnemyData := mkEnemyData {
  ed_health : Z;
  ed_speed : Q;
  ed_reward : Z
}.

Definition enemyTypes (k : EnemyKind) : EnemyData :=
  match k with
  | Ebasic  => mkEnemyData 40  1   10
  | Efast   => mkEnemyData 25  2   15
  | Estrong => mkEnemyData 100 0.7 20
  | Eboss   => mkEnemyData 300 0.5 50
  end.

(** ** Entities *)

(** A tower instance: its own fields, the spread copy of its spec
    ([...towerData]) and the fields [Object.assign] merges from the
    [special] descriptor ([None] is JavaScript's [undefined]). *)
Record Tower := mkTower {
  t_x : Q;
  t_y : Q;
  t_type : string;
  t_lastShot : Z;
  t_target : option nat;
  t_angle : Q;
  t_data : TowerData;
  t_criticalChance : option Q;
  t_criticalMultiplier : option Q;
  t_radius : option Q;
  t_falloff : option Q
}.

Record Enemy := mkEnemy {
  e_id : nat;
  e_x : Q;
  e_y : Q;
  e_type : EnemyKind;
  e_health : Z;
  e_maxHealth : Z;
  e_speed : Q;
  e_reward : Z;
  e_pathIndex : nat;
  e_progress : Q
}.

Record Projectile := mkProjectile {
  p_x : Q;
  p_y : Q;
  p_targetX : Q;
  p_targetY : Q;
  p_target : nat;
  p_damage : Z;
  p_speed : Q;
  p_type : string;
  p_explosionRadius : option Q;
  p_falloff : option Q
}.

(** ** Timers

    One entry per live [setInterval]/[setTimeout]; the constructor names the
    callback and carries the closure's local variables. *)
Inductive Callback :=
| prepInterval
| spawnInterval (enemiesSpawned enemyCount : Z)
| bonusTimeout (waveBonus : Z)
| countdownInterval (nextWaveCountdown : Z).

Record Timer := mkTimer {
  tm_handle : nat;
  tm_delay : Q;
  tm_callback : Callback
}.

Inductive Screen := mainMenu | howToPlay | game.

(** ** Session state: the fields of [gameState], then the runtime's timer
    table and the two allocation counters (timer handles, enemy objects). *)
Record State := mkState {
  money : Z;
  lives : Z;
  wave : Z;
  isPlaying : bool;
  selectedTower : option TowerKind;
  towers : list Tower;
  enemies : list Enemy;
  projectiles : list Projectile;
  waveTimeout : option nat;
  enemySpawnInterval : option nat;
  gameScreen : Screen;
  preparationPhase : bool;
  preparationTimer : Z;
  difficultyFactor : Q;
  waveCompleted : bool;
  waveStarted : bool;
  timers : list Timer;
  nextHandle : nat;
  nextEnemy : nat
}.

Definition initialState : State :=
  mkState 75 1 1 false None [] [] [] None None mainMenu true 5 1 false false
          [] 1 0.

(** ** Field assignment ([gameState.f = v]) *)

Definition set_money (v : Z) (s : State) : State :=
  mkState v (lives s) (wave s) (isPlaying s) (selectedTower s) (towers s)
    (enemies s) (projectiles s) (waveTimeout s) (enemySpawnInterval s)
    (gameScreen s) (preparationPhase s) (preparationTimer s)
    (difficultyFactor s) (waveCompleted s) (waveStarted s) (timers s)
    (nextHandle s) (nextEnemy s).

Definition set_lives (v : Z) (s : State) : State :=
  mkState (money s) v (wave s) (isPlaying s) (selectedTower s) (towers s)
    (enemies s) (projectiles s) (waveTimeout s) (enemySpawnInterval s)
    (gameScreen s) (preparationPhase s) (preparationTimer s)
    (difficultyFactor s) (waveCompleted s) (waveStarted s) (timers s)
    (nextHandle s) (nextEnemy s).

Definition set_wave (v : Z) (s : State) : State :=
  mkState (money s) (lives s) v (isPlaying s) (selectedTower s) (towers s)
    (enemies s) (projectiles s) (waveTimeout s) (enemySpawnInterval s)
    (gameScreen s) (preparationPhase s) (preparationTimer s)
    (difficultyFactor s) (waveCompleted s) (waveStarted s) (timers s)
    (nextHandle s) (nextEnemy s).

Definition set_isPlaying (v : bool) (s : State) : State :=
  mkState (money s) (lives s) (wave s) v (selectedTower s) (towers s)
    (enemies s) (projectiles s) (waveTimeout s) (enemySpawnInterval s)
    (gameScreen s) (preparationPhase s) (preparationTimer s)
    (difficultyFactor s) (waveCompleted s) (waveStarted s) (timers s)
    (nextHandle s) (nextEnemy s).

Definition set_selectedTower (v : option TowerKind) (s : State) : State :=
  mkState (money s) (lives s) (wave s) (isPlaying s) v (towers s)
    (enemies s) (projectiles s) (waveTimeout s) (enemySpawnInterval s)
    (gameScreen s) (preparationPhase s) (preparationTimer s)
    (difficultyFactor s) (waveCompleted s) (waveStarted s) (timers s)
    (nextHandle s) (nextEnemy s).

Definition set_towers (v : list Tower) (s : State) : State :=
  mkState (money s) (lives s) (wave s) (isPlaying s) (selectedTower s) v
    (enemies s) (projectiles s) (waveTimeout s) (enemySpawnInterval s)
    (gameScreen s) (preparationPhase s) (preparationTimer s)
    (difficultyFactor s) (waveCompleted s) (waveStarted s) (timers s)
    (nextHandle s) (nextEnemy s).

Definition set_enemies (v : list Enemy) (s : State) : State :=
  mkState (money s) (lives s) (wave s) (isPlaying s) (selectedTower s)
    (towers s) v (projectiles s) (waveTimeout s) (enemySpawnInterval s)
    (gameScreen s) (preparationPhase s) (preparationTimer s)
    (difficultyFactor s) (waveCompleted s) (waveStarted s) (timers s)
    (nextHandle s) (nextEnemy s).

Definition set_projectiles (v : list Projectile) (s : State) : State :=
  mkState (money s) (lives s) (wave s) (isPlaying s) (selectedTower s)
    (towers s) (enemies s) v (waveTimeout s) (enemySpawnInterval s)
    (gameScreen s) (preparationPhase s) (preparationTimer s)
    (difficultyFactor s) (waveCompleted s) (waveStarted s) (timers s)
    (nextHandle s) (nextEnemy s).

Definition set_waveTimeout (v : option nat) (s : State) : State :=
  mkState (money s) (lives s) (wave s) (isPlaying s) (selectedTower s)
    (towers s) (enemies s) (projectiles s) v (enemySpawnInterval s)
    (gameScreen s) (preparationPhase s) (preparationTimer s)
    (difficultyFactor s) (waveCompleted s) (waveStarted s) (timers s)
    (nextHandle s) (nextEnemy s).

Definition set_enemySpawnInterval (v : option nat) (s : State) : State :=
  mkState (money s) (lives s) (wave s) (isPlaying s) (selectedTower s)
    (towers s) (enemies s) (projectiles s) (waveTimeout s) v
    (gameScreen s) (preparationPhase s) (preparationTimer s)
    (difficultyFactor s) (waveCompleted s) (waveStarted s) (timers s)
    (nextHandle s) (nextEnemy s).

Definition set_gameScreen (v : Screen) (s : State) : State :=
  mkState (money s) (lives s) (wave s) (isPlaying s) (selectedTower s)
    (towers s) (enemies s) (projectiles s) (waveTimeout s)
    (enemySpawnInterval s) v (preparationPhase s) (preparationTimer s)
    (difficultyFactor s) (waveCompleted s) (waveStarted s) (timers s)
    (nextHandle s) (nextEnemy s).

Definition set_preparationPhase (v : bool) (s : State) : State :=
  mkState (money s) (lives s) (wave s) (isPlaying s) (selectedTower s)
    (towers s) (enemies s) (projectiles s) (waveTimeout s)
    (enemySpawnInterval s) (gameScreen s) v (preparationTimer s)
    (difficultyFactor s) (waveCompleted s) (waveStarted s) (timers s)
    (nextHandle s) (nextEnemy s).

Definition set_preparationTimer (v : Z) (s : State) : State :=
  mkState (money s) (lives s) (wave s) (isPlaying s) (selectedTower s)
    (towers s) (enemies s) (projectiles s) (waveTimeout s)
    (enemySpawnInterval s) (gameScreen s) (preparationPhase s) v
    (difficultyFactor s) (waveCompleted s) (waveStarted s) (timers s)
    (nextHandle s) (nextEnemy s).

Definition set_difficultyFactor (v : Q) (s : State) : State :=
  mkState (money s) (lives s) (wave s) (isPlaying s) (selectedTower s)
    (towers s) (enemies s) (projectiles s) (waveTimeout s)
    (enemySpawnInterval s) (gameScreen s) (preparationPhase s)
    (preparationTimer s) v (waveCompleted s) (waveStarted s) (timers s)
    (nextHandle s) (nextEnemy s).

Definition set_waveCompleted (v : bool) (s : State) : State :=
  mkState (money s) (lives s) (wave s) (isPlaying s) (selectedTower s)
    (towers s) (enemies s) (projectiles s) (waveTimeout s)
    (enemySpawnInterval s) (gameScreen s) (preparationPhase s)
    (preparationTimer s) (difficultyFactor s) v (waveStarted s) (timers s)
    (nextHandle s) (nextEnemy s).

Definition set_waveStarted (v : bool) (s : State) : State :=
  mkState (money s) (lives s) (wave s) (isPlaying s) (selectedTower s)
    (towers s) (enemies s) (projectiles s) (waveTimeout s)
    (enemySpawnInterval s) (gameScreen s) (preparationPhase s)
    (preparationTimer s) (difficultyFactor s) (waveCompleted s) v (timers s)
    (nextHandle s) (nextEnemy s).

Definition set_timers (v : list Timer) (s : State) : State :=
  mkState (money s) (lives s) (wave s) (isPlaying s) (selectedTower s)
    (towers s) (enemies s) (projectiles s) (waveTimeout s)
    (enemySpawnInterval s) (gameScreen s) (preparationPhase s)
    (preparationTimer s) (difficultyFactor s) (waveCompleted s)
    (waveStarted s) v (nextHandle s) (nextEnemy s).

Definition set_nextHandle (v : nat) (s : State) : State :=
  mkState (money s) (lives s) (wave s) (isPlaying s) (selectedTower s)
    (towers s) (enemies s) (projectiles s) (waveTimeout s)
    (enemySpawnInterval s) (gameScreen s) (preparationPhase s)
    (preparationTimer s) (difficultyFactor s) (waveCompleted s)
    (waveStarted s) (timers s) v (nextEnemy s).

Definition set_nextEnemy (v : nat) (s : State) : State :=
  mkState (money s) (lives s) (wave s) (isPlaying s) (selectedTower s)
    (towers s) (enemies s) (projectiles s) (waveTimeout s)
    (enemySpawnInterval s) (gameScreen s) (preparationPhase s)
    (preparationTimer s) (difficultyFactor s) (waveCompleted s)
    (waveStarted s) (timers s) (nextHandle s) v.

(** ** The runtime's timer primitives *)

(** [setInterval(cb, delay)] / [setTimeout(cb, delay)]: a fresh handle. *)
Definition setTimer (cb : Callback) (delay : Q) (s : State) : nat * State :=
  let h := nextHandle s in
  (h, set_nextHandle (S h)
        (set_timers (timers s ++ [mkTimer h delay cb]) s)).

(** [clearInterval(h)] / [clearTimeout(h)]. *)
Definition clearTimer (h : nat) (s : State) : State :=
  set_timers (filter (fun t => negb (Nat.eqb (tm_handle t) h)) (timers s)) s.

(** A closure assigning one of its captured variables. *)
Definition updateTimer (h : nat) (cb : Callback) (s : State) : State :=
  set_timers
    (map (fun t => if Nat.eqb (tm_handle t) h
                   then mkTimer h (tm_delay t) cb else t) (timers s)) s.

Definition findTimer (h : nat) (s : State) : option Timer :=
  find (fun t => Nat.eqb (tm_handle t) h) (timers s).

(** ** Enemy objects in the live array *)

Definition findEnemy (id : nat) (es : list Enemy) : option Enemy :=
  find (fun e => Nat.eqb (e_id e) id) es.

(** [gameState.enemies.includes(obj)] *)
Definition includes (id : nat) (es : list Enemy) : bool :=
  existsb (fun e => Nat.eqb (e_id e) id) es.

Definition withHealth (h : Z) (e : Enemy) : Enemy :=
  mkEnemy (e_id e) (e_x e) (e_y e) (e_type e) h (e_maxHealth e) (e_speed e)
          (e_reward e) (e_pathIndex e) (e_progress e).

(** [obj.health = h], seen through every array that holds [obj]. *)
Definition setHealth (id : nat) (h : Z) (es : list Enemy) : list Enemy :=
  map (fun e => if Nat.eqb (e_id e) id then withHealth h e else e) es.

(** The part of a tick that fights: live enemies, money, projectiles. *)
Record Field := mkField {
  f_enemies : list Enemy;
  f_money : Z;
  f_projectiles : list Projectile
}.

(** [defeatEnemy(enemy)]: the reward is paid and the array is replaced by
    its filter [e => e !== enemy]. *)
Definition defeatEnemy (enemy : Enemy) (st : Field) : Field :=
  mkField (filter (fun e => negb (Nat.eqb (e_id e) (e_id enemy)))
                  (f_enemies st))
          (f_money st + e_reward enemy)
          (f_projectiles st).

Section Engine.

Context {host : Math}.

(** ** Tower placement *)

(** The segments [path[i] -> path[i+1]], in order. *)
Fixpoint segments (pts : list Point) : list (Point * Point) :=
  match pts with
  | a :: ((b :: _) as rest) => (a, b) :: segments rest
  | _ => []
  end.

(** The inner loop of [isPositionValid]: no sample [j = 0..steps] of the
    segment lies closer than 30 to [(x, y)]. *)
Definition segmentClear (x y : Q) (seg : Point * Point) : bool :=
  let '(a, b) := seg in
  let dx := (pt_x b - pt_x a)%Q in
  let dy := (pt_y b - pt_y a)%Q in
  let length := Math_sqrt (dx * dx + dy * dy)%Q in
  let steps := Qceiling (length / 10) in
  forallb
    (fun j =>
       let pathX := (pt_x a + dx * inject_Z (Z.of_nat j) / inject_Z steps)%Q in
       let pathY := (pt_y a + dy * inject_Z (Z.of_nat j) / inject_Z steps)%Q in
       let distance :=
         Math_sqrt ((pathX - x) * (pathX - x) + (pathY - y) * (pathY - y))%Q in
       negb (Qltb distance 30))
    (seq 0 (S (Z.to_nat steps))).

Definition outOfBounds (x y : Q) : bool :=
  Qltb x 20 || Qltb y 20
  || Qltb (canvas_width - 20) x || Qltb (canvas_height - 20) y.

Definition overlapsTower (x y : Q) (tower : Tower) : bool :=
  Qltb (Qabs (t_x tower - x)) gridSize && Qltb (Qabs (t_y tower - y)) gridSize.

Definition isPositionValid (x y : Q) (s : State) : bool :=
  if outOfBounds x y then false
  else if existsb (overlapsTower x y) (towers s) then false
  else forallb (segmentClear x y) (segments path).

(** [Object.assign(tower, special)]: every key of the descriptor, its
    [type] included, is written onto the instance. *)
Definition assignSpecial (tower : Tower) (sp : Special) : Tower :=
  match sp with
  | critical chance mult =>
      mkTower (t_x tower) (t_y tower) (specialType sp) (t_lastShot tower)
              (t_target tower) (t_angle tower) (t_data tower)
              (Some chance) (Some mult) (t_radius tower) (t_falloff tower)
  | explosion radius falloff =>
      mkTower (t_x tower) (t_y tower) (specialType sp) (t_lastShot tower)
              (t_target tower) (t_angle tower) (t_data tower)
              (t_criticalChance tower) (t_criticalMultiplier tower)
              (Some radius) (Some falloff)
  end.

(** The object [placeTower] builds before it touches [gameState]. *)
Definition newTower (x y : Q) (towerType : TowerKind) : Tower :=
  let towerData := towerTypes towerType in
  let tower :=
    mkTower x y (kindName towerType) 0 None 0 towerData
            None None None None in
  match td_special towerData with
  | Some sp => assignSpecial tower sp
  | None => tower
  end.

Definition placeTower (x y : Q) (towerType : TowerKind) (s : State) : State :=
  let tower := newTower x y towerType in
  set_towers (towers s ++ [tower])
    (set_money (money s - td_cost (t_data tower)) s).

Definition selectTower (towerType : TowerKind) (s : State) : State :=
  let towerData := towerTypes towerType in
  let isUnlocked := td_unlockWave towerData <=? wave s in
  let isAffordable := td_cost towerData <=? money s in
  if isUnlocked && isAffordable
  then set_selectedTower (Some towerType) s
  else s.

(** [x], [y]: the click, relative to the canvas. *)
Definition handleCanvasClick (x y : Q) (s : State) : State :=
  match isPlaying s, selectedTower s with
  | true, Some kind =>
      let gridX := (inject_Z (Qfloor (x / gridSize)) * gridSize)%Q in
      let gridY := (inject_Z (Qfloor (y / gridSize)) * gridSize)%Q in
      if isPositionValid gridX gridY s
      then set_selectedTower None (placeTower gridX gridY kind s)
      else s
  | _, _ => s
  end.

(** ** Wave director *)

Definition calculateWaveDifficulty (s : State) : State :=
  let base := (1 + inject_Z (wave s - 1) * 0.15)%Q in
  if 10 <? wave s
  then set_difficultyFactor
         (base + Math_log10 (inject_Z (wave s - 9)) * 0.5)%Q s
  else set_difficultyFactor base s.

Definition selectEnemyTypeForWave (w : Z) (rand : Q) : EnemyKind :=
  if w mod 5 =? 0 then (if Qltb rand 0.3 then Eboss else Estrong)
  else if w <=? 2 then Ebasic
  else if w <=? 4 then (if Qltb rand 0.7 then Ebasic else Efast)
  else if w <=? 7 then
    (if Qltb rand 0.5 then Ebasic
     else if Qltb rand 0.8 then Efast else Estrong)
  else
    (if Qltb rand 0.3 then Ebasic
     else if Qltb rand 0.6 then Efast
     else if Qltb rand 0.9 then Estrong else Eboss).

(** [path[i]]; a live enemy has [pathIndex < 7], so the code never reads
    past the last point. *)
Definition pathPoint (i : nat) : Point := nth i path (mkPoint 0 0).

Definition spawnEnemy (type : EnemyKind) (s : State) : State :=
  let scaledHealth :=
    Qfloor (inject_Z (ed_health (enemyTypes type)) * difficultyFactor s) in
  let enemy :=
    mkEnemy (nextEnemy s) (pt_x (pathPoint 0)) (pt_y (pathPoint 0)) type
            scaledHealth scaledHealth (ed_speed (enemyTypes type))
            (Qceiling (inject_Z (ed_reward (enemyTypes type))
                       * (1 + inject_Z (wave s - 1) * 0.1)))
            0 0 in
  set_nextEnemy (S (nextEnemy s)) (set_enemies (enemies s ++ [enemy]) s).

Definition startWave (s : State) : State :=
  let s1 := match enemySpawnInterval s with
            | Some h => clearTimer h s
            | None => s
            end in
  let s2 := calculateWaveDifficulty s1 in
  let enemyCount := Qfloor (8 * (1 + inject_Z (wave s2 - 1) * 0.2)) in
  let s3 := set_waveCompleted false s2 in
  let interval := Z.max 300 (1200 - (wave s3 - 1) * 50) in
  let '(h, s4) := setTimer (spawnInterval 0 enemyCount) (inject_Z interval) s3 in
  set_enemySpawnInterval (Some h) s4.

(** The callback of [startWave]'s interval; [rand] is the draw of
    [selectEnemyTypeForWave]. *)
Definition fireSpawn (h : nat) (enemiesSpawned enemyCount : Z) (rand : Q)
    (s : State) : State :=
  if enemyCount <=? enemiesSpawned then
    set_enemySpawnInterval None
      (match enemySpawnInterval s with
       | Some h' => clearTimer h' s
       | None => s
       end)
  else
    let enemyType := selectEnemyTypeForWave (wave s) rand in
    updateTimer h (spawnInterval (enemiesSpawned + 1) enemyCount)
      (spawnEnemy enemyType s).

Definition startGame (s : State) : State :=
  let s1 := set_waveStarted false
              (set_wave 1
                (set_preparationTimer preparationTime
                  (set_preparationPhase true
                    (set_gameScreen game (set_isPlaying true s))))) in
  snd (setTimer prepInterval 1000 s1).

(** The callback of [startGame]'s interval. *)
Definition firePrep (h : nat) (s : State) : State :=
  let s1 := set_preparationTimer (preparationTimer s - 1) s in
  if preparationTimer s1 <=? 0 then
    startWave
      (set_waveStarted true (set_preparationPhase false (clearTimer h s1)))
  else s1.

Definition completionCondition (s : State) : bool :=
  negb (waveCompleted s)
  && Nat.eqb (List.length (enemies s)) 0
  && match enemySpawnInterval s with None => true | Some _ => false end
  && waveStarted s.

Definition checkWaveCompletion (s : State) : State :=
  if completionCondition s then
    let s1 := set_waveCompleted true s in
    let waveBonus := 20 + wave s1 * 5 in
    let s2 := snd (setTimer (bonusTimeout waveBonus) 1000 s1) in
    snd (setTimer (countdownInterval 8) 1000 s2)
  else s.

(** The [setTimeout] callback of [checkWaveCompletion]; a timeout leaves the
    table when it runs. *)
Definition fireBonus (h : nat) (waveBonus : Z) (s : State) : State :=
  set_money (money s + waveBonus) (clearTimer h s).

(** The countdown callback of [checkWaveCompletion]. *)
Definition fireCountdown (h : nat) (nextWaveCountdown : Z) (s : State)
    : State :=
  let n := nextWaveCountdown - 1 in
  let s1 := updateTimer h (countdownInterval n) s in
  if n <=? 0 then
    startWave (set_waveCompleted false (set_wave (wave s1 + 1) (clearTimer h s1)))
  else s1.

(** The runtime running the callback registered under handle [h]. *)
Definition fireTimer (h : nat) (rand : Q) (s : State) : State :=
  match findTimer h s with
  | None => s
  | Some t =>
      match tm_callback t with
      | prepInterval => firePrep h s
      | spawnInterval spawned count => fireSpawn h spawned count rand s
      | bonusTimeout bonus => fireBonus h bonus s
      | countdownInterval n => fireCountdown h n s
      end
  end.

Definition gameOver (s : State) : State := set_isPlaying false s.

Definition resetGame (s : State) : State :=
  let s1 :=
    set_waveStarted false
      (set_waveCompleted false
        (set_difficultyFactor 1
          (set_selectedTower None
            (set_projectiles []
              (set_enemies []
                (set_towers []
                  (set_wave 1 (set_lives 1 (set_money 75 s))))))))) in
  let s2 := match enemySpawnInterval s1 with
            | Some h => set_enemySpawnInterval None (clearTimer h s1)
            | None => s1
            end in
  match waveTimeout s2 with
  | Some h => set_waveTimeout None (clearTimer h s2)
  | None => s2
  end.

(** Both restart buttons (the persistent one and the one of the game-over
    panel) run this handler. *)
Definition restartClick (s : State) : State :=
  set_gameScreen mainMenu (resetGame s).

(** ** Movement *)

(** One iteration of [updateEnemies] on one enemy; [None] is the breach
    (the enemy is spliced out and the loop returns).  The interpolation uses
    the segment read before [pathIndex] was advanced, as the code does. *)
Definition moveEnemy (enemy : Enemy) : option Enemy :=
  let currentPathPoint := pathPoint (e_pathIndex enemy) in
  let nextPathPoint := pathPoint (S (e_pathIndex enemy)) in
  let dx := (pt_x nextPathPoint - pt_x currentPathPoint)%Q in
  let dy := (pt_y nextPathPoint - pt_y currentPathPoint)%Q in
  let distance := Math_sqrt (dx * dx + dy * dy)%Q in
  let progress := (e_progress enemy + e_speed enemy)%Q in
  let place (idx : nat) (pr : Q) :=
    let progressPercent := (pr / distance)%Q in
    mkEnemy (e_id enemy)
            (pt_x currentPathPoint + dx * progressPercent)%Q
            (pt_y currentPathPoint + dy * progressPercent)%Q
            (e_type enemy) (e_health enemy) (e_maxHealth enemy)
            (e_speed enemy) (e_reward enemy) idx pr in
  if Qleb distance progress then
    let pathIndex := S (e_pathIndex enemy) in
    if (List.length path - 1 <=? pathIndex)%nat then None
    else Some (place pathIndex 0%Q)
  else Some (place (e_pathIndex enemy) progress).

(** The loop [for (i = length - 1; i >= 0; i--)]: the tail of the array is
    visited first; the flag tells that a breach ended the loop, in which case
    the enemies of lower index are left as they were. *)
Fixpoint updateEnemies_loop (es : list Enemy) : list Enemy * bool :=
  match es with
  | [] => ([], false)
  | enemy :: rest =>
      let '(rest', breached) := updateEnemies_loop rest in
      if breached then (enemy :: rest', true)
      else match moveEnemy enemy with
           | None => (rest', true)
           | Some enemy' => (enemy' :: rest', false)
           end
  end.

Definition updateEnemies (s : State) : State :=
  let '(es, breached) := updateEnemies_loop (enemies s) in
  if breached
  then gameOver (set_enemies es (set_lives (lives s - 1) s))
  else set_enemies es s.

(** ** Combat *)

Definition towerDistance (tower : Tower) (enemy : Enemy) : Q :=
  let dx := (e_x enemy - t_x tower)%Q in
  let dy := (e_y enemy - t_y tower)%Q in
  Math_sqrt (dx * dx + dy * dy)%Q.

(** Target acquisition: the scan over [gameState.enemies] with its two
    running variables. *)
Fixpoint scanEnemies (tower : Tower) (es : list Enemy)
    (closestEnemy : option Enemy) (closestDistance : Q)
    : option Enemy * Q :=
  match es with
  | [] => (closestEnemy, closestDistance)
  | enemy :: rest =>
      let distance := towerDistance tower enemy in
      if Qltb distance closestDistance
      then scanEnemies tower rest (Some enemy) distance
      else scanEnemies tower rest closestEnemy closestDistance
  end.

Definition acquireTarget (tower : Tower) (es : list Enemy)
    : option Enemy * Q :=
  scanEnemies tower es None (td_range (t_data tower)).

(** [now - tower.lastShot < 1000 / tower.fireRate]; every kind has a
    positive fire rate. *)
Definition onCooldown (now : Z) (tower : Tower) : bool :=
  Qltb (inject_Z (now - t_lastShot tower))
       (1000 / td_fireRate (t_data tower)).

(** The muzzle position both projectile constructors compute. *)
Definition muzzle (tower : Tower) (target : Enemy) : Q * Q :=
  let angle := Math_atan2 (e_y target - t_y tower) (e_x target - t_x tower) in
  ((t_x tower + Math_cos angle * td_barrelLength (t_data tower))%Q,
   (t_y tower + Math_sin angle * td_barrelLength (t_data tower))%Q).

Definition createStandardProjectile (tower : Tower) (target : Enemy)
    (st : Field) : Field :=
  let '(spawnX, spawnY) := muzzle tower target in
  mkField (f_enemies st) (f_money st)
    (f_projectiles st ++
       [mkProjectile spawnX spawnY (e_x target) (e_y target) (e_id target)
          (td_damage (t_data tower)) 5 (t_type tower) None None]).

Definition createBomberProjectile (tower : Tower) (target : Enemy)
    (st : Field) : Field :=
  let '(spawnX, spawnY) := muzzle tower target in
  mkField (f_enemies st) (f_money st)
    (f_projectiles st ++
       [mkProjectile spawnX spawnY (e_x target) (e_y target) (e_id target)
          (td_damage (t_data tower)) 4 "bomber"
          (t_radius tower) (t_falloff tower)]).

(** The damage of the instant hit.  [rand < undefined] is false; a
    multiplier that is [undefined] while the chance is set would give NaN and
    does not occur on towers built by [placeTower]: the shot then counts as
    not critical. *)
Definition sniperDamage (tower : Tower) (rand : Q) : Z :=
  match t_criticalChance tower, t_criticalMultiplier tower with
  | Some chance, Some mult =>
      if Qltb rand chance
      then Qfloor (inject_Z (td_damage (t_data tower)) * mult)
      else td_damage (t_data tower)
  | _, _ => td_damage (t_data tower)
  end.

Definition sniperShot (tower : Tower) (closestEnemy : Enemy) (rand : Q)
    (st : Field) : Field :=
  let damage := sniperDamage tower rand in
  let health := e_health closestEnemy - damage in
  let st1 := mkField (setHealth (e_id closestEnemy) health (f_enemies st))
                     (f_money st) (f_projectiles st) in
  if health <=? 0 then defeatEnemy closestEnemy st1 else st1.

(** The type-specific attack, dispatched on [tower.type]. *)
Definition attack (tower : Tower) (closestEnemy : Enemy) (rand : Q)
    (st : Field) : Field :=
  if String.eqb (t_type tower) "sniper" then
    sniperShot tower closestEnemy rand st
  else if String.eqb (t_type tower) "bomber" then
    createBomberProjectile tower closestEnemy st
  else createStandardProjectile tower closestEnemy st.

Definition aimAt (now : Z) (tower : Tower) (closestEnemy : Enemy) : Tower :=
  mkTower (t_x tower) (t_y tower) (t_type tower) now
          (Some (e_id closestEnemy))
          (Math_atan2 (e_y closestEnemy - t_y tower)
                      (e_x closestEnemy - t_x tower))
          (t_data tower) (t_criticalChance tower)
          (t_criticalMultiplier tower) (t_radius tower) (t_falloff tower).

(** The body of [updateTowers]'s loop for one tower. *)
Definition towerStep (now : Z) (rand : Q) (tower : Tower) (st : Field)
    : Tower * Field :=
  if onCooldown now tower then (tower, st)
  else match acquireTarget tower (f_enemies st) with
       | (Some closestEnemy, _) =>
           let tower' := aimAt now tower closestEnemy in
           (tower', attack tower' closestEnemy rand st)
       | (None, _) => (tower, st)
       end.

(** [rand i] is the draw available to the [i]-th tower of the array. *)
Fixpoint updateTowers_loop (now : Z) (rand : nat -> Q) (i : nat)
    (ts : list Tower) (st : Field) : list Tower * Field :=
  match ts with
  | [] => ([], st)
  | tower :: rest =>
      let '(tower', st1) := towerStep now (rand i) tower st in
      let '(rest', st2) := updateTowers_loop now rand (S i) rest st1 in
      (tower' :: rest', st2)
  end.

Definition fieldOf (s : State) : Field :=
  mkField (enemies s) (money s) (projectiles s).

Definition withField (st : Field) (s : State) : State :=
  set_projectiles (f_projectiles st)
    (set_money (f_money st) (set_enemies (f_enemies st) s)).

Definition updateTowers (now : Z) (rand : nat -> Q) (s : State) : State :=
  let '(ts, st) := updateTowers_loop now rand 0 (towers s) (fieldOf s) in
  set_towers ts (withField st s).

(** ** Projectiles *)

(** Homing: the aim point follows a target that is still in the array. *)
Definition retarget (p : Projectile) (es : list Enemy) : Projectile :=
  match findEnemy (p_target p) es with
  | Some target =>
      mkProjectile (p_x p) (p_y p) (e_x target) (e_y target) (p_target p)
                   (p_damage p) (p_speed p) (p_type p)
                   (p_explosionRadius p) (p_falloff p)
  | None => p
  end.

Definition areaDamage (damage : Z) (explosionRadius falloff : Q)
    (explosionDistance : Q) : Z :=
  let damagePercent :=
    (1 - (explosionDistance / explosionRadius) * falloff)%Q in
  Qfloor (inject_Z damage * damagePercent).

Definition explosionDistance (p : Projectile) (enemy : Enemy) : Q :=
  let explosionDx := (e_x enemy - p_targetX p)%Q in
  let explosionDy := (e_y enemy - p_targetY p)%Q in
  Math_sqrt (explosionDx * explosionDx + explosionDy * explosionDy)%Q.

(** One iteration of the area-damage loop.  A comparison with an
    [undefined] radius is false and an [undefined] falloff makes the damage
    NaN, which is not [> 0]: no damage in both cases. *)
Definition splashOne (p : Projectile) (enemy : Enemy) (st : Field) : Field :=
  if Nat.eqb (e_id enemy) (p_target p) then st
  else
    match p_explosionRadius p, p_falloff p with
    | Some radius, Some falloff =>
        if Qleb (explosionDistance p enemy) radius then
          let dmg := areaDamage (p_damage p) radius falloff
                                (explosionDistance p enemy) in
          if 0 <? dmg then
            let health := e_health enemy - dmg in
            let st1 := mkField (setHealth (e_id enemy) health (f_enemies st))
                               (f_money st) (f_projectiles st) in
            if health <=? 0 then defeatEnemy enemy st1 else st1
          else st
        else st
    | _, _ => st
    end.

(** The loop [for (const enemy of gameState.enemies)] walks the array that
    was current when it started, while [defeatEnemy] installs filtered
    copies. *)
Definition splashLoop (p : Projectile) (snapshot : list Enemy) (st : Field)
    : Field :=
  fold_left (fun acc enemy => splashOne p enemy acc) snapshot st.

(** Hit registration; nothing happens unless the target is still live. *)
Definition resolveImpact (p : Projectile) (st : Field) : Field :=
  match findEnemy (p_target p) (f_enemies st) with
  | None => st
  | Some target =>
      let health := e_health target - p_damage p in
      let st1 := mkField (setHealth (p_target p) health (f_enemies st))
                         (f_money st) (f_projectiles st) in
      if String.eqb (p_type p) "bomber" then
        let st2 := splashLoop p (f_enemies st1) st1 in
        if health <=? 0 then defeatEnemy target st2 else st2
      else
        if health <=? 0 then defeatEnemy target st1 else st1
  end.

(** The body of [updateProjectiles]'s loop; [None]: the projectile is
    spliced out. *)
Definition projectileStep (p : Projectile) (st : Field)
    : option Projectile * Field :=
  let p1 := retarget p (f_enemies st) in
  let dx := (p_targetX p1 - p_x p1)%Q in
  let dy := (p_targetY p1 - p_y p1)%Q in
  let distance := Math_sqrt (dx * dx + dy * dy)%Q in
  if Qltb distance 5 then (None, resolveImpact p1 st)
  else
    let speed := (p_speed p1 * (1 + 0.1 * (1 - distance / 300)))%Q in
    (Some (mkProjectile (p_x p1 + (dx / distance) * speed)%Q
                        (p_y p1 + (dy / distance) * speed)%Q
                        (p_targetX p1) (p_targetY p1) (p_target p1)
                        (p_damage p1) (p_speed p1) (p_type p1)
                        (p_explosionRadius p1) (p_falloff p1)),
     st).

(** [for (i = length - 1; i >= 0; i--)] with [splice(i, 1)] on impact. *)
Fixpoint updateProjectiles_loop (ps : list Projectile) (st : Field)
    : list Projectile * Field :=
  match ps with
  | [] => ([], st)
  | p :: rest =>
      let '(rest', st1) := updateProjectiles_loop rest st in
      let '(op, st2) := projectileStep p st1 in
      (match op with Some p' => p' :: rest' | None => rest' end, st2)
  end.

Definition updateProjectiles (s : State) : State :=
  let '(ps, st) := updateProjectiles_loop (projectiles s) (fieldOf s) in
  set_projectiles ps (withField st s).

(** ** The loop and its events *)

Definition update (now : Z) (rand : nat -> Q) (s : State) : State :=
  updateProjectiles
    (updateTowers now rand (updateEnemies (checkWaveCompletion s))).

Definition gameLoop (now : Z) (rand : nat -> Q) (s : State) : State :=
  match gameScreen s, isPlaying s with
  | game, true => update now rand s
  | _, _ => s
  end.

(** What the page can deliver to the engine: button clicks, canvas clicks,
    animation frames and timer callbacks, in any order. *)
Inductive Event :=
| EvStartGame
| EvSelectTower (kind : TowerKind)
| EvCanvasClick (x y : Q)
| EvFrame (now : Z) (rand : nat -> Q)
| EvTimer (h : nat) (rand : Q)
| EvRestartClick
| EvShowHowToPlay
| EvBackToMenu.

Definition step (ev : Event) (s : State) : State :=
  match ev with
  | EvStartGame => startGame s
  | EvSelectTower kind => selectTower kind s
  | EvCanvasClick x y => handleCanvasClick x y s
  | EvFrame now rand => gameLoop now rand s
  | EvTimer h rand => fireTimer h rand s
  | EvRestartClick => restartClick s
  | EvShowHowToPlay => set_gameScreen howToPlay s
  | EvBackToMenu => set_gameScreen mainMenu s
  end.

Definition run (evs : list Event) (s : State) : State :=
  fold_left (fun acc ev => step ev acc) evs s.

Inductive reachable : State -> Prop :=
| reach_init : reachable initialState
| reach_step ev s : reachable s -> reachable (step ev s).

End Engine.

(** ** A rational implementation of the Math interface

    Used to run the engine on concrete scenarios.  [sqrtQ] is exact on
    squares of rationals (it rounds down elsewhere).  An angle is
    represented by the tangent of its half, which makes cosine and sine
    rational: [cosQ (atan2Q dy dx) = dx / sqrt (dx^2 + dy^2)] whenever that
    root is rational and the direction is not the negative x axis.
    [log10Q] is the coarse value [floor (log2 q) * 0.30103]. *)

Definition sqrtQ (q : Q) : Q :=
  (inject_Z (Z.sqrt (Qnum q * Zpos (Qden q))) / inject_Z (Zpos (Qden q)))%Q.

Definition atan2Q (dy dx : Q) : Q :=
  (dy / (sqrtQ (dx * dx + dy * dy) + dx))%Q.

Definition cosQ (t : Q) : Q := ((1 - t * t) / (1 + t * t))%Q.
Definition sinQ (t : Q) : Q := ((2 * t) / (1 + t * t))%Q.

Definition log10Q (q : Q) : Q :=
  (inject_Z (Z.log2 (Qfloor q)) * 0.30103)%Q.

Definition rationalMath : Math :=
  Build_Math sqrtQ atan2Q cosQ sinQ log10Q.

(** ** Vocabulary of the statements *)

(** The rewards still to be earned on the field. *)
Definition rewardPool (es : list Enemy) : Z :=
  fold_right Z.add 0 (map e_reward es).

(** [thinned es es']: [es'] is [es] with some enemies taken out and the
    others kept in order, under the same identity and reward. *)
Inductive thinned : list Enemy -> list Enemy -> Prop :=
| thinned_nil : thinned [] []
| thinned_keep e e' es es' :
    e_id e' = e_id e -> e_reward e' = e_reward e ->
    thinned es es' -> thinned (e :: es) (e' :: es')
| thinned_drop e es es' : thinned es es' -> thinned (e :: es) es'.

(** What an impact of projectile [p] leaves of enemy [e]: the primary target
    loses [damage]; under a bomber projectile another enemy within the radius
    loses the area damage when that is positive; whoever is brought to zero
    or below is gone. *)
Definition afterImpact {host : Math} (p : Projectile) (e : Enemy)
    : option Enemy :=
  if Nat.eqb (e_id e) (p_target p) then
    if e_health e - p_damage p <=? 0 then None
    else Some (withHealth (e_health e - p_damage p) e)
  else
    match String.eqb (p_type p) "bomber", p_explosionRadius p, p_falloff p with
    | true, Some radius, Some falloff =>
        let dmg := areaDamage (p_damage p) radius falloff
                              (explosionDistance p e) in
        if Qleb (explosionDistance p e) radius && (0 <? dmg) then
          if e_health e - dmg <=? 0 then None
          else Some (withHealth (e_health e - dmg) e)
        else Some e
    | _, _, _ => Some e
    end.

(** The splash damage in the words of the specification: the floored,
    attenuated damage, clamped at zero, within the radius; nothing beyond. *)
Definition specSplashDamage (damage : Z) (radius falloff d : Q) : Z :=
  if Qleb d radius then Z.max 0 (areaDamage damage radius falloff d) else 0.

(** What the area-damage loop leaves of an enemy it visits. *)
Definition afterSplash {host : Math} (p : Projectile) (e : Enemy)
    : option Enemy :=
  if Nat.eqb (e_id e) (p_target p) then Some e
  else
    match p_explosionRadius p, p_falloff p with
    | Some radius, Some falloff =>
        let dmg := areaDamage (p_damage p) radius falloff
                              (explosionDistance p e) in
        if Qleb (explosionDistance p e) radius && (0 <? dmg) then
          if e_health e - dmg <=? 0 then None
          else Some (withHealth (e_health e - dmg) e)
        else Some e
    | _, _ => Some e
    end.

(** The object identities held by an array of enemies. *)
Definition ids (es : list Enemy) : list nat := map e_id es.

(** The predicate of [defeatEnemy]'s filter. *)
Definition unharmed (id : nat) (e : Enemy) : bool := negb (Nat.eqb (e_id e) id).

(** An enemy above zero health. *)
Definition alive (e : Enemy) : Prop := 0 < e_health e.

(** [settles st st']: a resolution step took [st] to [st'] by removing
    enemies and paying the reward of each removed enemy once. *)
Definition settles (st st' : Field) : Prop :=
  NoDup (ids (f_enemies st'))
  /\ thinned (f_enemies st) (f_enemies st')
  /\ f_money st' + rewardPool (f_enemies st')
     = f_money st + rewardPool (f_enemies st).

(** [paidOnce s s']: from [s] to [s'] enemies were only taken out, each
    for its reward, and the survivors of a field of live enemies are live. *)
Definition paidOnce (s s' : State) : Prop :=
  NoDup (map e_id (enemies s'))
  /\ thinned (enemies s) (enemies s')
  /\ money s'
     = money s
       + rewardPool
           (filter (fun e => negb (includes (e_id e) (enemies s')))
                   (enemies s))
  /\ (Forall alive (enemies s) -> Forall alive (enemies s')).

(** [waveStarted] and [preparationPhase] as a pair: no part of a tick
    assigns either. *)
Definition phaseFlags (s : State) : bool * bool :=
  (waveStarted s, preparationPhase s).

(** Whenever the first wave counts as started, the preparation phase is
    over. *)
Definition startedAfterPreparation (s : State) : Prop :=
  waveStarted s = true -> preparationPhase s = false.

(** ** Scenarios *)

Definition clock : Z := 1700000000000.
Definition noCrit : nat -> Q := fun _ => 0.99%Q.

(** A running session of wave 7 with the given towers, enemies and
    projectiles. *)
Definition arena (ts : list Tower) (es : list Enemy) (ps : list Projectile)
    : State :=
  mkState 500 1 7 true None ts es ps None None game false 0 1.9 false true
          [] 3 (List.length es).

(** An enemy of the given kind and health on the sixth segment,
    [(600,120) -> (600,400)], [progress] units down. *)
Definition walker (id : nat) (kind : EnemyKind) (health : Z) (progress : Q)
    : Enemy :=
  mkEnemy id 600 (120 + progress) kind health health
          (ed_speed (enemyTypes kind)) (ed_reward (enemyTypes kind)) 5 progress.

(** One enemy about to be 80 units right of a freshly placed tower. *)
Definition duel (kind : TowerKind) (health : Z) : State :=
  placeTower 520 200 kind (arena [] [walker 0 Ebasic health 79] []).

(** A projectile three units left of the point [(600, y)], aimed at it. *)
Definition shell (target : nat) (y : Q) (type : string)
    (radius falloff : option Q) : Projectile :=
  mkProjectile 597 y 600 y target 50 4 type radius falloff.

(** Such a projectile about to hit enemy 0 of the cluster below, which is at
    distance 30, 60 and 61 of enemies 1, 2 and 3. *)
Definition inFlight (type : string) (radius falloff : option Q) : Projectile :=
  shell 0 200 type radius falloff.

Definition cluster (p : Projectile) : State :=
  arena []
        [walker 0 Estrong 100 80; walker 1 Estrong 100 110;
         walker 2 Estrong 100 140; walker 3 Estrong 100 141]
        [p].

Definition frames (n : nat) : list Event := repeat (EvFrame clock noCrit) n.

(** Two enemies 30 apart; a plain projectile about to hit enemy 0 and,
    later in the array, a bomber projectile about to hit enemy 1. *)
Definition crossfire : State :=
  arena []
        [walker 0 Ebasic 30 80; walker 1 Ebasic 40 110]
        [shell 0 200 "basic" None None;
         shell 1 230 "bomber" (Some 60%Q) (Some 0.5%Q)].

(** Two plain projectiles about to hit the same enemy. *)
Definition doubleHit : State :=
  arena []
        [walker 0 Ebasic 40 80; walker 1 Ebasic 40 110]
        [shell 0 200 "basic" None None; shell 0 200 "cannon" None None].

Definition bomb : Projectile := inFlight "bomber" (Some 60%Q) (Some 0.5%Q).

(** A session on a 240 Hz display: 240 animation frames between two
    firings of the preparation countdown (1000 ms), 288 between two firings
    of the spawn interval of wave 1 (1200 ms).  The first enemy, spawned at
    the first firing, needs 1400 frames to walk the path: it breaches 248
    frames after the fifth firing, three spawns before the schedule ends. *)
Definition tickThenTimer (n h : nat) : list Event := frames n ++ [EvTimer h 0].

Definition firstWaveAt240Hz : list Event :=
  [EvStartGame]
  ++ List.concat (repeat (tickThenTimer 240 1) 5)
  ++ List.concat (repeat (tickThenTimer 288 2) 5)
  ++ frames 248.

Definition breached : State :=
  run (host := rationalMath) firstWaveAt240Hz initialState.

(** One frame before the end for enemy 0, enemy 1 about to be 80 units from
    a basic tower whose cooldown has elapsed. *)
Definition lastStand : State :=
  placeTower 520 200 basic
    (arena []
           [mkEnemy 0 799 400 Ebasic 40 40 1 10 6 199; walker 1 Ebasic 40 79]
           []).

(** The restart button pressed during the preparation phase, then the
    preparation countdown and the spawn interval it leads to. *)
Definition staleRestart : State :=
  run (host := rationalMath)
      ([EvStartGame; EvRestartClick] ++ repeat (EvTimer 1 0) 5 ++ [EvTimer 2 0])
      initialState.

(** Wave 7 with its last enemy defeated and its spawn schedule over. *)
Definition waveCleared : State := arena [] [] [].

(** The frame that detects the completion, the restart button, then the
    bonus timeout and the eight firings of the countdown. *)
Definition staleCountdown : State :=
  run (host := rationalMath)
      ([EvFrame clock noCrit; EvRestartClick; EvTimer 3 0]
       ++ repeat (EvTimer 4 0) 8)
      waveCleared.

(** ** Vocabulary of the placement *)

(** A placement request as the page delivers it: the button of a kind, then
    a click on the canvas at [(x, y)]. *)
Definition placementRequest {host : Math} (kind : TowerKind) (x y : Q)
    (s : State) : State :=
  handleCanvasClick x y (selectTower kind s).

(** The quantities of [isPositionValid]'s inner loop on one segment: the
    number of steps, the sample [j] and the distance of a point to
    [(x, y)]. *)
Definition segmentSteps {host : Math} (seg : Point * Point) : Z :=
  let dx := (pt_x (snd seg) - pt_x (fst seg))%Q in
  let dy := (pt_y (snd seg) - pt_y (fst seg))%Q in
  Qceiling (Math_sqrt (dx * dx + dy * dy)%Q / 10).

Definition segmentSample {host : Math} (seg : Point * Point) (j : nat)
    : Point :=
  let dx := (pt_x (snd seg) - pt_x (fst seg))%Q in
  let dy := (pt_y (snd seg) - pt_y (fst seg))%Q in
  mkPoint
    (pt_x (fst seg) + dx * inject_Z (Z.of_nat j) / inject_Z (segmentSteps seg))%Q
    (pt_y (fst seg) + dy * inject_Z (Z.of_nat j) / inject_Z (segmentSteps seg))%Q.

Definition distanceFrom {host : Math} (p : Point) (x y : Q) : Q :=
  Math_sqrt ((pt_x p - x) * (pt_x p - x) + (pt_y p - y) * (pt_y p - y))%Q.

(** The tower of the duel below. *)
Definition duellist : Tower := newTower 520 200 basic.

(** ** Vocabulary of the invariants *)

(** A property of enemies that does not look at the health. *)
Definition healthBlind (P : Enemy -> Prop) : Prop :=
  forall h e, P e -> P (withHealth h e).

(** An array of enemies under allocation counter [n]: distinct objects,
    allocated below the counter, each on a segment of the path, none with a
    negative reward. *)
Definition wellFormedEnemies (n : nat) (es : list Enemy) : Prop :=
  NoDup (ids es)
  /\ Forall (fun e => (e_id e < n)%nat) es
  /\ Forall (fun e => (S (e_pathIndex e) < List.length path)%nat) es
  /\ Forall (fun e => 0 <= e_reward e) es.

Definition enemiesWellFormed (s : State) : Prop :=
  wellFormedEnemies (nextEnemy s) (enemies s).

(** A registered wave bonus is not negative. *)
Definition nonnegBonus (t : Timer) : Prop :=
  match tm_callback t with
  | bonusTimeout waveBonus => 0 <= waveBonus
  | _ => True
  end.

(** The purse of a session: the wave counter is positive, the money is not
    negative and covers the pending selection, and no registered bonus is
    negative. *)
Definition purseWellFormed (s : State) : Prop :=
  1 <= wave s
  /\ 0 <= money s
  /\ match selectedTower s with
     | Some kind => td_cost (towerTypes kind) <= money s
     | None => True
     end
  /\ Forall nonnegBonus (timers s).

(** A tower with its aim state cleared: the fields [updateTowers] never
    writes. *)
Definition atRest (t : Tower) : Tower :=
  mkTower (t_x t) (t_y t) (t_type t) 0 None 0 (t_data t)
          (t_criticalChance t) (t_criticalMultiplier t)
          (t_radius t) (t_falloff t).

(** A tower as [placeTower] builds it, whatever it has aimed at since. *)
Definition placed (t : Tower) : Prop :=
  exists kind, atRest t = newTower (t_x t) (t_y t) kind.

(** A projectile that takes the single-target branch of the impact. *)
Definition standardShot (p : Projectile) : Prop :=
  String.eqb (p_type p) "bomber" = false
  /\ p_explosionRadius p = None /\ p_falloff p = None.

(** The overlap test of [isPositionValid], between two towers: [b], placed
    later, was tested against [a]. *)
Definition apart (a b : Tower) : Prop :=
  overlapsTower (t_x b) (t_y b) a = false.

(** A tower on a cell corner, inside the margins and clear of the path. *)
Definition onSite {host : Math} (t : Tower) : Prop :=
  outOfBounds (t_x t) (t_y t) = false
  /\ forallb (segmentClear (t_x t) (t_y t)) (segments path) = true
  /\ exists i j : Z,
       t_x t = (inject_Z i * gridSize)%Q /\ t_y t = (inject_Z j * gridSize)%Q.

(** The arsenal of a session: every tower is as placed, stands on a valid
    site and was tested against the towers placed before it; every
    projectile in flight is a standard one. *)
Definition arsenalWellFormed {host : Math} (s : State) : Prop :=
  Forall placed (towers s)
  /\ ForallOrdPairs apart (towers s)
  /\ Forall onSite (towers s)
  /\ Forall standardShot (projectiles s).

(** A timer whose callback is the spawner of [startWave]. *)
Definition isSpawner (t : Timer) : bool :=
  match tm_callback t with
  | spawnInterval _ _ => true
  | _ => false
  end.

(** The predicate of [clearTimer]'s filter and the function of
    [updateTimer]'s map. *)
Definition keepOthers (h : nat) (t : Timer) : bool :=
  negb (Nat.eqb (tm_handle t) h).

Definition retag (h : nat) (cb : Callback) (t : Timer) : Timer :=
  if Nat.eqb (tm_handle t) h then mkTimer h (tm_delay t) cb else t.

(** A timer table under the next handle to be issued and the stored
    spawner handle: handles are distinct and already issued, and the
    spawners of the table are exactly the stored handle. *)
Definition timerTable (ts : list Timer) (next : nat) (spawner : option nat)
    : Prop :=
  NoDup (map tm_handle ts)
  /\ Forall (fun t => (tm_handle t < next)%nat) ts
  /\ map tm_handle (filter isSpawner ts)
     = match spawner with
       | Some h => [h]
       | None => []
       end.

(** The timers of a session: [waveTimeout] holds nothing and the table is
    consistent with [nextHandle] and [enemySpawnInterval]. *)
Definition timersWellFormed (s : State) : Prop :=
  waveTimeout s = None
  /\ timerTable (timers s) (nextHandle s) (enemySpawnInterval s).

(** The field of a session holds no defeated enemy, and the difficulty
    factor has not dropped below one. *)
Definition fieldAlive (s : State) : Prop :=
  Forall alive (enemies s) /\ (1 <= difficultyFactor s)%Q.

(** A burst of animation frames, each with its clock value and its draws. *)
Definition frameEvents (fs : list (Z * (nat -> Q))) : list Event :=
  map (fun f => EvFrame (fst f) (snd f)) fs.

(** The first wave about to spawn: the session started and its preparation
    interval (handle 1) fired five times. *)
Definition firstWaveReady : State :=
  run (host := rationalMath) (EvStartGame :: repeat (EvTimer 1 0) 5)
      initialState.

(** The frame that detects the completion of wave 7 and registers the bonus
    (handle 3) and the countdown (handle 4). *)
Definition waveDetected : State :=
  run (host := rationalMath) [EvFrame clock noCrit] waveCleared.

(** A basic enemy one step before the end of the sixth segment, 280 long. *)
Definition atWaypoint : Enemy := walker 0 Ebasic 40 279.

(** ** Visual effects *)

(** An entry of [gameState.effects].  The producers set [type], the
    position, [color], [alpha] and [lifetime] on every entry; the other
    fields only on some. *)
Record Effect := mkEffect {
  ef_type : string;
  ef_x : Q;
  ef_y : Q;
  ef_radius : option Q;
  ef_maxRadius : option Q;
  ef_color : string;
  ef_text : option string;
  ef_velocity : option (Q * Q);
  ef_alpha : Q;
  ef_lifetime : Q
}.

Definition createFloatingText (x y : Q) (text color : string)
    (effects : list Effect) : list Effect :=
  effects
  ++ [mkEffect "text" x y None None color (Some text) (Some (0, -1)%Q) 1 60].

(** The shockwave [createExplosion] pushes first. *)
Definition shockwave (x y radius : Q) : Effect :=
  mkEffect "explosion" x y (Some 5%Q) (Some radius) "#fed7d7" None None
           0.7 20.

(** [Math.max(a, b)] *)
Definition Math_max (a b : Q) : Q := if Qleb a b then b else a.

(** The body of [updateEffects]'s loop for one effect; [None]: the effect is
    spliced out.  An explosion without [radius] or [maxRadius] would get a
    NaN radius, which no producer causes: it is left without one. *)
Definition tickEffect (effect : Effect) : option Effect :=
  let lifetime := (ef_lifetime effect - 1)%Q in
  if Qleb lifetime 0 then None
  else
    let radius :=
      if String.eqb (ef_type effect) "explosion" then
        match ef_radius effect, ef_maxRadius effect with
        | Some radius, Some maxRadius =>
            Some (radius + (maxRadius - radius) / lifetime)%Q
        | _, _ => None
        end
      else ef_radius effect in
    let '(x, y) :=
      match ef_velocity effect with
      | Some (vx, vy) => ((ef_x effect + vx)%Q, (ef_y effect + vy)%Q)
      | None => (ef_x effect, ef_y effect)
      end in
    let alpha :=
      if Qeq_bool (ef_alpha effect) 0 then ef_alpha effect
      else Math_max 0 (ef_alpha effect - 0.02) in
    Some (mkEffect (ef_type effect) x y radius (ef_maxRadius effect)
                   (ef_color effect) (ef_text effect) (ef_velocity effect)
                   alpha lifetime).

(** [for (i = length - 1; i >= 0; i--)] with [splice(i, 1)] on expiry. *)
Fixpoint updateEffects (effects : list Effect) : list Effect :=
  match effects with
  | [] => []
  | effect :: rest =>
      let rest' := updateEffects rest in
      match tickEffect effect with
      | Some effect' => effect' :: rest'
      | None => rest'
      end
  end.

(** [n] frames of [updateEffects]. *)
Definition effectsAfter (n : nat) (effects : list Effect) : list Effect :=
  Nat.iter n updateEffects effects.

(** The relation between an effect and what it is [n] frames later. *)
Definition agedBy (n : nat) (effect' effect : Effect) : Prop :=
  (ef_lifetime effect' == ef_lifetime effect - inject_Z (Z.of_nat n))%Q
  /\ ef_type effect' = ef_type effect
  /\ ef_text effect' = ef_text effect
  /\ ef_color effect' = ef_color effect
  /\ ef_maxRadius effect' = ef_maxRadius effect
  /\ ef_velocity effect' = ef_velocity effect.

(** Where an effect is, how large and how opaque, [n] frames after it was
    [effect]: it has drifted [n] times its velocity, its opacity has not
    grown nor gone negative, and the gap between an explosion's radius and
    its [maxRadius] has shrunk linearly, to nothing when one frame is left. *)
Definition driftedBy (n : nat) (effect' effect : Effect) : Prop :=
  match ef_velocity effect with
  | Some (vx, vy) =>
      (ef_x effect' == ef_x effect + inject_Z (Z.of_nat n) * vx)%Q
      /\ (ef_y effect' == ef_y effect + inject_Z (Z.of_nat n) * vy)%Q
  | None => ef_x effect' = ef_x effect /\ ef_y effect' = ef_y effect
  end.

Definition fadedFrom (effect' effect : Effect) : Prop :=
  (0 <= ef_alpha effect)%Q ->
  (0 <= ef_alpha effect')%Q /\ (ef_alpha effect' <= ef_alpha effect)%Q.

Definition grownBy (n : nat) (effect' effect : Effect) : Prop :=
  if String.eqb (ef_type effect) "explosion" then
    forall radius maxRadius,
      ef_radius effect = Some radius ->
      ef_maxRadius effect = Some maxRadius ->
      exists radius',
        ef_radius effect' = Some radius'
        /\ ((maxRadius - radius') * (ef_lifetime effect - 1)
            == (maxRadius - radius)
               * (ef_lifetime effect - 1 - inject_Z (Z.of_nat n)))%Q
  else ef_radius effect' = ef_radius effect.

(** The shockwave of an explosion of radius 60, three frames old. *)
Definition youngRing : Effect :=
  hd (shockwave 100 100 60) (effectsAfter 3 [shockwave 100 100 60]).

(** ** Tactics *)

(** Reduction of record updates that leaves the arithmetic alone. *)
Ltac st_cbn :=
  cbn -[Z.add Z.sub Z.mul Z.div Z.max Z.min Z.leb Z.ltb Z.eqb Z.modulo
        Z.opp Qfloor Qceiling inject_Z Qmult Qplus Qminus Qdiv Qle_bool
        Nat.eqb Nat.leb].

Ltac st_cbn_in H :=
  cbn -[Z.add Z.sub Z.mul Z.div Z.max Z.min Z.leb Z.ltb Z.eqb Z.modulo
        Z.opp Qfloor Qceiling inject_Z Qmult Qplus Qminus Qdiv Qle_bool
        Nat.eqb Nat.leb] in H.

(** * Properties *)

(** ** Comparisons on rationals *)

Lemma Qltb_lt (a b : Q) : Qltb a b = true <-> (a < b)%Q.
Proof.
  unfold Qltb. rewrite negb_true_iff. split; intro H.
  - apply Qnot_le_lt. intro Hle. apply Qle_bool_iff in Hle. congruence.
  - destruct (Qle_bool b a) eqn:E; [|reflexivity].
    apply Qle_bool_iff in E. exfalso. exact (Qlt_not_le _ _ H E).
Qed.

Lemma Qltb_ge (a b : Q) : Qltb a b = false <-> (b <= a)%Q.
Proof.
  unfold Qltb. rewrite negb_false_iff. apply Qle_bool_iff.
Qed.

(** ** The type field of a placed tower (C10, C1, C2) *)

(** C10: [placeTower] appends the instance it builds; the instance carries
    the copy of its spec and the fields merged from the special descriptor,
    and after [Object.assign] its [type] field is the [type] of that
    descriptor when the spec has one ("critical" for a sniper, "explosion"
    for a bomber), the kind's own name otherwise. *)
Theorem placeTower_type_is_special_type :
  forall (x y : Q) (kind : TowerKind) (s : State),
    towers (placeTower x y kind s) = towers s ++ [newTower x y kind]
    /\ t_data (newTower x y kind) = towerTypes kind
    /\ t_type (newTower x y kind) =
         match td_special (towerTypes kind) with
         | Some sp => specialType sp
         | None => kindName kind
         end
    /\ t_type (newTower x y sniper) = "critical"%string
    /\ t_criticalChance (newTower x y sniper) = Some 0.2%Q
    /\ t_criticalMultiplier (newTower x y sniper) = Some 2.5%Q
    /\ t_type (newTower x y bomber) = "explosion"%string
    /\ t_radius (newTower x y bomber) = Some 60%Q
    /\ t_falloff (newTower x y bomber) = Some 0.5%Q
    /\ t_type (newTower x y basic) = "basic"%string
    /\ t_type (newTower x y cannon) = "cannon"%string
    /\ t_type (newTower x y magic) = "magic"%string.
Proof.
  intros x y kind s. repeat split; try reflexivity;
    destruct kind; reflexivity.
Qed.

Section Dispatch.

Context {host : Math}.

(** A tower built by [placeTower] never carries the type "sniper" or
    "bomber", so [attack] always takes its last branch. *)
Lemma placed_tower_attack :
  forall x y kind now rand target st,
    attack (aimAt now (newTower x y kind) target) target rand st
    = createStandardProjectile (aimAt now (newTower x y kind) target)
                               target st.
Proof.
  intros x y kind now rand target st. destruct kind; reflexivity.
Qed.

(** What the two special branches of [attack] do for a tower that does
    carry the type they test. *)
Lemma sniper_branch_is_instant :
  forall tower target rand st,
    t_type tower = "sniper"%string ->
    attack tower target rand st = sniperShot tower target rand st
    /\ f_projectiles (sniperShot tower target rand st) = f_projectiles st.
Proof.
  intros tower target rand st H. unfold attack. rewrite H. split.
  - reflexivity.
  - unfold sniperShot. destruct (_ <=? 0); reflexivity.
Qed.

Lemma bomber_branch_spawns_splash :
  forall tower target rand st,
    t_type tower = "bomber"%string ->
    attack tower target rand st = createBomberProjectile tower target st.
Proof.
  intros tower target rand st H. unfold attack. rewrite H. reflexivity.
Qed.

Lemma createStandardProjectile_field :
  forall tower target st,
    f_enemies (createStandardProjectile tower target st) = f_enemies st
    /\ f_money (createStandardProjectile tower target st) = f_money st
    /\ exists px py,
         f_projectiles (createStandardProjectile tower target st)
         = f_projectiles st ++
             [mkProjectile px py (e_x target) (e_y target) (e_id target)
                (td_damage (t_data tower)) 5 (t_type tower) None None].
Proof.
  intros tower target st. unfold createStandardProjectile.
  destruct (muzzle tower target) as [sx sy]. simpl.
  repeat split. exists sx, sy. reflexivity.
Qed.

End Dispatch.

(** C1 (the code departs from it): a bomber tower built by [placeTower]
    has type "explosion", so its shot is a standard projectile, tagged
    "explosion" and without radius or falloff, and its impact damages the
    target alone; towers of the kinds without special ability do fire a
    standard projectile at the acquired enemy. *)
Theorem placed_bomber_fires_standard_projectile :
  (forall (host : Math) x y now rand target st,
      let tower := aimAt now (newTower x y bomber) target in
      attack tower target rand st = createStandardProjectile tower target st
      /\ exists px py,
           f_projectiles (attack tower target rand st)
           = f_projectiles st ++
               [mkProjectile px py (e_x target) (e_y target) (e_id target)
                             50 5 "explosion" None None])
  /\ (forall (host : Math) x y kind now rand target st,
        let tower := aimAt now (newTower x y kind) target in
        match td_special (towerTypes kind) with
        | Some _ => True
        | None =>
            exists px py,
              f_projectiles (attack tower target rand st)
              = f_projectiles st ++
                  [mkProjectile px py (e_x target) (e_y target) (e_id target)
                                (td_damage (towerTypes kind)) 5
                                (kindName kind) None None]
        end)
  /\ (let s := gameLoop (host := rationalMath) clock noCrit (duel bomber 100) in
      map t_lastShot (towers s) = [clock]
      /\ map p_type (projectiles s) = ["explosion"%string]
      /\ map p_explosionRadius (projectiles s) = [None]
      /\ map p_falloff (projectiles s) = [None])
  /\ map e_health
       (enemies (updateProjectiles (host := rationalMath)
                   (cluster (inFlight "explosion" None None))))
     = [50; 100; 100; 100].
Proof.
  split; [|split; [|split]].
  - intros host x y now rand target st tower. subst tower.
    rewrite placed_tower_attack. split; [reflexivity|].
    destruct (createStandardProjectile_field
                (aimAt now (newTower x y bomber) target) target st)
      as (_ & _ & px & py & E).
    exists px, py. exact E.
  - intros host x y kind now rand target st tower. subst tower.
    rewrite placed_tower_attack.
    destruct (createStandardProjectile_field
                (aimAt now (newTower x y kind) target) target st)
      as (_ & _ & px & py & E).
    destruct kind; simpl; try exact I; exists px, py; exact E.
  - vm_compute. repeat split.
  - vm_compute. reflexivity.
Qed.

(** C2 (the code departs from it): a sniper tower built by [placeTower] has
    type "critical"; when it fires, whatever the random draw, the target
    keeps its health, no reward is paid and a standard projectile of damage
    80 is appended instead of an instant hit. *)
Theorem placed_sniper_fires_standard_projectile :
  (forall (host : Math) x y now rand target st,
      let tower := aimAt now (newTower x y sniper) target in
      attack tower target rand st = createStandardProjectile tower target st
      /\ f_enemies (attack tower target rand st) = f_enemies st
      /\ f_money (attack tower target rand st) = f_money st
      /\ exists px py,
           f_projectiles (attack tower target rand st)
           = f_projectiles st ++
               [mkProjectile px py (e_x target) (e_y target) (e_id target)
                             80 5 "critical" None None])
  /\ (forall rand : nat -> Q,
        let s := gameLoop (host := rationalMath) clock rand (duel sniper 40) in
        map t_lastShot (towers s) = [clock]
        /\ map e_health (enemies s) = [40]
        /\ money s = money (duel sniper 40)
        /\ map p_type (projectiles s) = ["critical"%string]
        /\ map p_damage (projectiles s) = [80]).
Proof.
  split.
  - intros host x y now rand target st tower. subst tower.
    rewrite placed_tower_attack.
    destruct (createStandardProjectile_field
                (aimAt now (newTower x y sniper) target) target st)
      as (He & Hm & px & py & E).
    repeat split; try assumption. exists px, py. exact E.
  - intros rand. vm_compute. repeat split.
Qed.

(** ** Target acquisition (C9) *)

Section Targeting.

Context {host : Math}.

(** The scan either keeps its running candidate, every scanned enemy being
    at least the running distance away, or ends on an enemy strictly closer
    than the running distance and than everything scanned before it, and at
    least as close as everything scanned after it. *)
Lemma scanEnemies_spec :
  forall tower es closestEnemy closestDistance,
    (scanEnemies tower es closestEnemy closestDistance
       = (closestEnemy, closestDistance)
     /\ Forall (fun e => (closestDistance <= towerDistance tower e)%Q) es)
    \/ exists before target after,
         es = before ++ target :: after
         /\ scanEnemies tower es closestEnemy closestDistance
            = (Some target, towerDistance tower target)
         /\ (towerDistance tower target < closestDistance)%Q
         /\ Forall (fun e => (towerDistance tower target
                              < towerDistance tower e)%Q) before
         /\ Forall (fun e => (towerDistance tower target
                              <= towerDistance tower e)%Q) after.
Proof.
  intros tower es. induction es as [|e rest IH]; intros ce cd.
  - left. split; [reflexivity|constructor].
  - simpl. destruct (Qltb (towerDistance tower e) cd) eqn:Hlt.
    + apply Qltb_lt in Hlt.
      destruct (IH (Some e) (towerDistance tower e))
        as [[Heq Hall] | (b & t & a & Hes & Heq & Hcl & Hb & Ha)].
      * right. exists [], e, rest. repeat split; auto.
      * right. exists (e :: b), t, a. subst rest. repeat split; auto.
        eapply Qlt_trans; eassumption.
    + apply Qltb_ge in Hlt.
      destruct (IH ce cd)
        as [[Heq Hall] | (b & t & a & Hes & Heq & Hcl & Hb & Ha)].
      * left. split; [exact Heq|]. constructor; assumption.
      * right. exists (e :: b), t, a. subst rest. repeat split; auto.
        constructor; [|exact Hb]. eapply Qlt_le_trans; eassumption.
Qed.

Lemma updateTowers_towers now rand s :
  towers (updateTowers now rand s)
  = fst (updateTowers_loop now rand 0 (towers s) (fieldOf s)).
Proof.
  unfold updateTowers.
  destruct (updateTowers_loop now rand 0 (towers s) (fieldOf s)) as [ts st].
  reflexivity.
Qed.

End Targeting.

(** ** Tower placement (C8) *)

Lemma existsb_false_Forall {A} (f : A -> bool) (l : list A) :
  existsb f l = false <-> Forall (fun a => f a = false) l.
Proof.
  induction l as [|a l IH]; simpl.
  - split; [constructor|reflexivity].
  - rewrite orb_false_iff, IH. split.
    + intros [Ha Hl]. constructor; assumption.
    + intro H. inversion H; subst. split; assumption.
Qed.

Lemma forallb_true_Forall {A} (f : A -> bool) (l : list A) :
  forallb f l = true <-> Forall (fun a => f a = true) l.
Proof.
  induction l as [|a l IH]; simpl.
  - split; [constructor|reflexivity].
  - rewrite andb_true_iff, IH. split.
    + intros [Ha Hl]. constructor; assumption.
    + intro H. inversion H; subst. split; assumption.
Qed.

Section Placement.

Context {host : Math}.

(** The three tests of [isPositionValid], as inequalities. *)
Lemma outOfBounds_false x y :
  outOfBounds x y = false
  <-> (20 <= x)%Q /\ (20 <= y)%Q
      /\ (x <= canvas_width - 20)%Q /\ (y <= canvas_height - 20)%Q.
Proof.
  unfold outOfBounds. rewrite !orb_false_iff, !Qltb_ge. tauto.
Qed.

Lemma overlapsTower_false x y tower :
  overlapsTower x y tower = false
  <-> (gridSize <= Qabs (t_x tower - x))%Q
      \/ (gridSize <= Qabs (t_y tower - y))%Q.
Proof.
  unfold overlapsTower. rewrite andb_false_iff, !Qltb_ge. tauto.
Qed.

Lemma segmentClear_samples x y seg :
  segmentClear x y seg = true
  <-> forall j : nat,
        (j <= Z.to_nat (segmentSteps seg))%nat ->
        (30 <= distanceFrom (segmentSample seg j) x y)%Q.
Proof.
  destruct seg as [a b].
  unfold segmentClear, segmentSample, distanceFrom, segmentSteps.
  cbv zeta. cbn [fst snd pt_x pt_y]. rewrite forallb_forall. split.
  - intros H j Hj. specialize (H j).
    rewrite in_seq in H. specialize (H ltac:(lia)).
    apply negb_true_iff, Qltb_ge in H. exact H.
  - intros H j Hj. apply in_seq in Hj.
    apply negb_true_iff, Qltb_ge. apply (H j). lia.
Qed.

Lemma isPositionValid_geometry x y s :
  isPositionValid x y s = true
  <-> ((20 <= x)%Q /\ (20 <= y)%Q
       /\ (x <= canvas_width - 20)%Q /\ (y <= canvas_height - 20)%Q)
      /\ (forall tower, In tower (towers s) ->
            (gridSize <= Qabs (t_x tower - x))%Q
            \/ (gridSize <= Qabs (t_y tower - y))%Q)
      /\ (forall seg (j : nat),
            In seg (segments path) ->
            (j <= Z.to_nat (segmentSteps seg))%nat ->
            (30 <= distanceFrom (segmentSample seg j) x y)%Q).
Proof.
  rewrite <- outOfBounds_false. unfold isPositionValid.
  destruct (outOfBounds x y).
  - split; [discriminate|]. intros [H _]. discriminate.
  - destruct (existsb (overlapsTower x y) (towers s)) eqn:Ht.
    + split; [discriminate|]. intros (_ & H & _). exfalso.
      apply existsb_exists in Ht. destruct Ht as (tower & Hin & Ho).
      specialize (H tower Hin). apply overlapsTower_false in H. congruence.
    + rewrite forallb_forall. split.
      * intro H. split; [reflexivity|]. split.
        -- intros tower Hin. apply overlapsTower_false.
           apply existsb_false_Forall in Ht. rewrite Forall_forall in Ht.
           auto.
        -- intros seg j Hin. apply segmentClear_samples. auto.
      * intros (_ & _ & H) seg Hin. apply segmentClear_samples.
        intros j Hj. apply (H seg j Hin Hj).
Qed.

(** A click by itself: nothing happens unless the game is playing and a
    kind is pending; then the grid cell under the click decides. *)
Lemma handleCanvasClick_cases x y s :
  match isPlaying s, selectedTower s with
  | true, Some pending =>
      if isPositionValid (inject_Z (Qfloor (x / gridSize)) * gridSize)
                         (inject_Z (Qfloor (y / gridSize)) * gridSize) s
      then money (handleCanvasClick x y s)
           = money s - td_cost (towerTypes pending)
           /\ towers (handleCanvasClick x y s)
              = towers s
                ++ [newTower (inject_Z (Qfloor (x / gridSize)) * gridSize)
                             (inject_Z (Qfloor (y / gridSize)) * gridSize)
                             pending]
           /\ selectedTower (handleCanvasClick x y s) = None
      else handleCanvasClick x y s = s
  | _, _ => handleCanvasClick x y s = s
  end.
Proof.
  unfold handleCanvasClick.
  destruct (isPlaying s); [|reflexivity].
  destruct (selectedTower s) as [pending|]; [|reflexivity].
  destruct (isPositionValid _ _ s); [|reflexivity].
  destruct s as [m l w ip sel ts es ps wt esi gsc pp pt df wc ws tms nh ne].
  repeat split. destruct pending; reflexivity.
Qed.

Lemma selectTower_cases kind s :
  (td_unlockWave (towerTypes kind) <= wave s
   /\ td_cost (towerTypes kind) <= money s
   /\ selectTower kind s = set_selectedTower (Some kind) s)
  \/ ((wave s < td_unlockWave (towerTypes kind)
       \/ money s < td_cost (towerTypes kind))
      /\ selectTower kind s = s).
Proof.
  unfold selectTower.
  destruct (td_unlockWave (towerTypes kind) <=? wave s) eqn:Hw;
    destruct (td_cost (towerTypes kind) <=? money s) eqn:Hm;
    cbn [andb];
    try apply Z.leb_le in Hw; try apply Z.leb_gt in Hw;
    try apply Z.leb_le in Hm; try apply Z.leb_gt in Hm;
    [left|right|right|right]; auto.
Qed.

Lemma pending_keeps_the_board kind x y s :
  isPlaying (set_selectedTower (Some kind) s) = isPlaying s
  /\ selectedTower (set_selectedTower (Some kind) s) = Some kind
  /\ money (set_selectedTower (Some kind) s) = money s
  /\ towers (set_selectedTower (Some kind) s) = towers s
  /\ isPositionValid x y (set_selectedTower (Some kind) s)
     = isPositionValid x y s.
Proof.
  destruct s as [m l w ip sel ts es ps wt esi gsc pp pt df wc ws tms nh ne].
  repeat split.
Qed.

End Placement.

(** C8: a placement request, the button of a kind then a click, made while
    nothing is pending.  If the kind is locked or the money does not cover
    its cost the whole state is left as it was.  If the grid cell under the
    click is not valid, or the game is not playing, the money and the tower
    list are unchanged.  The cell is valid exactly when it lies inside the
    margins of 20, no tower is within a grid cell of it in both axes, and
    every sample [j = 0 .. steps] of every path segment is at least 30 away.
    When the kind is unlocked and affordable, the game playing and the cell
    valid, exactly the cost is deducted, the tower is appended at the cell
    and the selection is cleared. *)
Theorem placement_gates :
  forall (host : Math) (s : State) (kind : TowerKind) (x y : Q),
    selectedTower s = None ->
    let gridX := (inject_Z (Qfloor (x / gridSize)) * gridSize)%Q in
    let gridY := (inject_Z (Qfloor (y / gridSize)) * gridSize)%Q in
    let s' := placementRequest kind x y s in
    (wave s < td_unlockWave (towerTypes kind) -> s' = s)
    /\ (money s < td_cost (towerTypes kind) -> s' = s)
    /\ (isPositionValid gridX gridY s = false ->
        money s' = money s /\ towers s' = towers s)
    /\ (isPlaying s = false -> money s' = money s /\ towers s' = towers s)
    /\ (isPositionValid gridX gridY s = true
        <-> ((20 <= gridX)%Q /\ (20 <= gridY)%Q
             /\ (gridX <= canvas_width - 20)%Q
             /\ (gridY <= canvas_height - 20)%Q)
            /\ (forall tower, In tower (towers s) ->
                  (gridSize <= Qabs (t_x tower - gridX))%Q
                  \/ (gridSize <= Qabs (t_y tower - gridY))%Q)
            /\ (forall seg (j : nat),
                  In seg (segments path) ->
                  (j <= Z.to_nat (segmentSteps seg))%nat ->
                  (30 <= distanceFrom (segmentSample seg j) gridX gridY)%Q))
    /\ (td_unlockWave (towerTypes kind) <= wave s ->
        td_cost (towerTypes kind) <= money s ->
        isPlaying s = true ->
        isPositionValid gridX gridY s = true ->
        money s' = money s - td_cost (towerTypes kind)
        /\ towers s' = towers s ++ [newTower gridX gridY kind]
        /\ selectedTower s' = None)
    /\ ((money s' = money s /\ towers s' = towers s)
        \/ (money s' = money s - td_cost (towerTypes kind)
            /\ towers s' = towers s ++ [newTower gridX gridY kind])).
Proof.
  intros host s kind x y Hnone gridX gridY s'.
  assert (Hidle : handleCanvasClick x y s = s).
  { pose proof (handleCanvasClick_cases x y s) as H. rewrite Hnone in H.
    destruct (isPlaying s); exact H. }
  pose proof (handleCanvasClick_cases x y (set_selectedTower (Some kind) s))
    as Hclick.
  destruct (pending_keeps_the_board kind gridX gridY s)
    as (Ep & Es & Em & Et & Ev).
  fold gridX gridY in Hclick. rewrite Ep, Es, Ev, Em, Et in Hclick.
  pose proof (isPositionValid_geometry gridX gridY s) as G.
  subst s'. unfold placementRequest.
  destruct (selectTower_cases kind s) as [(Hw & Hm & ->)|[Hno ->]].
  - split; [intro; lia|]. split; [intro; lia|].
    destruct (isPlaying s) eqn:P.
    + destruct (isPositionValid gridX gridY s) eqn:V.
      * destruct Hclick as (H1 & H2 & H3).
        split; [discriminate|]. split; [discriminate|].
        split; [exact G|].
        split; [intros; auto|]. right. auto.
      * rewrite Hclick, Em, Et.
        split; [auto|]. split; [discriminate|].
        split; [exact G|].
        split; [discriminate|]. left. auto.
    + rewrite Hclick, Em, Et.
      split; [auto|]. split; [auto|].
      split; [exact G|].
      split; [discriminate|]. left. auto.
  - rewrite Hidle.
    split; [reflexivity|]. split; [reflexivity|].
    split; [auto|]. split; [auto|].
    split; [exact G|].
    split; [intros; lia|]. left. auto.
Qed.

(** The first session state, wave 1 with 75 money and nothing pending: the
    request of a sniper (unlocked at wave 5, cost 150) changes nothing; the
    request of a basic tower at [(530, 210)] costs 25 and puts it on the
    cell [(520, 200)]. *)
Lemma placement_gates_witness :
  selectedTower (startGame initialState) = None
  /\ placementRequest (host := rationalMath) sniper 530 210
                      (startGame initialState)
     = startGame initialState
  /\ money (placementRequest (host := rationalMath) basic 530 210
                             (startGame initialState)) = 50
  /\ towers (placementRequest (host := rationalMath) basic 530 210
                              (startGame initialState))
     = [] ++ [newTower (inject_Z (Qfloor (530 / gridSize)) * gridSize)
                       (inject_Z (Qfloor (210 / gridSize)) * gridSize)
                       basic].
Proof.
  assert (N : selectedTower (startGame initialState) = None) by reflexivity.
  split; [exact N|].
  destruct (placement_gates rationalMath (startGame initialState) sniper
              530 210 N) as (Hlock & _).
  split; [apply Hlock; vm_compute; reflexivity|].
  destruct (placement_gates rationalMath (startGame initialState) basic
              530 210 N) as (_ & _ & _ & _ & _ & Hok & _).
  destruct Hok as (Hm & Ht & _).
  - vm_compute. discriminate.
  - vm_compute. discriminate.
  - reflexivity.
  - vm_compute. reflexivity.
  - split; [exact Hm|exact Ht].
Defined.

(** ** Wave completion (C6) *)

Section Flags.
Context {host : Math}.

Lemma updateEnemies_flags s : phaseFlags (updateEnemies s) = phaseFlags s.
Proof.
  unfold updateEnemies. destruct (updateEnemies_loop (enemies s)) as [es b].
  destruct b; reflexivity.
Qed.

Lemma updateTowers_flags now rand s : phaseFlags (updateTowers now rand s) = phaseFlags s.
Proof.
  unfold updateTowers.
  destruct (updateTowers_loop now rand 0 (towers s) (fieldOf s)) as [ts st].
  reflexivity.
Qed.

Lemma updateProjectiles_flags s : phaseFlags (updateProjectiles s) = phaseFlags s.
Proof.
  unfold updateProjectiles.
  destruct (updateProjectiles_loop (projectiles s) (fieldOf s)) as [ps st].
  reflexivity.
Qed.

Lemma checkWaveCompletion_flags s : phaseFlags (checkWaveCompletion s) = phaseFlags s.
Proof.
  unfold checkWaveCompletion. destruct (completionCondition s); reflexivity.
Qed.

Lemma update_phaseFlags now rand s :
  phaseFlags (update now rand s) = phaseFlags s.
Proof.
  unfold update.
  rewrite updateProjectiles_flags, updateTowers_flags, updateEnemies_flags.
  apply checkWaveCompletion_flags.
Qed.

Lemma startWave_phaseFlags s : phaseFlags (startWave s) = phaseFlags s.
Proof.
  unfold startWave, calculateWaveDifficulty.
  destruct (enemySpawnInterval s); destruct (10 <? wave _); reflexivity.
Qed.

Lemma startWave_waveStarted s : waveStarted (startWave s) = waveStarted s.
Proof. exact (f_equal fst (startWave_phaseFlags s)). Qed.

Lemma startWave_preparationPhase s :
  preparationPhase (startWave s) = preparationPhase s.
Proof. exact (f_equal snd (startWave_phaseFlags s)). Qed.

Lemma selectTower_flags kind s : phaseFlags (selectTower kind s) = phaseFlags s.
Proof.
  unfold selectTower. destruct (_ && _); reflexivity.
Qed.

Lemma handleCanvasClick_flags x y s :
  phaseFlags (handleCanvasClick x y s) = phaseFlags s.
Proof.
  unfold handleCanvasClick. destruct (isPlaying s); [|reflexivity].
  destruct (selectedTower s); [|reflexivity].
  destruct (isPositionValid _ _ s); reflexivity.
Qed.

Lemma fireSpawn_flags h spawned count rand s :
  phaseFlags (fireSpawn h spawned count rand s) = phaseFlags s.
Proof.
  unfold fireSpawn. destruct (count <=? spawned).
  - destruct (enemySpawnInterval s); reflexivity.
  - reflexivity.
Qed.

Lemma set_gameScreen_phaseFlags v s :
  waveStarted (set_gameScreen v s) = waveStarted s.
Proof. reflexivity. Qed.

Lemma resetGame_waveStarted s : waveStarted (resetGame s) = false.
Proof.
  unfold resetGame. cbv zeta.
  destruct (enemySpawnInterval _); destruct (waveTimeout _); reflexivity.
Qed.

Lemma flags_startedAfterPreparation s s' :
  phaseFlags s' = phaseFlags s ->
  startedAfterPreparation s -> startedAfterPreparation s'.
Proof.
  unfold phaseFlags, startedAfterPreparation. intros E Inv.
  injection E as E1 E2. rewrite E1, E2. exact Inv.
Qed.

Lemma firePrep_inv h s :
  startedAfterPreparation s -> startedAfterPreparation (firePrep h s).
Proof.
  intro Inv. unfold firePrep. cbv zeta.
  destruct (preparationTimer (set_preparationTimer (preparationTimer s - 1) s)
            <=? 0).
  - unfold startedAfterPreparation.
    rewrite startWave_waveStarted, startWave_preparationPhase.
    intros _. reflexivity.
  - exact Inv.
Qed.

Lemma fireBonus_flags h bonus s :
  phaseFlags (fireBonus h bonus s) = phaseFlags s.
Proof. reflexivity. Qed.

Lemma fireCountdown_flags h n s :
  phaseFlags (fireCountdown h n s) = phaseFlags s.
Proof.
  unfold fireCountdown. cbv zeta. destruct (n - 1 <=? 0); [|reflexivity].
  rewrite startWave_phaseFlags. reflexivity.
Qed.

Lemma fireTimer_inv h rand s :
  startedAfterPreparation s -> startedAfterPreparation (fireTimer h rand s).
Proof.
  intro Inv. unfold fireTimer.
  destruct (findTimer h s) as [t|]; [|exact Inv].
  destruct (tm_callback t) as [|spawned count|bonus|n].
  - apply firePrep_inv. exact Inv.
  - exact (flags_startedAfterPreparation _ _
             (fireSpawn_flags h spawned count rand s) Inv).
  - exact (flags_startedAfterPreparation _ _ (fireBonus_flags h bonus s) Inv).
  - exact (flags_startedAfterPreparation _ _ (fireCountdown_flags h n s) Inv).
Qed.

Lemma step_startedAfterPreparation ev s :
  startedAfterPreparation s -> startedAfterPreparation (step ev s).
Proof.
  intro Inv.
  destruct ev as [|kind|x y|now rand|h rand| | |]; cbn [step].
  - unfold startedAfterPreparation. discriminate.
  - exact (flags_startedAfterPreparation _ _ (selectTower_flags kind s) Inv).
  - exact (flags_startedAfterPreparation _ _
             (handleCanvasClick_flags x y s) Inv).
  - unfold gameLoop. destruct (gameScreen s); try exact Inv.
    destruct (isPlaying s); try exact Inv.
    exact (flags_startedAfterPreparation _ _ (update_phaseFlags now rand s) Inv).
  - apply fireTimer_inv. exact Inv.
  - unfold startedAfterPreparation, restartClick.
    rewrite (set_gameScreen_phaseFlags mainMenu (resetGame s)).
    rewrite resetGame_waveStarted. discriminate.
  - exact Inv.
  - exact Inv.
Qed.

Lemma reachable_startedAfterPreparation s :
  reachable s -> startedAfterPreparation s.
Proof.
  induction 1 as [|ev s Hs IH].
  - unfold startedAfterPreparation. simpl. discriminate.
  - apply step_startedAfterPreparation. exact IH.
Qed.

Lemma completionCondition_spec s :
  completionCondition s = true
  <-> waveCompleted s = false /\ enemies s = []
      /\ enemySpawnInterval s = None /\ waveStarted s = true.
Proof.
  unfold completionCondition.
  rewrite !andb_true_iff, negb_true_iff, Nat.eqb_eq, length_zero_iff_nil.
  destruct (enemySpawnInterval s); intuition congruence.
Qed.

End Flags.

(** C6: in every state the page can reach, [checkWaveCompletion] changes
    the state exactly when the wave is not yet marked completed, no enemy is
    live, no spawn interval is pending and [waveStarted] is set; it then
    marks the wave completed and registers the bonus timeout and the
    8-second countdown.  During the preparation phase [waveStarted] is
    false and nothing fires, empty field and idle spawner notwithstanding. *)
Theorem completion_waits_for_wave_start :
  forall (host : Math) (s : State),
    reachable s ->
    (checkWaveCompletion s <> s
     <-> waveCompleted s = false /\ enemies s = []
         /\ enemySpawnInterval s = None /\ waveStarted s = true)
    /\ (checkWaveCompletion s <> s ->
        waveCompleted (checkWaveCompletion s) = true
        /\ timers (checkWaveCompletion s)
           = timers s ++
             [mkTimer (nextHandle s) 1000 (bonusTimeout (20 + wave s * 5));
              mkTimer (S (nextHandle s)) 1000 (countdownInterval 8)])
    /\ (waveStarted s = false -> checkWaveCompletion s = s)
    /\ (preparationPhase s = true ->
        waveStarted s = false /\ checkWaveCompletion s = s).
Proof.
  intros host s Hreach.
  assert (Hfire : checkWaveCompletion s <> s
                  <-> completionCondition s = true).
  { unfold checkWaveCompletion.
    destruct (completionCondition s) eqn:Hc.
    - split; [intros _; reflexivity|]. intros _ E.
      apply completionCondition_spec in Hc. destruct Hc as (Hw & _).
      apply (f_equal waveCompleted) in E.
      change (true = waveCompleted s) in E. congruence.
    - split; [|discriminate]. intro H. exfalso. apply H. reflexivity. }
  assert (Hidle : waveStarted s = false -> checkWaveCompletion s = s).
  { intro Hw. unfold checkWaveCompletion.
    destruct (completionCondition s) eqn:Hc; [|reflexivity].
    apply completionCondition_spec in Hc. destruct Hc as (_ & _ & _ & Hs).
    congruence. }
  split; [|split; [|split]].
  - rewrite Hfire. apply completionCondition_spec.
  - intro H. apply Hfire in H. unfold checkWaveCompletion. rewrite H.
    split; [reflexivity|]. destruct s; cbn. rewrite <- app_assoc. reflexivity.
  - exact Hidle.
  - intro Hp.
    assert (Hw : waveStarted s = false).
    { pose proof (reachable_startedAfterPreparation s Hreach) as Inv.
      unfold startedAfterPreparation in Inv.
      destruct (waveStarted s); [|reflexivity].
      rewrite Inv in Hp by reflexivity. discriminate. }
    split; [exact Hw|]. apply Hidle. exact Hw.
Qed.

(** The preparation phase of a fresh session: no enemy, no spawn interval,
    and still no completion. *)
Lemma completion_waits_for_wave_start_witness :
  reachable (host := rationalMath) (startGame initialState)
  /\ preparationPhase (startGame initialState) = true
  /\ enemies (startGame initialState) = []
  /\ enemySpawnInterval (startGame initialState) = None
  /\ checkWaveCompletion (startGame initialState) = startGame initialState.
Proof.
  assert (R : reachable (host := rationalMath) (startGame initialState)).
  { exact (reach_step (host := rationalMath) EvStartGame initialState
                      (reach_init (host := rationalMath))). }
  split; [exact R|]. split; [reflexivity|]. split; [reflexivity|].
  split; [reflexivity|].
  destruct (completion_waits_for_wave_start rationalMath
              (startGame initialState) R) as (_ & _ & Hidle & _).
  apply Hidle. reflexivity.
Defined.

(** ** Impact resolution (C4, C5) *)

Section EnemyArrays.

Lemma findEnemy_setHealth_other id id' h es :
  id <> id' -> findEnemy id (setHealth id' h es) = findEnemy id es.
Proof.
  intro Hne. unfold findEnemy, setHealth.
  induction es as [|a es IH]; simpl; [reflexivity|].
  destruct (Nat.eqb (e_id a) id') eqn:E1; simpl.
  - apply Nat.eqb_eq in E1.
    destruct (Nat.eqb (e_id a) id) eqn:E2.
    + apply Nat.eqb_eq in E2. congruence.
    + exact IH.
  - destruct (Nat.eqb (e_id a) id); [reflexivity|exact IH].
Qed.

Lemma findEnemy_setHealth_same id h es e :
  findEnemy id es = Some e ->
  findEnemy id (setHealth id h es) = Some (withHealth h e).
Proof.
  unfold findEnemy, setHealth.
  induction es as [|a es IH]; simpl; [discriminate|].
  destruct (Nat.eqb (e_id a) id) eqn:E1; simpl.
  - rewrite E1. intro H. injection H as <-. reflexivity.
  - rewrite E1. exact IH.
Qed.

Lemma findEnemy_filter_other id id' es :
  id <> id' -> findEnemy id (filter (unharmed id') es) = findEnemy id es.
Proof.
  intro Hne. unfold findEnemy, unharmed.
  induction es as [|a es IH]; simpl; [reflexivity|].
  destruct (Nat.eqb (e_id a) id') eqn:E1; simpl.
  - apply Nat.eqb_eq in E1.
    destruct (Nat.eqb (e_id a) id) eqn:E2.
    + apply Nat.eqb_eq in E2. congruence.
    + exact IH.
  - destruct (Nat.eqb (e_id a) id); [reflexivity|exact IH].
Qed.

Lemma findEnemy_filter_same id es :
  findEnemy id (filter (unharmed id) es) = None.
Proof.
  unfold findEnemy, unharmed.
  induction es as [|a es IH]; simpl; [reflexivity|].
  destruct (Nat.eqb (e_id a) id) eqn:E1; simpl.
  - exact IH.
  - rewrite E1. exact IH.
Qed.

Lemma findEnemy_Some id es e :
  findEnemy id es = Some e -> In e es /\ e_id e = id.
Proof.
  unfold findEnemy. intro H. apply find_some in H.
  destruct H as [Hin Heq]. apply Nat.eqb_eq in Heq. auto.
Qed.

Lemma findEnemy_None id es :
  findEnemy id es = None -> ~ In id (ids es).
Proof.
  unfold findEnemy, ids. intros H Hin. apply in_map_iff in Hin.
  destruct Hin as (e & He & Hin).
  pose proof (find_none _ _ H e Hin) as Hn. simpl in Hn.
  apply Nat.eqb_neq in Hn. congruence.
Qed.

Lemma findEnemy_NoDup es e :
  NoDup (ids es) -> In e es -> findEnemy (e_id e) es = Some e.
Proof.
  unfold findEnemy, ids.
  induction es as [|a es IH]; simpl; intros Hnd Hin; [contradiction|].
  inversion Hnd as [|? ? Hnotin Hnd']; subst.
  destruct Hin as [->|Hin].
  - rewrite Nat.eqb_refl. reflexivity.
  - destruct (Nat.eqb (e_id a) (e_id e)) eqn:E.
    + apply Nat.eqb_eq in E. exfalso. apply Hnotin. rewrite E.
      apply in_map. exact Hin.
    + apply IH; assumption.
Qed.

Lemma includes_findEnemy id es :
  includes id es = false <-> findEnemy id es = None.
Proof.
  unfold includes, findEnemy.
  induction es as [|a es IH]; simpl; [tauto|].
  destruct (Nat.eqb (e_id a) id); simpl; [|exact IH].
  split; discriminate.
Qed.

Lemma ids_setHealth id h es : ids (setHealth id h es) = ids es.
Proof.
  unfold ids, setHealth. rewrite map_map. apply map_ext.
  intro a. destruct (Nat.eqb (e_id a) id); reflexivity.
Qed.

Lemma rewardPool_setHealth id h es :
  rewardPool (setHealth id h es) = rewardPool es.
Proof.
  unfold rewardPool, setHealth. rewrite map_map. f_equal. apply map_ext.
  intro a. destruct (Nat.eqb (e_id a) id); reflexivity.
Qed.

Lemma NoDup_ids_filter f es : NoDup (ids es) -> NoDup (ids (filter f es)).
Proof.
  unfold ids. induction es as [|a es IH]; simpl; intro H; [constructor|].
  inversion H as [|? ? Hnotin Hnd]; subst.
  destruct (f a); simpl; [|apply IH; exact Hnd].
  constructor; [|apply IH; exact Hnd].
  intro Hin. apply Hnotin. apply in_map_iff in Hin.
  destruct Hin as (x & Hx & Hin). apply filter_In in Hin.
  rewrite <- Hx. apply in_map. tauto.
Qed.

(** Defeating an enemy that is in the array under its reward moves exactly
    that reward out of the pool. *)
Lemma rewardPool_filter id es x :
  NoDup (ids es) -> findEnemy id es = Some x ->
  rewardPool (filter (unharmed id) es) + e_reward x = rewardPool es.
Proof.
  unfold rewardPool, ids, findEnemy, unharmed.
  induction es as [|a es IH]; simpl; intros Hnd Hf; [discriminate|].
  inversion Hnd as [|? ? Hnotin Hnd']; subst.
  destruct (Nat.eqb (e_id a) id) eqn:E; simpl.
  - injection Hf as <-. apply Nat.eqb_eq in E.
    assert (Hrest : filter (fun e => negb (Nat.eqb (e_id e) id)) es = es).
    { apply forallb_filter_id. apply forallb_forall. intros y Hy.
      apply negb_true_iff, Nat.eqb_neq. intro Hy'. apply Hnotin.
      rewrite E, <- Hy'. apply in_map. exact Hy. }
    rewrite Hrest. lia.
  - specialize (IH Hnd' Hf). lia.
Qed.

Lemma thinned_refl es : thinned es es.
Proof. induction es; constructor; auto. Qed.

Lemma thinned_trans es1 es2 es3 :
  thinned es1 es2 -> thinned es2 es3 -> thinned es1 es3.
Proof.
  intro H12. revert es3. induction H12; intros es3 H23.
  - exact H23.
  - inversion H23; subst.
    + constructor; [congruence|congruence|auto].
    + apply thinned_drop. auto.
  - apply thinned_drop. auto.
Qed.

Lemma thinned_setHealth id h es : thinned es (setHealth id h es).
Proof.
  unfold setHealth. induction es as [|a es IH]; simpl; constructor; auto;
    destruct (Nat.eqb (e_id a) id); reflexivity.
Qed.

Lemma thinned_filter f es : thinned es (filter f es).
Proof.
  induction es as [|a es IH]; simpl; [constructor|].
  destruct (f a); constructor; auto.
Qed.

Lemma thinned_In es es' e' :
  thinned es es' -> In e' es' ->
  exists e, In e es /\ e_id e = e_id e' /\ e_reward e = e_reward e'.
Proof.
  induction 1 as [|e x es es' Hid Hr Ht IH|e es es' Ht IH]; simpl; intro Hin.
  - contradiction.
  - destruct Hin as [->|Hin].
    + exists e. auto.
    + destruct (IH Hin) as (y & Hy & Hy'). exists y. auto.
  - destruct (IH Hin) as (y & Hy & Hy'). exists y. auto.
Qed.

Lemma thinned_NoDup es es' :
  thinned es es' -> NoDup (ids es) -> NoDup (ids es').
Proof.
  unfold ids.
  induction 1 as [|e x es es' Hid Hr Ht IH|e es es' Ht IH]; simpl; intro Hnd.
  - constructor.
  - inversion Hnd as [|? ? Hnotin Hnd']; subst. constructor; [|auto].
    intro Hin. apply Hnotin. apply in_map_iff in Hin.
    destruct Hin as (y & Hy & Hin).
    destruct (thinned_In _ _ _ Ht Hin) as (z & Hz & Hzid & _).
    rewrite <- Hid, <- Hy, <- Hzid. apply in_map. exact Hz.
  - inversion Hnd; subst. auto.
Qed.

(** Under unique identities the pool splits into the survivors' rewards and
    the rewards of the enemies that are gone. *)
Lemma thinned_rewardPool es es' :
  thinned es es' -> NoDup (ids es) ->
  rewardPool es
  = rewardPool es'
    + rewardPool (filter (fun e => negb (includes (e_id e) es')) es).
Proof.
  unfold ids.
  induction 1 as [|e x es es' Hid Hr Ht IH|e es es' Ht IH]; intro Hnd.
  - reflexivity.
  - inversion Hnd as [|? ? Hnotin Hnd']; subst.
    specialize (IH Hnd').
    assert (Hinc : includes (e_id e) (x :: es') = true).
    { unfold includes. cbn [existsb]. rewrite Hid, Nat.eqb_refl. reflexivity. }
    cbn [filter]. rewrite Hinc. cbn [negb].
    assert (Hsame :
      filter (fun e0 => negb (includes (e_id e0) (x :: es'))) es
      = filter (fun e0 => negb (includes (e_id e0) es')) es).
    { apply filter_ext_in. intros y Hy. unfold includes. cbn [existsb].
      destruct (Nat.eqb (e_id x) (e_id y)) eqn:E; [|reflexivity].
      apply Nat.eqb_eq in E. exfalso. apply Hnotin.
      rewrite <- Hid, E. apply in_map. exact Hy. }
    rewrite Hsame. unfold rewardPool in *. cbn [map fold_right]. lia.
  - inversion Hnd as [|? ? Hnotin Hnd']; subst.
    specialize (IH Hnd').
    cbn [filter].
    assert (Hgone : includes (e_id e) es' = false).
    { apply includes_findEnemy.
      destruct (findEnemy (e_id e) es') as [y|] eqn:F; [|reflexivity].
      apply findEnemy_Some in F. destruct F as [Hin Hy].
      destruct (thinned_In _ _ _ Ht Hin) as (z & Hz & Hzid & _).
      exfalso. apply Hnotin. rewrite <- Hy, <- Hzid. apply in_map. exact Hz. }
    rewrite Hgone. cbn [negb]. unfold rewardPool in *.
    cbn [map fold_right]. lia.
Qed.

End EnemyArrays.

Section Impact.

Context {host : Math}.

Lemma settles_refl st : NoDup (ids (f_enemies st)) -> settles st st.
Proof.
  intro H. repeat split; [exact H|apply thinned_refl].
Qed.

Lemma settles_trans st1 st2 st3 :
  settles st1 st2 -> settles st2 st3 -> settles st1 st3.
Proof.
  intros (_ & T12 & M12) (N3 & T23 & M23).
  repeat split; [exact N3|eapply thinned_trans; eassumption|lia].
Qed.

Lemma settles_setHealth id h st :
  NoDup (ids (f_enemies st)) ->
  settles st (mkField (setHealth id h (f_enemies st)) (f_money st)
                      (f_projectiles st)).
Proof.
  intro H. repeat split; cbn [f_enemies f_money f_projectiles].
  - rewrite ids_setHealth. exact H.
  - apply thinned_setHealth.
  - rewrite rewardPool_setHealth. reflexivity.
Qed.

Lemma settles_defeatEnemy enemy x st :
  NoDup (ids (f_enemies st)) ->
  findEnemy (e_id enemy) (f_enemies st) = Some x ->
  e_reward x = e_reward enemy ->
  settles st (defeatEnemy enemy st).
Proof.
  intros H F R. unfold defeatEnemy.
  repeat split; cbn [f_enemies f_money f_projectiles].
  - apply NoDup_ids_filter. exact H.
  - apply thinned_filter.
  - pose proof (rewardPool_filter _ _ _ H F) as E. unfold unharmed in E. lia.
Qed.

(** The one enemy an iteration of the area loop may touch is the one it
    visits. *)
Lemma splashOne_lookup_other p enemy st id :
  id <> e_id enemy ->
  findEnemy id (f_enemies (splashOne p enemy st))
  = findEnemy id (f_enemies st).
Proof.
  intro Hne. unfold splashOne.
  destruct (Nat.eqb (e_id enemy) (p_target p)); [reflexivity|].
  destruct (p_explosionRadius p) as [radius|]; [|reflexivity].
  destruct (p_falloff p) as [falloff|]; [|reflexivity].
  destruct (Qleb (explosionDistance p enemy) radius); [|reflexivity].
  destruct (0 <? _); [|reflexivity].
  destruct (_ <=? 0); cbn [defeatEnemy f_enemies].
  - change (fun e => negb (Nat.eqb (e_id e) (e_id enemy)))
      with (unharmed (e_id enemy)).
    rewrite findEnemy_filter_other by exact Hne.
    apply findEnemy_setHealth_other. exact Hne.
  - apply findEnemy_setHealth_other. exact Hne.
Qed.

Lemma splashOne_lookup_self p enemy st :
  findEnemy (e_id enemy) (f_enemies st) = Some enemy ->
  findEnemy (e_id enemy) (f_enemies (splashOne p enemy st))
  = afterSplash p enemy.
Proof.
  intro F. unfold splashOne, afterSplash.
  destruct (Nat.eqb (e_id enemy) (p_target p)); [exact F|].
  destruct (p_explosionRadius p) as [radius|]; [|exact F].
  destruct (p_falloff p) as [falloff|]; [|exact F].
  destruct (Qleb (explosionDistance p enemy) radius); [|exact F].
  destruct (0 <? _); [|exact F].
  cbn [andb].
  destruct (_ <=? 0); cbn [defeatEnemy f_enemies].
  - change (fun e => negb (Nat.eqb (e_id e) (e_id enemy)))
      with (unharmed (e_id enemy)).
    apply findEnemy_filter_same.
  - apply findEnemy_setHealth_same. exact F.
Qed.

Lemma splashOne_settles p enemy st :
  NoDup (ids (f_enemies st)) ->
  findEnemy (e_id enemy) (f_enemies st) = Some enemy ->
  settles st (splashOne p enemy st).
Proof.
  intros H F. unfold splashOne.
  destruct (Nat.eqb (e_id enemy) (p_target p)); [apply settles_refl, H|].
  destruct (p_explosionRadius p) as [radius|]; [|apply settles_refl, H].
  destruct (p_falloff p) as [falloff|]; [|apply settles_refl, H].
  destruct (Qleb (explosionDistance p enemy) radius);
    [|apply settles_refl, H].
  destruct (0 <? _); [|apply settles_refl, H].
  destruct (_ <=? 0).
  - eapply settles_trans; [apply settles_setHealth, H|].
    apply (settles_defeatEnemy enemy
             (withHealth (e_health enemy
                          - areaDamage (p_damage p) radius falloff
                                       (explosionDistance p enemy)) enemy));
      cbn [f_enemies].
    + rewrite ids_setHealth. exact H.
    + apply findEnemy_setHealth_same. exact F.
    + reflexivity.
  - apply settles_setHealth, H.
Qed.

(** The area loop over a snapshot whose enemies are all in the array as the
    snapshot shows them. *)
Lemma splashLoop_spec p snapshot :
  forall st,
    NoDup (ids snapshot) ->
    NoDup (ids (f_enemies st)) ->
    (forall e, In e snapshot -> findEnemy (e_id e) (f_enemies st) = Some e) ->
    settles st (splashLoop p snapshot st)
    /\ (forall e, In e snapshot ->
          findEnemy (e_id e) (f_enemies (splashLoop p snapshot st))
          = afterSplash p e)
    /\ (forall id, ~ In id (ids snapshot) ->
          findEnemy id (f_enemies (splashLoop p snapshot st))
          = findEnemy id (f_enemies st)).
Proof.
  unfold splashLoop.
  induction snapshot as [|a rest IH]; intros st Hsnap Hst Hlive.
  - cbn [fold_left]. split; [apply settles_refl, Hst|].
    split; [intros e []|reflexivity].
  - cbn [fold_left]. unfold ids in Hsnap. cbn [map] in Hsnap.
    inversion Hsnap as [|? ? Hnotin Hrest]; subst.
    assert (Hone : settles st (splashOne p a st)).
    { apply splashOne_settles; [exact Hst|]. apply Hlive. left. reflexivity. }
    assert (Hlive' : forall e, In e rest ->
              findEnemy (e_id e) (f_enemies (splashOne p a st)) = Some e).
    { intros e He. rewrite splashOne_lookup_other.
      - apply Hlive. right. exact He.
      - intro E. apply Hnotin. rewrite <- E. apply in_map. exact He. }
    destruct (IH (splashOne p a st) Hrest (proj1 Hone) Hlive')
      as (Hs & Hin & Hout).
    split; [eapply settles_trans; eassumption|]. split.
    + intros e [<-|He].
      * rewrite Hout by exact Hnotin.
        apply splashOne_lookup_self. apply Hlive. left. reflexivity.
      * apply Hin. exact He.
    + intros id Hid. rewrite Hout.
      * apply splashOne_lookup_other. intro E. apply Hid. left. auto.
      * intro Hin'. apply Hid. right. exact Hin'.
Qed.

Lemma In_setHealth_other id h es e :
  In e es -> e_id e <> id -> In e (setHealth id h es).
Proof.
  intros Hin Hne. unfold setHealth. apply in_map_iff. exists e.
  split; [|exact Hin].
  destruct (Nat.eqb (e_id e) id) eqn:E; [|reflexivity].
  apply Nat.eqb_eq in E. contradiction.
Qed.

Lemma afterSplash_target p e :
  e_id e = p_target p -> afterSplash p e = Some e.
Proof.
  intro E. unfold afterSplash. rewrite E, Nat.eqb_refl. reflexivity.
Qed.

(** Every enemy of the array after an impact, by identity. *)
Lemma resolveImpact_spec p st :
  NoDup (ids (f_enemies st)) ->
  settles st (resolveImpact p st)
  /\ (forall e, In e (f_enemies st) ->
        findEnemy (e_id e) (f_enemies (resolveImpact p st))
        = match findEnemy (p_target p) (f_enemies st) with
          | Some _ => afterImpact p e
          | None => Some e
          end).
Proof.
  intro Hst. unfold resolveImpact.
  destruct (findEnemy (p_target p) (f_enemies st)) as [target|] eqn:F.
  2:{ split; [apply settles_refl, Hst|].
      intros e He. apply findEnemy_NoDup; assumption. }
  destruct (findEnemy_Some _ _ _ F) as [Htin Htid].
  set (health := e_health target - p_damage p).
  set (st1 := mkField (setHealth (p_target p) health (f_enemies st))
                      (f_money st) (f_projectiles st)).
  assert (H1 : settles st st1) by (apply settles_setHealth, Hst).
  assert (N1 : NoDup (ids (f_enemies st1))) by exact (proj1 H1).
  assert (F1 : findEnemy (p_target p) (f_enemies st1)
               = Some (withHealth health target)).
  { apply findEnemy_setHealth_same. exact F. }
  assert (Hprimary : forall e, In e (f_enemies st) ->
            e_id e = p_target p -> e = target).
  { intros e He Hid. pose proof (findEnemy_NoDup _ _ Hst He) as Fe.
    rewrite Hid, F in Fe. congruence. }
  destruct (String.eqb (p_type p) "bomber") eqn:Hty.
  - destruct (splashLoop_spec p (f_enemies st1) st1 N1 N1
                (fun e He => findEnemy_NoDup _ _ N1 He))
      as (Hs & Hin & _).
    set (st2 := splashLoop p (f_enemies st1) st1) in *.
    assert (F2 : findEnemy (p_target p) (f_enemies st2)
                 = Some (withHealth health target)).
    { destruct (findEnemy_Some _ _ _ F1) as [Hin1 _].
      pose proof (Hin _ Hin1) as E. cbn [withHealth e_id] in E.
      rewrite Htid in E. rewrite E. apply afterSplash_target.
      cbn [withHealth e_id]. exact Htid. }
    assert (Hfinal : settles st
              (if health <=? 0 then defeatEnemy target st2 else st2)).
    { destruct (health <=? 0).
      - eapply settles_trans; [exact H1|].
        eapply settles_trans; [exact Hs|].
        apply (settles_defeatEnemy target (withHealth health target));
          [exact (proj1 Hs)| |reflexivity].
        rewrite Htid. exact F2.
      - eapply settles_trans; eassumption. }
    split; [exact Hfinal|].
    intros e He. unfold afterImpact.
    destruct (Nat.eqb (e_id e) (p_target p)) eqn:Eid.
    + apply Nat.eqb_eq in Eid. rewrite (Hprimary e He Eid), Htid.
      fold health. destruct (health <=? 0).
      * cbn [defeatEnemy f_enemies]. rewrite Htid.
        apply (findEnemy_filter_same (p_target p)).
      * exact F2.
    + apply Nat.eqb_neq in Eid.
      assert (He1 : In e (f_enemies st1))
        by (apply In_setHealth_other; assumption).
      assert (Hloop : findEnemy (e_id e) (f_enemies st2) = afterSplash p e)
        by (apply Hin; exact He1).
      assert (Hsame : findEnemy (e_id e)
                (f_enemies (if health <=? 0 then defeatEnemy target st2
                            else st2))
              = findEnemy (e_id e) (f_enemies st2)).
      { destruct (health <=? 0); [|reflexivity].
        cbn [defeatEnemy f_enemies]. rewrite Htid.
        apply (findEnemy_filter_other (e_id e) (p_target p)). exact Eid. }
      rewrite Hsame, Hloop, Hty. unfold afterSplash.
      apply Nat.eqb_neq in Eid. rewrite Eid. reflexivity.
  - assert (Hfinal : settles st
              (if health <=? 0 then defeatEnemy target st1 else st1)).
    { destruct (health <=? 0); [|exact H1].
      eapply settles_trans; [exact H1|].
      apply (settles_defeatEnemy target (withHealth health target));
        [exact N1| |reflexivity].
      rewrite Htid. exact F1. }
    split; [exact Hfinal|].
    intros e He. unfold afterImpact.
    destruct (Nat.eqb (e_id e) (p_target p)) eqn:Eid.
    + apply Nat.eqb_eq in Eid. rewrite (Hprimary e He Eid), Htid.
      fold health. destruct (health <=? 0).
      * cbn [defeatEnemy f_enemies]. rewrite Htid.
        apply (findEnemy_filter_same (p_target p)).
      * exact F1.
    + rewrite Hty. apply Nat.eqb_neq in Eid.
      assert (Hkeep : findEnemy (e_id e) (f_enemies st1) = Some e).
      { cbn [st1 f_enemies]. rewrite findEnemy_setHealth_other by exact Eid.
        apply findEnemy_NoDup; assumption. }
      destruct (health <=? 0); [|exact Hkeep].
      cbn [defeatEnemy f_enemies]. rewrite Htid.
      rewrite (findEnemy_filter_other (e_id e) (p_target p)) by exact Eid.
      exact Hkeep.
Qed.

End Impact.

Section Resolution.

Context {host : Math}.

Lemma afterImpact_alive p e e' :
  afterImpact p e = Some e' -> alive e -> alive e'.
Proof.
  unfold afterImpact, alive.
  destruct (Nat.eqb (e_id e) (p_target p)).
  - destruct (e_health e - p_damage p <=? 0) eqn:E; [discriminate|].
    intro H. injection H as <-. cbn [withHealth e_health].
    apply Z.leb_gt in E. intros _. exact E.
  - destruct (String.eqb (p_type p) "bomber");
      [|intro H; injection H as <-; auto].
    destruct (p_explosionRadius p) as [radius|];
      [|intro H; injection H as <-; auto].
    destruct (p_falloff p) as [falloff|];
      [|intro H; injection H as <-; auto].
    destruct (Qleb _ radius && (0 <? _));
      [|intro H; injection H as <-; auto].
    destruct (_ <=? 0) eqn:E; [discriminate|].
    intro H. injection H as <-. cbn [withHealth e_health].
    apply Z.leb_gt in E. intros _. exact E.
Qed.

Lemma resolveImpact_alive p st :
  NoDup (ids (f_enemies st)) ->
  Forall alive (f_enemies st) -> Forall alive (f_enemies (resolveImpact p st)).
Proof.
  intros Hst Hall. destruct (resolveImpact_spec p st Hst) as [Hs Hlook].
  destruct Hs as (N' & T & _).
  apply Forall_forall. intros e' He'.
  destruct (thinned_In _ _ _ T He') as (e & He & Hid & _).
  pose proof (Hlook e He) as L. rewrite Hid in L.
  rewrite (findEnemy_NoDup _ _ N' He') in L.
  rewrite Forall_forall in Hall.
  destruct (findEnemy (p_target p) (f_enemies st)).
  - symmetry in L. eapply afterImpact_alive; [exact L|]. apply Hall, He.
  - injection L as ->. apply Hall, He.
Qed.

Lemma projectileStep_field p st :
  snd (projectileStep p st) = st
  \/ snd (projectileStep p st)
     = resolveImpact (retarget p (f_enemies st)) st.
Proof.
  unfold projectileStep. cbv zeta.
  destruct (Qltb _ 5); cbn [snd]; [right|left]; reflexivity.
Qed.

(** A projectile whose target has left the array resolves nothing. *)
Lemma projectileStep_stale p st :
  includes (p_target p) (f_enemies st) = false ->
  snd (projectileStep p st) = st.
Proof.
  intro H. apply includes_findEnemy in H.
  destruct (projectileStep_field p st) as [E|E]; [exact E|].
  rewrite E. unfold resolveImpact, retarget. rewrite H. rewrite H.
  reflexivity.
Qed.

Lemma projectileStep_settles p st :
  NoDup (ids (f_enemies st)) ->
  settles st (snd (projectileStep p st))
  /\ (Forall alive (f_enemies st) ->
      Forall alive (f_enemies (snd (projectileStep p st)))).
Proof.
  intro Hst. destruct (projectileStep_field p st) as [E|E]; rewrite E.
  - split; [apply settles_refl, Hst|auto].
  - split; [apply resolveImpact_spec, Hst|apply resolveImpact_alive, Hst].
Qed.

Lemma updateProjectiles_loop_cons p rest st :
  snd (updateProjectiles_loop (p :: rest) st)
  = snd (projectileStep p (snd (updateProjectiles_loop rest st))).
Proof.
  cbn [updateProjectiles_loop].
  destruct (updateProjectiles_loop rest st) as [rest' st1]. cbn [snd].
  destruct (projectileStep p st1) as [op st2]. reflexivity.
Qed.

Lemma updateProjectiles_loop_settles ps :
  forall st,
    NoDup (ids (f_enemies st)) ->
    settles st (snd (updateProjectiles_loop ps st))
    /\ (Forall alive (f_enemies st) ->
        Forall alive (f_enemies (snd (updateProjectiles_loop ps st)))).
Proof.
  induction ps as [|p rest IH]; intros st Hst.
  - cbn [updateProjectiles_loop snd]. split; [apply settles_refl, Hst|auto].
  - rewrite updateProjectiles_loop_cons.
    destruct (IH st Hst) as [Hs Ha].
    destruct (projectileStep_settles p _ (proj1 Hs)) as [Hs' Ha'].
    split; [eapply settles_trans; eassumption|auto].
Qed.

Lemma updateProjectiles_fields s :
  enemies (updateProjectiles s)
  = f_enemies (snd (updateProjectiles_loop (projectiles s) (fieldOf s)))
  /\ money (updateProjectiles s)
     = f_money (snd (updateProjectiles_loop (projectiles s) (fieldOf s))).
Proof.
  unfold updateProjectiles.
  destruct (updateProjectiles_loop (projectiles s) (fieldOf s)) as [ps st].
  split; reflexivity.
Qed.

End Resolution.

Section Shots.

Context {host : Math}.

Lemma scanEnemies_In tower es ce0 cd0 ce cd :
  scanEnemies tower es ce0 cd0 = (Some ce, cd) ->
  ce0 = None -> In ce es.
Proof.
  intros E Hnone.
  destruct (scanEnemies_spec tower es ce0 cd0)
    as [[Heq _] | (b & t & a & Hes & Heq & _)].
  - rewrite Heq in E. congruence.
  - rewrite Heq in E. injection E as <- _. subst es.
    apply in_or_app. right. left. reflexivity.
Qed.

Lemma alive_after_hit id h es :
  Forall alive es -> 0 < h -> Forall alive (setHealth id h es).
Proof.
  intros Hall Hh. unfold setHealth. apply Forall_forall. intros x Hx.
  apply in_map_iff in Hx. destruct Hx as (e & <- & He).
  rewrite Forall_forall in Hall.
  destruct (Nat.eqb (e_id e) id); [exact Hh|apply Hall, He].
Qed.

Lemma alive_after_defeat id h es :
  Forall alive es -> Forall alive (filter (unharmed id) (setHealth id h es)).
Proof.
  intros Hall. apply Forall_forall. intros x Hx.
  apply filter_In in Hx. destruct Hx as [Hx Hu].
  unfold setHealth in Hx. apply in_map_iff in Hx.
  destruct Hx as (e & <- & He). rewrite Forall_forall in Hall.
  destruct (Nat.eqb (e_id e) id) eqn:E.
  - unfold unharmed in Hu. cbn [withHealth e_id] in Hu. rewrite E in Hu.
    discriminate.
  - apply Hall, He.
Qed.

(** The instant hit: the target, found in the array, is lowered and, at
    zero or below, defeated. *)
Lemma sniperShot_settles tower target rand st :
  NoDup (ids (f_enemies st)) ->
  findEnemy (e_id target) (f_enemies st) = Some target ->
  settles st (sniperShot tower target rand st)
  /\ (Forall alive (f_enemies st) ->
      Forall alive (f_enemies (sniperShot tower target rand st))).
Proof.
  intros Hst F. unfold sniperShot. cbv zeta.
  set (health := e_health target - sniperDamage tower rand).
  destruct (health <=? 0) eqn:E.
  - split.
    + eapply settles_trans; [apply settles_setHealth, Hst|].
      apply (settles_defeatEnemy target (withHealth health target));
        cbn [f_enemies].
      * rewrite ids_setHealth. exact Hst.
      * apply findEnemy_setHealth_same. exact F.
      * reflexivity.
    + intro Hall. cbn [defeatEnemy f_enemies].
      apply (alive_after_defeat (e_id target)). exact Hall.
  - split; [apply settles_setHealth, Hst|].
    intro Hall. cbn [f_enemies]. apply alive_after_hit; [exact Hall|].
    apply Z.leb_gt in E. exact E.
Qed.

Lemma createStandardProjectile_enemies tower target st :
  f_enemies (createStandardProjectile tower target st) = f_enemies st
  /\ f_money (createStandardProjectile tower target st) = f_money st.
Proof.
  unfold createStandardProjectile. destruct (muzzle tower target).
  split; reflexivity.
Qed.

Lemma createBomberProjectile_enemies tower target st :
  f_enemies (createBomberProjectile tower target st) = f_enemies st
  /\ f_money (createBomberProjectile tower target st) = f_money st.
Proof.
  unfold createBomberProjectile. destruct (muzzle tower target).
  split; reflexivity.
Qed.

Lemma settles_same st st' :
  NoDup (ids (f_enemies st)) ->
  f_enemies st' = f_enemies st -> f_money st' = f_money st ->
  settles st st'.
Proof.
  intros Hst He Hm. unfold settles. rewrite He, Hm.
  repeat split; [exact Hst|apply thinned_refl].
Qed.

Lemma attack_settles tower target rand st :
  NoDup (ids (f_enemies st)) ->
  findEnemy (e_id target) (f_enemies st) = Some target ->
  settles st (attack tower target rand st)
  /\ (Forall alive (f_enemies st) ->
      Forall alive (f_enemies (attack tower target rand st))).
Proof.
  intros Hst F. unfold attack.
  destruct (String.eqb (t_type tower) "sniper").
  - apply sniperShot_settles; assumption.
  - destruct (String.eqb (t_type tower) "bomber").
    + destruct (createBomberProjectile_enemies tower target st) as [He Hm].
      split; [apply settles_same; assumption|].
      rewrite He. auto.
    + destruct (createStandardProjectile_enemies tower target st) as [He Hm].
      split; [apply settles_same; assumption|].
      rewrite He. auto.
Qed.

Lemma towerStep_settles now rand tower st :
  NoDup (ids (f_enemies st)) ->
  settles st (snd (towerStep now rand tower st))
  /\ (Forall alive (f_enemies st) ->
      Forall alive (f_enemies (snd (towerStep now rand tower st)))).
Proof.
  intro Hst. unfold towerStep.
  destruct (onCooldown now tower);
    [split; [apply settles_refl, Hst|auto]|].
  unfold acquireTarget.
  destruct (scanEnemies tower (f_enemies st) None (td_range (t_data tower)))
    as [[target|] cd] eqn:E; cbn [snd];
    [|split; [apply settles_refl, Hst|auto]].
  apply attack_settles; [exact Hst|].
  apply findEnemy_NoDup; [exact Hst|].
  eapply scanEnemies_In; [exact E|reflexivity].
Qed.

Lemma updateTowers_loop_cons now rand i tower rest st :
  snd (updateTowers_loop now rand i (tower :: rest) st)
  = snd (updateTowers_loop now rand (S i) rest
           (snd (towerStep now (rand i) tower st))).
Proof.
  cbn [updateTowers_loop].
  destruct (towerStep now (rand i) tower st) as [tower' st1]. cbn [snd].
  destruct (updateTowers_loop now rand (S i) rest st1) as [rest' st2].
  reflexivity.
Qed.

Lemma updateTowers_loop_settles now rand ts :
  forall i st,
    NoDup (ids (f_enemies st)) ->
    settles st (snd (updateTowers_loop now rand i ts st))
    /\ (Forall alive (f_enemies st) ->
        Forall alive (f_enemies (snd (updateTowers_loop now rand i ts st)))).
Proof.
  induction ts as [|tower rest IH]; intros i st Hst.
  - cbn [updateTowers_loop snd]. split; [apply settles_refl, Hst|auto].
  - rewrite updateTowers_loop_cons.
    destruct (towerStep_settles now (rand i) tower st Hst) as [Hs Ha].
    destruct (IH (S i) _ (proj1 Hs)) as [Hs' Ha'].
    split; [eapply settles_trans; eassumption|auto].
Qed.

Lemma updateTowers_fields now rand s :
  enemies (updateTowers now rand s)
  = f_enemies (snd (updateTowers_loop now rand 0 (towers s) (fieldOf s)))
  /\ money (updateTowers now rand s)
     = f_money (snd (updateTowers_loop now rand 0 (towers s) (fieldOf s))).
Proof.
  unfold updateTowers.
  destruct (updateTowers_loop now rand 0 (towers s) (fieldOf s)) as [ts st].
  split; reflexivity.
Qed.

(** The two fighting steps of a tick, on the enemies and the money. *)
Lemma updateTowers_settles now rand s :
  NoDup (ids (enemies s)) ->
  settles (fieldOf s) (fieldOf (updateTowers now rand s))
  /\ (Forall alive (enemies s) ->
      Forall alive (enemies (updateTowers now rand s))).
Proof.
  intro Hnd. destruct (updateTowers_fields now rand s) as [He Hm].
  destruct (updateTowers_loop_settles now rand (towers s) 0 (fieldOf s) Hnd)
    as [(N & T & M) Ha].
  unfold settles. cbn [fieldOf f_enemies f_money] in *. rewrite He, Hm.
  repeat split; assumption.
Qed.

Lemma updateProjectiles_settles s :
  NoDup (ids (enemies s)) ->
  settles (fieldOf s) (fieldOf (updateProjectiles s))
  /\ (Forall alive (enemies s) ->
      Forall alive (enemies (updateProjectiles s))).
Proof.
  intro Hnd. destruct (updateProjectiles_fields s) as [He Hm].
  destruct (updateProjectiles_loop_settles (projectiles s) (fieldOf s) Hnd)
    as [(N & T & M) Ha].
  unfold settles. cbn [fieldOf f_enemies f_money] in *. rewrite He, Hm.
  repeat split; assumption.
Qed.

Lemma settles_money st st' :
  NoDup (ids (f_enemies st)) ->
  settles st st' ->
  f_money st'
  = f_money st
    + rewardPool (filter (fun e => negb (includes (e_id e) (f_enemies st')))
                         (f_enemies st)).
Proof.
  intros Hnd (N & T & M).
  pose proof (thinned_rewardPool _ _ T Hnd) as E. lia.
Qed.

End Shots.

(** ** A tick of the towers (C9) *)

Section Tick.

Context {host : Math}.

Lemma updateTowers_loop_length_towers now rand ts :
  forall i st,
    List.length (fst (updateTowers_loop now rand i ts st)) = List.length ts.
Proof.
  induction ts as [|tower rest IH]; intros i st; [reflexivity|].
  cbn [updateTowers_loop].
  destruct (towerStep now (rand i) tower st) as [tower' st1].
  specialize (IH (S i) st1).
  destruct (updateTowers_loop now rand (S i) rest st1) as [rest' st2].
  cbn [fst List.length] in *. congruence.
Qed.

(** The tower at index [length before] is stepped on the field as the
    towers before it left it, with the draw of its index. *)
Lemma updateTowers_loop_app now rand before tower after :
  forall i st,
    fst (updateTowers_loop now rand i (before ++ tower :: after) st)
    = fst (updateTowers_loop now rand i before st)
      ++ fst (towerStep now (rand (i + List.length before)%nat) tower
                (snd (updateTowers_loop now rand i before st)))
      :: fst (updateTowers_loop now rand (S (i + List.length before)) after
                (snd (towerStep now (rand (i + List.length before)%nat) tower
                        (snd (updateTowers_loop now rand i before st))))).
Proof.
  induction before as [|b before IH]; intros i st.
  - cbn [app List.length updateTowers_loop fst snd].
    rewrite Nat.add_0_r.
    destruct (towerStep now (rand i) tower st) as [tower' st1].
    cbn [fst snd].
    destruct (updateTowers_loop now rand (S i) after st1) as [rest' st2].
    reflexivity.
  - cbn [app List.length updateTowers_loop].
    destruct (towerStep now (rand i) b st) as [b' st1].
    specialize (IH (S i) st1).
    replace (i + S (List.length before))%nat
      with (S i + List.length before)%nat by lia.
    destruct (updateTowers_loop now rand (S i) (before ++ tower :: after) st1)
      as [l1 s1].
    destruct (updateTowers_loop now rand (S i) before st1) as [l2 s2].
    cbn [fst snd app] in *. rewrite IH. reflexivity.
Qed.

(** What a tower's step leaves of the enemies: the same array, or, after a
    shot of the instant kind, the array with the target's health written
    and the target possibly filtered out. *)
Lemma towerStep_thinned now rand tower st :
  thinned (f_enemies st) (f_enemies (snd (towerStep now rand tower st))).
Proof.
  unfold towerStep. destruct (onCooldown now tower); [apply thinned_refl|].
  destruct (acquireTarget tower (f_enemies st)) as [[target|] d];
    [|apply thinned_refl].
  cbn [snd]. unfold attack.
  destruct (String.eqb _ "sniper").
  - unfold sniperShot. cbv zeta. destruct (_ <=? 0).
    + cbn [defeatEnemy f_enemies].
      eapply thinned_trans; [apply thinned_setHealth|apply thinned_filter].
    + cbn [f_enemies]. apply thinned_setHealth.
  - destruct (String.eqb _ "bomber").
    + rewrite (proj1 (createBomberProjectile_enemies _ _ _)).
      apply thinned_refl.
    + rewrite (proj1 (createStandardProjectile_enemies _ _ _)).
      apply thinned_refl.
Qed.

Lemma towerStep_no_instant_hit now rand tower st :
  String.eqb (t_type tower) "sniper" = false ->
  f_enemies (snd (towerStep now rand tower st)) = f_enemies st.
Proof.
  intro H. unfold towerStep. destruct (onCooldown now tower); [reflexivity|].
  destruct (acquireTarget tower (f_enemies st)) as [[target|] d];
    [|reflexivity].
  cbn [snd]. unfold attack. cbn [aimAt t_type]. rewrite H.
  destruct (String.eqb _ "bomber").
  - apply createBomberProjectile_enemies.
  - apply createStandardProjectile_enemies.
Qed.

Lemma updateTowers_loop_thinned now rand ts :
  forall i st,
    thinned (f_enemies st)
            (f_enemies (snd (updateTowers_loop now rand i ts st))).
Proof.
  induction ts as [|tower rest IH]; intros i st; [apply thinned_refl|].
  rewrite updateTowers_loop_cons.
  eapply thinned_trans; [apply towerStep_thinned|apply IH].
Qed.

Lemma updateTowers_loop_no_instant_hit now rand ts :
  forall i st,
    Forall (fun t => String.eqb (t_type t) "sniper" = false) ts ->
    f_enemies (snd (updateTowers_loop now rand i ts st)) = f_enemies st.
Proof.
  induction ts as [|tower rest IH]; intros i st H; [reflexivity|].
  inversion H as [|? ? Ht Hrest]; subst.
  rewrite updateTowers_loop_cons, (IH _ _ Hrest).
  apply towerStep_no_instant_hit. exact Ht.
Qed.

(** The three outcomes of a tower's step on a field. *)
Lemma towerStep_cases now rand tower st :
  (onCooldown now tower = true /\ towerStep now rand tower st = (tower, st))
  \/ (onCooldown now tower = false
      /\ Forall (fun e => (td_range (t_data tower)
                           <= towerDistance tower e)%Q) (f_enemies st)
      /\ towerStep now rand tower st = (tower, st))
  \/ (onCooldown now tower = false
      /\ exists before target after,
           f_enemies st = before ++ target :: after
           /\ (towerDistance tower target < td_range (t_data tower))%Q
           /\ Forall (fun e => (towerDistance tower target
                                < towerDistance tower e)%Q) before
           /\ Forall (fun e => (towerDistance tower target
                                <= towerDistance tower e)%Q) after
           /\ towerStep now rand tower st
              = (aimAt now tower target,
                 attack (aimAt now tower target) target rand st)).
Proof.
  unfold towerStep. destruct (onCooldown now tower) eqn:Hcd.
  - left. split; reflexivity.
  - right. unfold acquireTarget.
    destruct (scanEnemies_spec tower (f_enemies st) None
                               (td_range (t_data tower)))
      as [[Heq Hall] | (b & t & a & Hes & Heq & Hcl & Hb & Ha)].
    + left. rewrite Heq. repeat split; assumption.
    + right. rewrite Heq. split; [reflexivity|].
      exists b, t, a. repeat split; assumption.
Qed.

End Tick.

(** C9: a tick of [updateTowers] on a state, seen at one tower of its
    array, of positive fire rate.  The array keeps its length and the tower
    its index.  The enemies the tower scans are the live enemies of the
    state as the towers before it in the array left them: the same array
    when none of those is of the instant kind, otherwise that array with
    the enemies defeated earlier in the tick taken out.  A tower on
    cooldown, [now - lastShot < 1000 / fireRate], is left as it was;
    otherwise it either finds no scanned enemy closer than its range and is
    left as it was ([lastShot] included), or it aims at the scanned enemy
    that is closer than the range and strictly closer than every enemy
    scanned before it, no enemy scanned after it being strictly closer,
    stamps [lastShot] and attacks.  In the first two cases the step leaves
    the field as it found it. *)
Theorem tower_targets_first_closest_in_range :
  forall (host : Math) (now : Z) (rands : nat -> Q) (s : State)
         (before : list Tower) (tower : Tower) (after : list Tower),
    towers s = before ++ tower :: after ->
    (0 < td_fireRate (t_data tower))%Q ->
    let i := List.length before in
    let st := snd (updateTowers_loop now rands 0 before (fieldOf s)) in
    let tower' := nth i (towers (updateTowers now rands s)) tower in
    List.length (towers (updateTowers now rands s)) = List.length (towers s)
    /\ thinned (enemies s) (f_enemies st)
    /\ (Forall (fun t => String.eqb (t_type t) "sniper" = false) before ->
        f_enemies st = enemies s)
    /\ (onCooldown now tower = true
        <-> (inject_Z (now - t_lastShot tower)
             < 1000 / td_fireRate (t_data tower))%Q)
    /\ ((onCooldown now tower = true
         /\ tower' = tower
         /\ snd (towerStep now (rands i) tower st) = st)
        \/ (onCooldown now tower = false
            /\ Forall (fun e => (td_range (t_data tower)
                                 <= towerDistance tower e)%Q) (f_enemies st)
            /\ tower' = tower
            /\ snd (towerStep now (rands i) tower st) = st)
        \/ (onCooldown now tower = false
            /\ exists scanned target rest,
                 f_enemies st = scanned ++ target :: rest
                 /\ (towerDistance tower target < td_range (t_data tower))%Q
                 /\ Forall (fun e => (towerDistance tower target
                                      < towerDistance tower e)%Q) scanned
                 /\ Forall (fun e => (towerDistance tower target
                                      <= towerDistance tower e)%Q) rest
                 /\ tower' = aimAt now tower target
                 /\ t_lastShot tower' = now
                 /\ t_target tower' = Some (e_id target)
                 /\ snd (towerStep now (rands i) tower st)
                    = attack (aimAt now tower target) target (rands i) st)).
Proof.
  intros host now rands s before tower after Hts _ i st tower'.
  assert (Hnth : tower' = fst (towerStep now (rands i) tower st)).
  { unfold tower'. rewrite updateTowers_towers, Hts.
    rewrite (updateTowers_loop_app now rands before tower after 0 (fieldOf s)).
    cbn [Nat.add]. fold st. fold i.
    rewrite app_nth2;
      rewrite (updateTowers_loop_length_towers now rands before 0 (fieldOf s));
      [|unfold i; lia].
    unfold i. rewrite Nat.sub_diag. reflexivity. }
  split.
  { rewrite updateTowers_towers.
    apply updateTowers_loop_length_towers. }
  split.
  { exact (updateTowers_loop_thinned now rands before 0 (fieldOf s)). }
  split.
  { intro H.
    exact (updateTowers_loop_no_instant_hit now rands before 0 (fieldOf s) H). }
  split.
  { unfold onCooldown. apply Qltb_lt. }
  rewrite Hnth.
  destruct (towerStep_cases now (rands i) tower st)
    as [[Hcd E]|[(Hcd & Hall & E)|(Hcd & b & t & a & Hes & Hr & Hb & Ha & E)]].
  - left. rewrite E. cbn [fst snd]. auto.
  - right. left. rewrite E. cbn [fst snd]. auto.
  - right. right. split; [exact Hcd|]. exists b, t, a. rewrite E.
    cbn [fst snd aimAt t_lastShot t_target]. repeat split; assumption.
Qed.

(** The duel: one basic tower at [(520, 200)], its cooldown elapsed, and one
    enemy 80 to its right, inside the range of 120.  The tick aims the tower
    at that enemy. *)
Lemma tower_targets_first_closest_in_range_witness :
  towers (duel basic 40) = [] ++ duellist :: []
  /\ (0 < td_fireRate (t_data duellist))%Q
  /\ t_target (nth 0 (towers (updateTowers (host := rationalMath) clock noCrit
                                           (duel basic 40)))
                   duellist)
     = Some 0%nat
  /\ t_lastShot (nth 0 (towers (updateTowers (host := rationalMath) clock
                                             noCrit (duel basic 40)))
                     duellist)
     = clock.
Proof.
  assert (T : towers (duel basic 40) = [] ++ duellist :: []) by reflexivity.
  assert (R : (0 < td_fireRate (t_data duellist))%Q) by reflexivity.
  split; [exact T|]. split; [exact R|].
  destruct (tower_targets_first_closest_in_range rationalMath clock noCrit
              (duel basic 40) [] duellist [] T R)
    as (_ & _ & _ & _ & [[Hcd _]|[(_ & Hall & _)|(_ & b & t & a & Hes & _ & _ & _ & _ & Hl & Ht & _)]]).
  - vm_compute in Hcd. discriminate.
  - cbn [updateTowers_loop snd fieldOf f_enemies] in Hall.
    inversion Hall as [|e es He _]; subst.
    apply Qle_bool_iff in He. vm_compute in He. discriminate.
  - cbn [updateTowers_loop snd fieldOf f_enemies] in Hes.
    assert (E : e_id t = 0%nat).
    { destruct b as [|e0 b].
      - cbn [app] in Hes. injection Hes as <- _. reflexivity.
      - cbn [app] in Hes. injection Hes as _ Hes.
        destruct b; discriminate Hes. }
    rewrite E in Ht. split; [exact Ht|exact Hl].
Defined.

(** C4: over the projectile pass of a tick, and over the tower pass
    followed by the projectile pass, on a field whose enemies are distinct
    objects, enemies are only taken out (survivors keep identity, order and
    reward), the money grows by the reward of each enemy taken out, counted
    once, and no enemy is left at zero health or below if there was none
    before; a projectile whose target is no longer in the array changes
    neither the enemies nor the money. *)
Theorem defeat_is_rewarded_once :
  forall (host : Math) (now : Z) (rand : nat -> Q) (s : State),
    NoDup (map e_id (enemies s)) ->
    paidOnce s (updateProjectiles s)
    /\ paidOnce s (updateProjectiles (updateTowers now rand s))
    /\ (forall (p : Projectile) (st : Field),
          includes (p_target p) (f_enemies st) = false ->
          snd (projectileStep p st) = st).
Proof.
  intros host now rand s Hnd.
  assert (Hgen : forall s', settles (fieldOf s) (fieldOf s') ->
            (Forall alive (enemies s) -> Forall alive (enemies s')) ->
            paidOnce s s').
  { intros s' Hs Ha.
    pose proof (settles_money (fieldOf s) (fieldOf s') Hnd Hs) as Hm.
    destruct Hs as (N & T & _). cbn [fieldOf f_enemies f_money] in *.
    unfold paidOnce. repeat split; assumption. }
  split; [|split].
  - destruct (updateProjectiles_settles s Hnd) as [Hs Ha].
    apply Hgen; assumption.
  - destruct (updateTowers_settles now rand s Hnd) as [Hs Ha].
    destruct (updateProjectiles_settles (updateTowers now rand s)
                (proj1 Hs)) as [Hs' Ha'].
    apply Hgen; [eapply settles_trans; eassumption|auto].
  - intros p st. apply projectileStep_stale.
Qed.

(** C5: when a bomber projectile with radius and falloff hits its live
    target, every enemy of the array is afterwards found, by identity, with
    its health lowered by what the specification says it takes (the full damage for
    the target; for another enemy the floored, attenuated damage clamped at
    zero when it is within the radius, zero beyond), or is gone when that
    brings it to zero or below; with radius 60, falloff 0.5 and damage 50
    the amounts at distance 30, 60 and beyond 60 are 37, 25 and 0. *)
Theorem splash_damage_by_distance :
  forall (host : Math) (p : Projectile) (st : Field) (radius falloff : Q)
         (target : Enemy),
    NoDup (map e_id (f_enemies st)) ->
    p_type p = "bomber"%string ->
    p_explosionRadius p = Some radius ->
    p_falloff p = Some falloff ->
    findEnemy (p_target p) (f_enemies st) = Some target ->
    (forall e, In e (f_enemies st) ->
       let taken :=
         if Nat.eqb (e_id e) (p_target p) then p_damage p
         else specSplashDamage (p_damage p) radius falloff
                               (explosionDistance p e) in
       findEnemy (e_id e) (f_enemies (resolveImpact p st))
       = if negb (Nat.eqb (e_id e) (p_target p)) && (taken =? 0) then Some e
         else if e_health e - taken <=? 0 then None
              else Some (withHealth (e_health e - taken) e))
    /\ specSplashDamage 50 60 0.5 30 = 37
    /\ specSplashDamage 50 60 0.5 60 = 25
    /\ (forall d : Q, (60 < d)%Q -> specSplashDamage 50 60 0.5 d = 0).
Proof.
  intros host p st radius falloff target Hnd Hty Hr Hf Ht.
  split; [|split; [reflexivity|split; [reflexivity|]]].
  - intros e He taken. subst taken.
    destruct (resolveImpact_spec p st Hnd) as [_ Hlook].
    rewrite (Hlook e He), Ht. unfold afterImpact, specSplashDamage.
    rewrite Hty, Hr, Hf. cbn [String.eqb Ascii.eqb Bool.eqb].
    destruct (Nat.eqb (e_id e) (p_target p)); cbn [negb andb]; [reflexivity|].
    destruct (Qleb (explosionDistance p e) radius); cbn [andb];
      [|reflexivity].
    destruct (0 <? areaDamage (p_damage p) radius falloff
                    (explosionDistance p e)) eqn:Hpos.
    + apply Z.ltb_lt in Hpos.
      rewrite Z.max_r by lia.
      destruct (_ =? 0) eqn:Hz; [apply Z.eqb_eq in Hz; lia|reflexivity].
    + apply Z.ltb_ge in Hpos. rewrite Z.max_l by lia. reflexivity.
  - intros d Hd. unfold specSplashDamage.
    destruct (Qleb d 60) eqn:E; [|reflexivity].
    apply Qle_bool_iff in E. exfalso. exact (Qlt_not_le _ _ Hd E).
Qed.

(** The hypothesis of C4 at [crossfire]. *)
Lemma defeat_is_rewarded_once_witness :
  NoDup (map e_id (enemies crossfire))
  /\ paidOnce crossfire (updateProjectiles (host := rationalMath) crossfire).
Proof.
  assert (H : NoDup (map e_id (enemies crossfire))).
  { repeat constructor; simpl; intuition discriminate. }
  split; [exact H|].
  exact (proj1 (defeat_is_rewarded_once rationalMath clock noCrit crossfire H)).
Defined.

(** The bomber projectile is resolved first: its splash (37 at distance 30)
    defeats enemy 0, its full damage defeats enemy 1; the plain projectile
    aimed at enemy 0 then finds it gone.  Two rewards of 10, each once. *)
Example crossfire_pays_each_enemy_once :
  enemies (updateProjectiles (host := rationalMath) crossfire) = []
  /\ money (updateProjectiles (host := rationalMath) crossfire)
     = money crossfire + 10 + 10
  /\ projectiles (updateProjectiles (host := rationalMath) crossfire) = [].
Proof. vm_compute. repeat split. Qed.

(** Two projectiles on one enemy of health 40: the one resolved first
    defeats it, the other resolves nothing. *)
Example doubleHit_pays_once :
  map e_id (enemies (updateProjectiles (host := rationalMath) doubleHit))
  = [1%nat]
  /\ map e_health
       (enemies (updateProjectiles (host := rationalMath) doubleHit)) = [40]
  /\ money (updateProjectiles (host := rationalMath) doubleHit)
     = money doubleHit + 10.
Proof. vm_compute. repeat split. Qed.

(** The hypotheses of C5 at the cluster, and what it says of the enemy 30
    units from the impact: 100 - 37. *)
Lemma splash_damage_by_distance_witness :
  NoDup (map e_id (f_enemies (fieldOf (cluster bomb))))
  /\ p_type bomb = "bomber"%string
  /\ p_explosionRadius bomb = Some 60%Q
  /\ p_falloff bomb = Some 0.5%Q
  /\ findEnemy (p_target bomb) (f_enemies (fieldOf (cluster bomb)))
     = Some (walker 0 Estrong 100 80)
  /\ findEnemy 1 (f_enemies (resolveImpact (host := rationalMath) bomb
                                           (fieldOf (cluster bomb))))
     = Some (withHealth 63 (walker 1 Estrong 100 110)).
Proof.
  assert (H1 : NoDup (map e_id (f_enemies (fieldOf (cluster bomb))))).
  { repeat constructor; simpl; intuition discriminate. }
  assert (H5 : findEnemy (p_target bomb) (f_enemies (fieldOf (cluster bomb)))
               = Some (walker 0 Estrong 100 80)) by reflexivity.
  repeat (split; [first [exact H1 | exact H5 | reflexivity]|]).
  destruct (splash_damage_by_distance rationalMath bomb
              (fieldOf (cluster bomb)) 60 0.5 (walker 0 Estrong 100 80)
              H1 eq_refl eq_refl eq_refl H5) as [H _].
  specialize (H (walker 1 Estrong 100 110)
                (or_intror (or_introl eq_refl))).
  vm_compute in H. vm_compute. exact H.
Defined.

(** The cluster after the impact: 100 - 50 for the target, 100 - 37 at
    distance 30, 100 - 25 at distance 60, untouched at distance 61. *)
Example cluster_after_bomb :
  map (explosionDistance (host := rationalMath) bomb) (enemies (cluster bomb))
  = [0%Q; 30%Q; 60%Q; 61%Q]
  /\ map e_health
       (f_enemies (resolveImpact (host := rationalMath) bomb
                                 (fieldOf (cluster bomb))))
     = [50; 63; 75; 100].
Proof. vm_compute. split; reflexivity. Qed.

(** ** Breach and game over (C3) *)

Section Breach.

Context {host : Math}.

(** The loop takes out at most one enemy, the breaching one, and keeps the
    others in order. *)
Lemma updateEnemies_loop_length es :
  (List.length (fst (updateEnemies_loop es))
   + (if snd (updateEnemies_loop es) then 1 else 0)
   = List.length es)%nat.
Proof.
  induction es as [|e rest IH]; [reflexivity|].
  cbn [updateEnemies_loop].
  destruct (updateEnemies_loop rest) as [rest' breached]. cbn [fst snd] in *.
  destruct breached.
  - cbn [fst snd List.length]. lia.
  - destruct (moveEnemy e); cbn [fst snd List.length]; lia.
Qed.

Lemma updateEnemies_breach s :
  snd (updateEnemies_loop (enemies s)) = true ->
  lives (updateEnemies s) = lives s - 1
  /\ money (updateEnemies s) = money s
  /\ isPlaying (updateEnemies s) = false
  /\ S (List.length (enemies (updateEnemies s))) = List.length (enemies s).
Proof.
  intro Hb. pose proof (updateEnemies_loop_length (enemies s)) as L.
  unfold updateEnemies.
  destruct (updateEnemies_loop (enemies s)) as [es breached].
  cbn [fst snd] in *. subst breached.
  repeat split. cbn [enemies gameOver set_isPlaying set_enemies]. lia.
Qed.

Lemma updateEnemies_quiet s :
  snd (updateEnemies_loop (enemies s)) = false ->
  lives (updateEnemies s) = lives s
  /\ money (updateEnemies s) = money s
  /\ isPlaying (updateEnemies s) = isPlaying s
  /\ List.length (enemies (updateEnemies s)) = List.length (enemies s).
Proof.
  intro Hb. pose proof (updateEnemies_loop_length (enemies s)) as L.
  unfold updateEnemies.
  destruct (updateEnemies_loop (enemies s)) as [es breached].
  cbn [fst snd] in *. subst breached.
  repeat split. cbn [enemies set_enemies]. lia.
Qed.

(** With [isPlaying] false the animation frame does not call [update]. *)
Lemma gameLoop_stopped now rand s :
  isPlaying s = false -> gameLoop now rand s = s.
Proof.
  intro H. unfold gameLoop. rewrite H. destruct (gameScreen s); reflexivity.
Qed.

End Breach.

(** ** Timers across reset and game over (C7) *)

Lemma In_clearTimer t h s :
  In t (timers s) -> tm_handle t <> h -> In t (timers (clearTimer h s)).
Proof.
  intros Hin Hne. unfold clearTimer.
  destruct s as [m l w ip sel ts es ps wt esi gsc pp pt df wc ws tms nh ne].
  cbn in *.
  apply filter_In. split; [exact Hin|].
  apply negb_true_iff, Nat.eqb_neq. exact Hne.
Qed.

(** [resetGame] clears the handles stored in [enemySpawnInterval] and
    [waveTimeout] and no other timer. *)
Lemma resetGame_keeps_timers s t :
  In t (timers s) ->
  enemySpawnInterval s <> Some (tm_handle t) ->
  waveTimeout s <> Some (tm_handle t) ->
  In t (timers (resetGame s)).
Proof.
  intros Hin Hs Hw.
  destruct s as [m l w ip sel ts es ps wt esi gsc pp pt df wc ws tms nh ne].
  unfold resetGame. cbn in *.
  destruct esi as [h|]; destruct wt as [h'|]; cbn.
  - apply filter_In. split.
    + apply filter_In. split; [exact Hin|].
      apply negb_true_iff, Nat.eqb_neq. congruence.
    + apply negb_true_iff, Nat.eqb_neq. congruence.
  - apply filter_In. split; [exact Hin|].
    apply negb_true_iff, Nat.eqb_neq. congruence.
  - apply filter_In. split; [exact Hin|].
    apply negb_true_iff, Nat.eqb_neq. congruence.
  - exact Hin.
Qed.

(** C3 (the code departs from it): a breach costs exactly one life, pays
    nothing, removes the enemy and clears [isPlaying], after which an
    animation frame changes nothing.  But the field is not frozen: the spawn
    interval is not cancelled and goes on adding enemies after the game is
    over, and the tick of the breach itself still runs the towers and the
    projectiles. *)
Theorem breach_stops_frames_but_not_the_field :
  (forall (host : Math) (s : State),
      if snd (updateEnemies_loop (enemies s))
      then lives (updateEnemies s) = lives s - 1
           /\ money (updateEnemies s) = money s
           /\ isPlaying (updateEnemies s) = false
           /\ S (List.length (enemies (updateEnemies s)))
              = List.length (enemies s)
      else lives (updateEnemies s) = lives s
           /\ isPlaying (updateEnemies s) = isPlaying s)
  /\ (forall (host : Math) now rand (s : State),
        if isPlaying s then True else gameLoop now rand s = s)
  /\ (lives breached = 0 /\ isPlaying breached = false
      /\ money breached = 75
      /\ map e_id (enemies breached) = [1; 2; 3; 4]%nat
      /\ timers breached = [mkTimer 2 1200 (spawnInterval 5 8)])
  /\ (isPlaying (step (host := rationalMath) (EvTimer 2 0) breached) = false
      /\ map e_id (enemies (step (host := rationalMath) (EvTimer 2 0) breached))
         = [1; 2; 3; 4; 5]%nat)
  /\ (map t_lastShot (towers lastStand) = [0]
      /\ projectiles lastStand = []
      /\ let s := gameLoop (host := rationalMath) clock noCrit lastStand in
         lives s = 0 /\ isPlaying s = false
         /\ map e_id (enemies s) = [1%nat]
         /\ map t_lastShot (towers s) = [clock]
         /\ map p_target (projectiles s) = [1%nat]).
Proof.
  split; [|split; [|split; [|split]]].
  - intros host s. destruct (snd (updateEnemies_loop (enemies s))) eqn:Hb.
    + apply updateEnemies_breach. exact Hb.
    + destruct (updateEnemies_quiet s Hb) as (Hl & _ & Hp & _). auto.
  - intros host now rand s. destruct (isPlaying s) eqn:Hp; [exact I|].
    apply gameLoop_stopped. exact Hp.
  - vm_compute. repeat split.
  - vm_compute. repeat split.
  - vm_compute. repeat split.
Qed.

(** C7 (the code departs from it): [gameOver] cancels no timer and
    [resetGame] only the stored spawn interval ([waveTimeout] is never
    assigned).  A restart during the preparation phase leaves the
    preparation countdown running: it later marks the wave started, starts
    the spawn schedule and enemies enter the reset session.  A restart after
    a wave completion leaves the bonus timeout and the countdown running:
    they raise the money and the wave counter of the reset session.  After a
    game over the spawn interval is still registered. *)
Theorem reset_and_game_over_leave_timers_running :
  (forall s : State, timers (gameOver s) = timers s)
  /\ (forall (s : State) (t : Timer),
        In t (timers s) ->
        enemySpawnInterval s <> Some (tm_handle t) ->
        waveTimeout s <> Some (tm_handle t) ->
        In t (timers (resetGame s)))
  /\ timers (run (host := rationalMath) [EvStartGame; EvRestartClick]
                 initialState)
     = [mkTimer 1 1000 prepInterval]
  /\ (gameScreen staleRestart = mainMenu
      /\ waveStarted staleRestart = true
      /\ enemySpawnInterval staleRestart = Some 2%nat
      /\ map e_id (enemies staleRestart) = [0%nat])
  /\ (let s := run (host := rationalMath) [EvFrame clock noCrit; EvRestartClick]
                   waveCleared in
      money s = 75 /\ wave s = 1
      /\ timers s = [mkTimer 3 1000 (bonusTimeout 55);
                     mkTimer 4 1000 (countdownInterval 8)])
  /\ (gameScreen staleCountdown = mainMenu
      /\ money staleCountdown = 75 + 55
      /\ wave staleCountdown = 2
      /\ timers staleCountdown = [mkTimer 5 1150 (spawnInterval 0 9)])
  /\ (isPlaying breached = false
      /\ timers breached = [mkTimer 2 1200 (spawnInterval 5 8)]).
Proof.
  split; [reflexivity|]. split; [exact resetGame_keeps_timers|].
  repeat split; vm_compute; reflexivity.
Qed.

(** * Invariants, schedules and effects *)

(** ** Wave composition and pacing *)

Lemma Qfloor_enemyCount (w : Z) :
  Qfloor (8 * (1 + inject_Z (w - 1) * 0.2)) = (8 * w + 32) / 5.
Proof.
  assert (E : (8 * (1 + inject_Z (w - 1) * 0.2) == (8 * w + 32) # 5)%Q).
  { unfold Qeq, Qmult, Qplus, inject_Z, Qnum, Qden. lia. }
  rewrite (Qfloor_comp _ _ E). reflexivity.
Qed.

Lemma startWave_timers {host : Math} (s : State) :
  timers (startWave s)
  = filter (fun t => match enemySpawnInterval s with
                     | Some h => negb (Nat.eqb (tm_handle t) h)
                     | None => true
                     end) (timers s)
    ++ [mkTimer (nextHandle s)
                (inject_Z (Z.max 300 (1200 - (wave s - 1) * 50)))
                (spawnInterval 0 ((8 * wave s + 32) / 5))]
  /\ enemySpawnInterval (startWave s) = Some (nextHandle s)
  /\ nextHandle (startWave s) = S (nextHandle s)
  /\ waveCompleted (startWave s) = false
  /\ wave (startWave s) = wave s
  /\ enemies (startWave s) = enemies s
  /\ money (startWave s) = money s.
Proof.
  rewrite <- Qfloor_enemyCount.
  destruct s as [m l w ip sel ts es ps wt esi gsc pp pt df wc ws tms nh ne].
  unfold startWave, calculateWaveDifficulty, setTimer, clearTimer.
  destruct esi as [h|]; destruct (10 <? _); st_cbn; repeat split;
    try reflexivity; f_equal; induction tms as [|t tms IH]; cbn;
    congruence.
Qed.

(** X1: [startWave] replaces the stored spawn interval by one for the
    current wave: [floor (8 * (1 + (wave - 1) * 0.2))] enemies, which is
    [(8 * wave + 32) / 5], one every [max 300 (1200 - (wave - 1) * 50)] ms.
    From wave 1 on the count is at least 8 and never shrinks from a wave to
    a later one; the delay never grows, stays within 300..1200 and is 300
    from wave 19 on. *)
Theorem startWave_size_and_cadence :
  forall (host : Math) (s : State) (w w' : Z),
    timers (startWave s)
    = filter (fun t => match enemySpawnInterval s with
                       | Some h => negb (Nat.eqb (tm_handle t) h)
                       | None => true
                       end) (timers s)
      ++ [mkTimer (nextHandle s)
                  (inject_Z (Z.max 300 (1200 - (wave s - 1) * 50)))
                  (spawnInterval 0 ((8 * wave s + 32) / 5))]
    /\ enemySpawnInterval (startWave s) = Some (nextHandle s)
    /\ (1 <= w -> 8 <= (8 * w + 32) / 5)
    /\ (w <= w' -> (8 * w + 32) / 5 <= (8 * w' + 32) / 5)
    /\ (w <= w' ->
        Z.max 300 (1200 - (w' - 1) * 50) <= Z.max 300 (1200 - (w - 1) * 50))
    /\ (1 <= w -> 300 <= Z.max 300 (1200 - (w - 1) * 50) <= 1200)
    /\ (19 <= w -> Z.max 300 (1200 - (w - 1) * 50) = 300).
Proof.
  intros host s w w'.
  destruct (startWave_timers s) as (Ht & Hh & _).
  split; [exact Ht|]. split; [exact Hh|].
  repeat split; intros; try lia.
  - apply Z.div_le_lower_bound; lia.
  - apply Z.div_le_mono; lia.
Qed.

(** X2: from wave 1 on, waves 1 and 2 are all basic, waves up to 4 hold only
    basic and fast enemies, strong enemies and bosses never come before
    wave 5, a wave divisible by 5 holds only bosses and strong enemies, and
    no other wave up to 7 holds a boss. *)
Theorem enemy_kinds_by_wave :
  forall (w : Z) (rand : Q),
    1 <= w ->
    let kind := selectEnemyTypeForWave w rand in
    (w <= 2 -> kind = Ebasic)
    /\ (w <= 4 -> kind = Ebasic \/ kind = Efast)
    /\ (w mod 5 = 0 -> kind = Eboss \/ kind = Estrong)
    /\ (w mod 5 <> 0 -> w <= 7 -> kind <> Eboss).
Proof.
  intros w rand Hw kind. subst kind. unfold selectEnemyTypeForWave.
  destruct (w mod 5 =? 0) eqn:Hm.
  - apply Z.eqb_eq in Hm.
    assert (5 <= w).
    { destruct (Z.le_gt_cases 5 w) as [H|H]; [exact H|].
      rewrite Z.mod_small in Hm by lia. lia. }
    repeat split; intros; try lia; try contradiction.
    destruct (Qltb rand 0.3); auto.
  - apply Z.eqb_neq in Hm.
    destruct (w <=? 2) eqn:H2;
      [repeat split; intros; auto; congruence|].
    apply Z.leb_gt in H2.
    destruct (w <=? 4) eqn:H4;
      [repeat split; intros; try lia;
       destruct (Qltb rand 0.7); auto; congruence|].
    apply Z.leb_gt in H4.
    destruct (w <=? 7) eqn:H7;
      [|apply Z.leb_gt in H7; repeat split; intros; lia].
    repeat split; intros; try lia.
    destruct (Qltb rand 0.5); [congruence|].
    destruct (Qltb rand 0.8); congruence.
Qed.

Lemma enemy_kinds_by_wave_witness :
  1 <= 4
  /\ (selectEnemyTypeForWave 4 0.9 = Ebasic
      \/ selectEnemyTypeForWave 4 0.9 = Efast).
Proof.
  split; [lia|].
  exact (proj1 (proj2 (enemy_kinds_by_wave 4 0.9 ltac:(lia))) ltac:(lia)).
Defined.

(** ** What a tick leaves alone *)

Lemma update_control {host : Math} now rand s :
  wave (update now rand s) = wave s
  /\ selectedTower (update now rand s) = selectedTower s
  /\ waveTimeout (update now rand s) = waveTimeout s
  /\ enemySpawnInterval (update now rand s) = enemySpawnInterval s
  /\ gameScreen (update now rand s) = gameScreen s
  /\ preparationPhase (update now rand s) = preparationPhase s
  /\ preparationTimer (update now rand s) = preparationTimer s
  /\ difficultyFactor (update now rand s) = difficultyFactor s
  /\ waveStarted (update now rand s) = waveStarted s
  /\ nextEnemy (update now rand s) = nextEnemy s
  /\ timers (update now rand s) = timers (checkWaveCompletion s)
  /\ nextHandle (update now rand s) = nextHandle (checkWaveCompletion s)
  /\ waveCompleted (update now rand s) = waveCompleted (checkWaveCompletion s).
Proof.
  destruct s as [m l w ip sel ts es ps wt esi gsc pp pt df wc ws tms nh ne].
  unfold update, checkWaveCompletion.
  destruct (completionCondition _); st_cbn;
    unfold updateEnemies; st_cbn;
    destruct (updateEnemies_loop es) as [es' b]; destruct b; st_cbn;
    unfold updateTowers; st_cbn;
    destruct (updateTowers_loop _ _ _ _ _) as [ts' st]; st_cbn;
    unfold updateProjectiles; st_cbn;
    destruct (updateProjectiles_loop _ _) as [ps' st']; st_cbn;
    repeat split; reflexivity.
Qed.

(** ** Properties of enemies that impacts and shots preserve *)

Section Preserved.

Context {host : Math}.
Variable P : Enemy -> Prop.
Hypothesis P_blind : healthBlind P.

Lemma Forall_setHealth id h es :
  Forall P es -> Forall P (setHealth id h es).
Proof.
  intro H. unfold setHealth. apply Forall_forall. intros x Hx.
  apply in_map_iff in Hx. destruct Hx as (e & <- & He).
  rewrite Forall_forall in H.
  destruct (Nat.eqb (e_id e) id); [apply P_blind|]; apply H, He.
Qed.

Lemma Forall_filter (f : Enemy -> bool) es :
  Forall P es -> Forall P (filter f es).
Proof.
  intro H. apply Forall_forall. intros x Hx. apply filter_In in Hx.
  rewrite Forall_forall in H. apply H, Hx.
Qed.

Lemma Forall_splashOne p enemy st :
  Forall P (f_enemies st) -> Forall P (f_enemies (splashOne p enemy st)).
Proof.
  intro H. unfold splashOne.
  destruct (Nat.eqb (e_id enemy) (p_target p)); [exact H|].
  destruct (p_explosionRadius p); [|exact H].
  destruct (p_falloff p); [|exact H].
  destruct (Qleb _ _); [|exact H].
  destruct (0 <? _); [|exact H].
  destruct (_ <=? 0); cbn [defeatEnemy f_enemies].
  - apply Forall_filter, Forall_setHealth, H.
  - apply Forall_setHealth, H.
Qed.

Lemma Forall_splashLoop p snapshot :
  forall st,
    Forall P (f_enemies st) ->
    Forall P (f_enemies (splashLoop p snapshot st)).
Proof.
  unfold splashLoop. induction snapshot as [|a rest IH]; intros st H.
  - exact H.
  - cbn [fold_left]. apply IH, Forall_splashOne, H.
Qed.

Lemma Forall_resolveImpact p st :
  Forall P (f_enemies st) -> Forall P (f_enemies (resolveImpact p st)).
Proof.
  intro H. unfold resolveImpact.
  destruct (findEnemy (p_target p) (f_enemies st)) as [target|]; [|exact H].
  assert (H1 : Forall P (setHealth (p_target p)
                           (e_health target - p_damage p) (f_enemies st)))
    by (apply Forall_setHealth, H).
  destruct (String.eqb (p_type p) "bomber").
  - destruct (_ <=? 0); [cbn [defeatEnemy f_enemies]; apply Forall_filter|];
      apply Forall_splashLoop; exact H1.
  - destruct (_ <=? 0); [cbn [defeatEnemy f_enemies]; apply Forall_filter|];
      exact H1.
Qed.

Lemma Forall_projectileStep p st :
  Forall P (f_enemies st) ->
  Forall P (f_enemies (snd (projectileStep p st))).
Proof.
  intro H. destruct (projectileStep_field p st) as [E|E]; rewrite E.
  - exact H.
  - apply Forall_resolveImpact, H.
Qed.

Lemma Forall_updateProjectiles_loop ps :
  forall st,
    Forall P (f_enemies st) ->
    Forall P (f_enemies (snd (updateProjectiles_loop ps st))).
Proof.
  induction ps as [|p rest IH]; intros st H.
  - exact H.
  - rewrite updateProjectiles_loop_cons. apply Forall_projectileStep, IH, H.
Qed.

Lemma Forall_attack tower target rand st :
  Forall P (f_enemies st) ->
  Forall P (f_enemies (attack tower target rand st)).
Proof.
  intro H. unfold attack.
  destruct (String.eqb (t_type tower) "sniper").
  - unfold sniperShot. cbv zeta.
    destruct (_ <=? 0); cbn [defeatEnemy f_enemies].
    + apply Forall_filter, Forall_setHealth, H.
    + apply Forall_setHealth, H.
  - destruct (String.eqb (t_type tower) "bomber").
    + rewrite (proj1 (createBomberProjectile_enemies tower target st)).
      exact H.
    + rewrite (proj1 (createStandardProjectile_enemies tower target st)).
      exact H.
Qed.

Lemma Forall_towerStep now rand tower st :
  Forall P (f_enemies st) ->
  Forall P (f_enemies (snd (towerStep now rand tower st))).
Proof.
  intro H. unfold towerStep.
  destruct (onCooldown now tower); [exact H|].
  destruct (acquireTarget tower (f_enemies st)) as [[target|] cd];
    cbn [snd]; [apply Forall_attack, H|exact H].
Qed.

Lemma Forall_updateTowers_loop now rand ts :
  forall i st,
    Forall P (f_enemies st) ->
    Forall P (f_enemies (snd (updateTowers_loop now rand i ts st))).
Proof.
  induction ts as [|tower rest IH]; intros i st H.
  - exact H.
  - rewrite updateTowers_loop_cons. apply IH, Forall_towerStep, H.
Qed.

Lemma Forall_updateTowers now rand s :
  Forall P (enemies s) -> Forall P (enemies (updateTowers now rand s)).
Proof.
  intro H. rewrite (proj1 (updateTowers_fields now rand s)).
  apply Forall_updateTowers_loop. exact H.
Qed.

Lemma Forall_updateProjectiles s :
  Forall P (enemies s) -> Forall P (enemies (updateProjectiles s)).
Proof.
  intro H. rewrite (proj1 (updateProjectiles_fields s)).
  apply Forall_updateProjectiles_loop. exact H.
Qed.

End Preserved.

(** ** Movement keeps the enemies well formed *)

Section Marching.

Context {host : Math}.

Lemma moveEnemy_fields enemy enemy' :
  moveEnemy enemy = Some enemy' ->
  e_id enemy' = e_id enemy
  /\ e_reward enemy' = e_reward enemy
  /\ e_health enemy' = e_health enemy
  /\ e_speed enemy' = e_speed enemy
  /\ ((S (e_pathIndex enemy) < List.length path)%nat ->
      (S (e_pathIndex enemy') < List.length path)%nat).
Proof.
  unfold moveEnemy. cbv zeta.
  destruct (Qleb _ _).
  - destruct (List.length path - 1 <=? S (e_pathIndex enemy))%nat eqn:E;
      [discriminate|].
    intro H. injection H as <-. cbn [e_id e_reward e_health e_speed e_pathIndex].
    apply Nat.leb_gt in E. repeat split. intros _. lia.
  - intro H. injection H as <-.
    cbn [e_id e_reward e_health e_speed e_pathIndex]. repeat split. auto.
Qed.

Lemma updateEnemies_loop_thinned es :
  thinned es (fst (updateEnemies_loop es)).
Proof.
  induction es as [|e rest IH]; [constructor|].
  cbn [updateEnemies_loop].
  destruct (updateEnemies_loop rest) as [rest' breached]. cbn [fst] in *.
  destruct breached; cbn [fst].
  - constructor; auto.
  - destruct (moveEnemy e) as [e'|] eqn:M; cbn [fst].
    + destruct (moveEnemy_fields _ _ M) as (Hid & Hr & _).
      constructor; auto.
    + apply thinned_drop. exact IH.
Qed.

Lemma updateEnemies_loop_Forall (P : Enemy -> Prop) es :
  (forall e e', moveEnemy e = Some e' -> P e -> P e') ->
  Forall P es -> Forall P (fst (updateEnemies_loop es)).
Proof.
  intros Hmove. induction es as [|e rest IH]; intro H; [constructor|].
  inversion H as [|? ? He Hrest]; subst.
  cbn [updateEnemies_loop]. specialize (IH Hrest).
  destruct (updateEnemies_loop rest) as [rest' breached]. cbn [fst] in *.
  destruct breached; cbn [fst].
  - constructor; assumption.
  - destruct (moveEnemy e) as [e'|] eqn:M; cbn [fst].
    + constructor; [eapply Hmove; eassumption|exact IH].
    + exact IH.
Qed.

Lemma updateEnemies_fields s :
  enemies (updateEnemies s) = fst (updateEnemies_loop (enemies s))
  /\ money (updateEnemies s) = money s
  /\ towers (updateEnemies s) = towers s
  /\ projectiles (updateEnemies s) = projectiles s.
Proof.
  unfold updateEnemies.
  destruct (updateEnemies_loop (enemies s)) as [es b].
  destruct b; repeat split.
Qed.

Lemma checkWaveCompletion_fields s :
  enemies (checkWaveCompletion s) = enemies s
  /\ money (checkWaveCompletion s) = money s
  /\ towers (checkWaveCompletion s) = towers s
  /\ projectiles (checkWaveCompletion s) = projectiles s
  /\ nextEnemy (checkWaveCompletion s) = nextEnemy s
  /\ wave (checkWaveCompletion s) = wave s
  /\ selectedTower (checkWaveCompletion s) = selectedTower s.
Proof.
  unfold checkWaveCompletion.
  destruct (completionCondition s); repeat split.
Qed.

End Marching.

(** ** The enemies of every reachable state are well formed *)

Section EnemyInvariant.

Context {host : Math}.

Lemma updateEnemies_wellFormed s :
  enemiesWellFormed s -> enemiesWellFormed (updateEnemies s).
Proof.
  unfold enemiesWellFormed. intros (N & H1 & H2 & H3).
  assert (Hn : nextEnemy (updateEnemies s) = nextEnemy s).
  { unfold updateEnemies.
    destruct (updateEnemies_loop (enemies s)) as [es b].
    destruct b; reflexivity. }
  rewrite Hn, (proj1 (updateEnemies_fields s)).
  repeat split.
  - eapply thinned_NoDup; [apply updateEnemies_loop_thinned|exact N].
  - apply updateEnemies_loop_Forall; [|exact H1].
    intros e e' M He. destruct (moveEnemy_fields _ _ M) as (-> & _). exact He.
  - apply updateEnemies_loop_Forall; [|exact H2].
    intros e e' M He. destruct (moveEnemy_fields _ _ M) as (_ & _ & _ & _ & H).
    auto.
  - apply updateEnemies_loop_Forall; [|exact H3].
    intros e e' M He. destruct (moveEnemy_fields _ _ M) as (_ & -> & _).
    exact He.
Qed.

Lemma updateTowers_nextEnemy now rand s :
  nextEnemy (updateTowers now rand s) = nextEnemy s.
Proof.
  unfold updateTowers.
  destruct (updateTowers_loop now rand 0 (towers s) (fieldOf s)) as [ts st].
  reflexivity.
Qed.

Lemma updateProjectiles_nextEnemy s :
  nextEnemy (updateProjectiles s) = nextEnemy s.
Proof.
  unfold updateProjectiles.
  destruct (updateProjectiles_loop (projectiles s) (fieldOf s)) as [ps st].
  reflexivity.
Qed.

Lemma updateTowers_wellFormed now rand s :
  enemiesWellFormed s -> enemiesWellFormed (updateTowers now rand s).
Proof.
  unfold enemiesWellFormed. intros (N & H1 & H2 & H3).
  rewrite updateTowers_nextEnemy. repeat split.
  - exact (proj1 (proj1 (updateTowers_settles now rand s N))).
  - apply Forall_updateTowers; [intros h e He; exact He|exact H1].
  - apply Forall_updateTowers; [intros h e He; exact He|exact H2].
  - apply Forall_updateTowers; [intros h e He; exact He|exact H3].
Qed.

Lemma updateProjectiles_wellFormed s :
  enemiesWellFormed s -> enemiesWellFormed (updateProjectiles s).
Proof.
  unfold enemiesWellFormed. intros (N & H1 & H2 & H3).
  rewrite updateProjectiles_nextEnemy. repeat split.
  - exact (proj1 (proj1 (updateProjectiles_settles s N))).
  - apply Forall_updateProjectiles; [intros h e He; exact He|exact H1].
  - apply Forall_updateProjectiles; [intros h e He; exact He|exact H2].
  - apply Forall_updateProjectiles; [intros h e He; exact He|exact H3].
Qed.

Lemma update_wellFormed now rand s :
  enemiesWellFormed s -> enemiesWellFormed (update now rand s).
Proof.
  intro H. unfold update.
  apply updateProjectiles_wellFormed, updateTowers_wellFormed,
    updateEnemies_wellFormed.
  unfold enemiesWellFormed in *.
  destruct (checkWaveCompletion_fields s) as (-> & _ & _ & _ & -> & _).
  exact H.
Qed.

End EnemyInvariant.

(** ** Enemies and purse along every run *)

Section Ledger.

Context {host : Math}.

Lemma rewardPool_nonneg es :
  Forall (fun e => 0 <= e_reward e) es -> 0 <= rewardPool es.
Proof.
  unfold rewardPool. induction 1 as [|e es He _ IH]; cbn; lia.
Qed.

Lemma spawn_reward_nonneg (type : EnemyKind) (w : Z) :
  1 <= w ->
  0 <= Qceiling (inject_Z (ed_reward (enemyTypes type))
                 * (1 + inject_Z (w - 1) * 0.1)).
Proof.
  intro Hw. change 0 with (Qceiling 0). apply Qceiling_resp_le.
  apply Qmult_le_0_compat.
  - destruct type; discriminate.
  - unfold Qle, Qmult, Qplus, inject_Z, Qnum, Qden. lia.
Qed.

Lemma update_money_grows now rand s :
  enemiesWellFormed s -> money s <= money (update now rand s).
Proof.
  intro W. unfold update.
  set (s0 := checkWaveCompletion s).
  assert (W0 : enemiesWellFormed s0).
  { unfold enemiesWellFormed, s0 in *.
    destruct (checkWaveCompletion_fields s) as (-> & _ & _ & _ & -> & _).
    exact W. }
  assert (M0 : money s0 = money s)
    by exact (proj1 (proj2 (checkWaveCompletion_fields s))).
  pose proof (updateEnemies_wellFormed s0 W0) as W1.
  pose proof (proj1 (proj2 (updateEnemies_fields s0))) as M1.
  set (s1 := updateEnemies s0) in *.
  pose proof (updateTowers_wellFormed now rand s1 W1) as W2.
  destruct W1 as (N1 & _ & _ & R1).
  pose proof (settles_money (fieldOf s1) (fieldOf (updateTowers now rand s1))
                N1 (proj1 (updateTowers_settles now rand s1 N1))) as M2.
  set (s2 := updateTowers now rand s1) in *.
  destruct W2 as (N2 & _ & _ & R2).
  pose proof (settles_money (fieldOf s2) (fieldOf (updateProjectiles s2))
                N2 (proj1 (updateProjectiles_settles s2 N2))) as M3.
  cbn [fieldOf f_money f_enemies] in M2, M3.
  assert (P2 := rewardPool_nonneg _
            (incl_Forall (incl_filter
               (fun e => negb (includes (e_id e) (enemies s2))) (enemies s1))
               R1)).
  assert (P3 := rewardPool_nonneg _
            (incl_Forall (incl_filter
               (fun e => negb (includes (e_id e)
                                 (enemies (updateProjectiles s2))))
               (enemies s2)) R2)).
  lia.
Qed.

Lemma newTower_data x y kind : t_data (newTower x y kind) = towerTypes kind.
Proof. destruct kind; reflexivity. Qed.

Lemma findTimer_In h s t : findTimer h s = Some t -> In t (timers s) /\ tm_handle t = h.
Proof.
  unfold findTimer. intro H. apply find_some in H.
  destruct H as [Hin Heq]. apply Nat.eqb_eq in Heq. auto.
Qed.

Lemma wellFormedEnemies_spawn n es enemy :
  wellFormedEnemies n es ->
  e_id enemy = n -> e_pathIndex enemy = 0%nat -> 0 <= e_reward enemy ->
  wellFormedEnemies (S n) (es ++ [enemy]).
Proof.
  intros (N & L & I & R) Hid Hidx Hr. unfold wellFormedEnemies, ids.
  rewrite map_app. cbn [map]. repeat split.
  - apply NoDup_app. repeat split.
    + exact N.
    + repeat constructor. intros [].
    + intros a Ha [<-|[]]. apply in_map_iff in Ha.
      destruct Ha as (e & He & Hin).
      rewrite Forall_forall in L. specialize (L e Hin). lia.
  - apply Forall_app. split.
    + eapply Forall_impl; [|exact L]. cbn. intros; lia.
    + constructor; [lia|constructor].
  - apply Forall_app. split; [exact I|]. constructor; [|constructor].
    rewrite Hidx. cbn. lia.
  - apply Forall_app. split; [exact R|]. constructor; [exact Hr|constructor].
Qed.

Lemma startWave_rest (s : State) :
  nextEnemy (startWave s) = nextEnemy s
  /\ selectedTower (startWave s) = selectedTower s
  /\ towers (startWave s) = towers s
  /\ projectiles (startWave s) = projectiles s
  /\ waveTimeout (startWave s) = waveTimeout s
  /\ lives (startWave s) = lives s
  /\ isPlaying (startWave s) = isPlaying s
  /\ gameScreen (startWave s) = gameScreen s
  /\ waveStarted (startWave s) = waveStarted s
  /\ preparationPhase (startWave s) = preparationPhase s
  /\ preparationTimer (startWave s) = preparationTimer s.
Proof.
  destruct s as [m l w ip sel ts es ps wt esi gsc pp pt df wc ws tms nh ne].
  unfold startWave, calculateWaveDifficulty, setTimer, clearTimer.
  destruct esi; destruct (10 <? _); repeat split.
Qed.

Lemma Forall_updateTimer (P : Timer -> Prop) h cb ts :
  (forall d, P (mkTimer h d cb)) ->
  Forall P ts ->
  Forall P (map (fun t => if Nat.eqb (tm_handle t) h
                          then mkTimer h (tm_delay t) cb else t) ts).
Proof.
  intros Hcb H. induction H as [|t ts Ht _ IH]; cbn [map]; constructor;
    [|exact IH].
  destruct (Nat.eqb _ _); [apply Hcb|exact Ht].
Qed.

Lemma Forall_clearTimer (P : Timer -> Prop) h ts :
  Forall P ts ->
  Forall P (filter (fun t => negb (Nat.eqb (tm_handle t) h)) ts).
Proof. apply incl_Forall, incl_filter. Qed.

Lemma step_ledger ev s :
  enemiesWellFormed s /\ purseWellFormed s ->
  enemiesWellFormed (step ev s) /\ purseWellFormed (step ev s).
Proof.
  intros [W P]. destruct ev as [|kind|x y|now rand|h rand| | |];
    cbn [step].
  - (* startGame *)
    destruct s as [m l w ip sel ts es ps wt esi gsc pp pt df wc ws tms nh ne].
    unfold enemiesWellFormed, purseWellFormed in *.
    unfold startGame, setTimer. st_cbn. st_cbn_in W. st_cbn_in P.
    destruct P as (_ & Pm & Psel & Pt). split; [exact W|].
    repeat split; try assumption; try lia.
    apply Forall_app. split; [exact Pt|]. repeat constructor.
  - (* selectTower *)
    unfold selectTower.
    destruct (andb _ _) eqn:E; [|tauto].
    apply andb_true_iff in E. destruct E as [_ E]. apply Z.leb_le in E.
    destruct s as [m l w ip sel ts es ps wt esi gsc pp pt df wc ws tms nh ne].
    unfold enemiesWellFormed, purseWellFormed in *.
    st_cbn. st_cbn_in W. st_cbn_in P. st_cbn_in E. tauto.
  - (* handleCanvasClick *)
    unfold handleCanvasClick.
    destruct (isPlaying s); [|tauto].
    destruct (selectedTower s) as [kind|] eqn:S; [|tauto].
    destruct (isPositionValid _ _ s); [|tauto].
    unfold placeTower. rewrite newTower_data.
    destruct s as [m l w ip sel ts es ps wt esi gsc pp pt df wc ws tms nh ne].
    unfold enemiesWellFormed, purseWellFormed in *.
    st_cbn. st_cbn_in W. st_cbn_in P. st_cbn_in S. subst sel.
    split; [exact W|]. repeat split; try tauto. lia.
  - (* gameLoop *)
    unfold gameLoop.
    destruct (gameScreen s); try tauto. destruct (isPlaying s); [|tauto].
    split; [apply update_wellFormed; exact W|].
    pose proof (update_money_grows now rand s W) as M.
    destruct (update_control now rand s)
      as (Hw & Hsel & _ & _ & _ & _ & _ & _ & _ & _ & Ht & _).
    unfold purseWellFormed in *. rewrite Hw, Hsel, Ht.
    destruct P as (Pw & Pm & Psel & Pt).
    repeat split; try lia.
    + destruct (selectedTower s); [lia|exact I].
    + unfold checkWaveCompletion.
      destruct (completionCondition s); [|exact Pt].
      destruct s as [m l w ip sel ts es ps wt esi gsc pp pt df wc ws tms nh ne].
      unfold setTimer. st_cbn. st_cbn_in Pt. st_cbn_in Pw.
      repeat (apply Forall_app; split); [exact Pt| |];
        repeat constructor. unfold nonnegBonus. cbn [tm_callback]. lia.
  - (* fireTimer *)
    unfold fireTimer. destruct (findTimer h s) as [t|] eqn:F; [|tauto].
    apply findTimer_In in F. destruct F as [Hin Hh].
    destruct (tm_callback t) as [|spawned count|bonus|n] eqn:C.
    + (* preparation *)
      unfold firePrep. cbv zeta.
      destruct (_ <=? 0).
      * destruct (startWave_timers
                    (set_waveStarted true
                       (set_preparationPhase false
                          (clearTimer h
                             (set_preparationTimer (preparationTimer s - 1) s)))))
          as (Ht & _ & _ & _ & Hw & He & Hm).
        unfold enemiesWellFormed, purseWellFormed in *.
        rewrite Ht, Hw, He, Hm.
        match goal with |- context [startWave ?x] =>
          destruct (startWave_rest x) as (Hn & Hsel & _) end.
        rewrite Hn, Hsel.
        destruct s as [m l w ip sel ts es ps wt esi gsc pp pt df wc ws tms nh ne].
        unfold clearTimer. st_cbn. st_cbn_in W. st_cbn_in P.
        split; [exact W|]. destruct P as (Pw & Pm & Psel & Pt).
        repeat split; try assumption.
        apply Forall_app. split; [|repeat constructor].
        eapply incl_Forall; [apply incl_filter|].
        eapply incl_Forall; [apply incl_filter|]. exact Pt.
      * destruct s as [m l w ip sel ts es ps wt esi gsc pp pt df wc ws tms nh ne].
        exact (conj W P).
    + (* spawn *)
      unfold fireSpawn. destruct (count <=? spawned).
      * destruct s as [m l w ip sel ts es ps wt esi gsc pp pt df wc ws tms nh ne].
        unfold enemiesWellFormed, purseWellFormed, clearTimer in *.
        destruct esi; st_cbn; st_cbn_in W; st_cbn_in P;
          (split; [exact W|]); destruct P as (Pw & Pm & Psel & Pt);
          repeat split; try assumption.
        apply Forall_clearTimer. exact Pt.
      * cbv zeta.
        pose proof (spawn_reward_nonneg (selectEnemyTypeForWave (wave s) rand)
                      (wave s) (proj1 P)) as R.
        destruct s as [m l w ip sel ts es ps wt esi gsc pp pt df wc ws tms nh ne].
        unfold enemiesWellFormed, purseWellFormed, updateTimer, spawnEnemy in *.
        st_cbn. st_cbn_in W. st_cbn_in P. st_cbn_in R. split.
        -- apply wellFormedEnemies_spawn; [exact W|reflexivity|reflexivity|].
           exact R.
        -- destruct P as (Pw & Pm & Psel & Pt).
           repeat split; try assumption.
           apply Forall_updateTimer; [intro; exact I|exact Pt].
    + (* bonus *)
      assert (B : 0 <= bonus).
      { destruct P as (_ & _ & _ & Pt). rewrite Forall_forall in Pt.
        specialize (Pt t Hin). unfold nonnegBonus in Pt. rewrite C in Pt.
        exact Pt. }
      destruct s as [m l w ip sel ts es ps wt esi gsc pp pt df wc ws tms nh ne].
      unfold enemiesWellFormed, purseWellFormed, fireBonus, clearTimer in *.
      st_cbn. st_cbn_in W. st_cbn_in P. split; [exact W|].
      destruct P as (Pw & Pm & Psel & Pt).
      repeat split; try lia.
      -- destruct sel; [lia|exact I].
      -- apply Forall_clearTimer. exact Pt.
    + (* countdown *)
      unfold fireCountdown. cbv zeta.
      destruct (n - 1 <=? 0).
      * match goal with |- context [startWave ?x] => set (s1 := x) end.
        destruct (startWave_timers s1) as (Ht & _ & _ & _ & Hw & He & Hm).
        destruct (startWave_rest s1) as (Hn & Hsel & _).
        unfold enemiesWellFormed, purseWellFormed in *.
        rewrite Ht, Hw, He, Hm, Hn, Hsel. subst s1.
        destruct s as [m l w ip sel ts es ps wt esi gsc pp pt df wc ws tms nh ne].
        unfold clearTimer, updateTimer. st_cbn. st_cbn_in W. st_cbn_in P.
        split; [exact W|]. destruct P as (Pw & Pm & Psel & Pt).
        repeat split; try assumption; try lia.
        apply Forall_app. split; [|repeat constructor].
        eapply incl_Forall; [apply incl_filter|].
        apply Forall_clearTimer.
        apply Forall_updateTimer; [intro; exact I|exact Pt].
      * destruct s as [m l w ip sel ts es ps wt esi gsc pp pt df wc ws tms nh ne].
        unfold enemiesWellFormed, purseWellFormed, updateTimer in *.
        st_cbn. st_cbn_in W. st_cbn_in P. split; [exact W|].
        destruct P as (Pw & Pm & Psel & Pt).
        repeat split; try assumption.
        apply Forall_updateTimer; [intro; exact I|exact Pt].
  - (* restartClick *)
    destruct s as [m l w ip sel ts es ps wt esi gsc pp pt df wc ws tms nh ne].
    unfold enemiesWellFormed, purseWellFormed, restartClick, resetGame,
      clearTimer in *.
    destruct P as (Pw & Pm & Psel & Pt). st_cbn_in Pt.
    destruct esi; destruct wt; st_cbn;
      (split; [repeat split; constructor|]);
      repeat split; try lia;
      repeat apply Forall_clearTimer; exact Pt.
  - destruct s as [m l w ip sel ts es ps wt esi gsc pp pt df wc ws tms nh ne].
    exact (conj W P).
  - destruct s as [m l w ip sel ts es ps wt esi gsc pp pt df wc ws tms nh ne].
    exact (conj W P).
Qed.

End Ledger.

(** ** Towers and projectiles along every run *)

Section Arsenal.

Context {host : Math}.

Lemma atRest_newTower x y kind : atRest (newTower x y kind) = newTower x y kind.
Proof. destruct kind; reflexivity. Qed.

Lemma newTower_site x y kind :
  t_x (newTower x y kind) = x /\ t_y (newTower x y kind) = y.
Proof. destruct kind; split; reflexivity. Qed.

Lemma placed_newTower x y kind : placed (newTower x y kind).
Proof.
  exists kind. destruct (newTower_site x y kind) as [-> ->].
  apply atRest_newTower.
Qed.

Lemma atRest_aimAt now tower target :
  atRest (aimAt now tower target) = atRest tower.
Proof. reflexivity. Qed.

Lemma placed_type tower :
  placed tower ->
  String.eqb (t_type tower) "sniper" = false
  /\ String.eqb (t_type tower) "bomber" = false.
Proof.
  intros [kind H].
  assert (E : t_type tower = t_type (newTower (t_x tower) (t_y tower) kind)).
  { rewrite <- H. reflexivity. }
  rewrite E. destruct kind; split; reflexivity.
Qed.

Lemma placed_attack tower target rand st :
  placed tower ->
  attack tower target rand st = createStandardProjectile tower target st.
Proof.
  intro P. destruct (placed_type tower P) as [Hs Hb].
  unfold attack. rewrite Hs, Hb. reflexivity.
Qed.

(** One tower of the loop, when the tower is as placed: the aim state may
    change, the enemies and the money do not, and at most one standard
    projectile is appended. *)
Lemma towerStep_placed now rand tower st :
  placed tower ->
  atRest (fst (towerStep now rand tower st)) = atRest tower
  /\ f_enemies (snd (towerStep now rand tower st)) = f_enemies st
  /\ f_money (snd (towerStep now rand tower st)) = f_money st
  /\ (f_projectiles (snd (towerStep now rand tower st)) = f_projectiles st
      \/ exists p, standardShot p
           /\ f_projectiles (snd (towerStep now rand tower st))
              = f_projectiles st ++ [p]).
Proof.
  intro P. unfold towerStep.
  destruct (onCooldown now tower); [cbn [fst snd]; auto|].
  destruct (acquireTarget tower (f_enemies st)) as [[target|] d];
    [|cbn [fst snd]; auto].
  cbn [fst snd].
  assert (P' : placed (aimAt now tower target)).
  { destruct P as [kind H]. exists kind. rewrite atRest_aimAt. exact H. }
  rewrite (placed_attack _ target rand st P').
  destruct (createStandardProjectile_field (aimAt now tower target) target st)
    as (He & Hm & px & py & Hp).
  repeat split; try assumption. right. eexists. split; [|exact Hp].
  repeat split. cbn [p_type]. apply (placed_type _ P').
Qed.

Lemma updateTowers_loop_placed now rand ts :
  forall i st,
    Forall placed ts ->
    Forall2 (fun t t' => atRest t' = atRest t)
            ts (fst (updateTowers_loop now rand i ts st))
    /\ f_enemies (snd (updateTowers_loop now rand i ts st)) = f_enemies st
    /\ f_money (snd (updateTowers_loop now rand i ts st)) = f_money st
    /\ (Forall standardShot (f_projectiles st) ->
        Forall standardShot
          (f_projectiles (snd (updateTowers_loop now rand i ts st)))).
Proof.
  induction ts as [|tower rest IH]; intros i st H.
  - cbn. repeat split; auto.
  - inversion H as [|? ? Ht Hrest]; subst.
    destruct (towerStep_placed now (rand i) tower st Ht)
      as (Ha & He & Hm & Hp).
    cbn [updateTowers_loop].
    destruct (towerStep now (rand i) tower st) as [tower' st1].
    cbn [fst snd] in *.
    destruct (IH (S i) st1 Hrest) as (IHa & IHe & IHm & IHp).
    destruct (updateTowers_loop now rand (S i) rest st1) as [rest' st2].
    cbn [fst snd] in *. repeat split.
    + constructor; assumption.
    + congruence.
    + congruence.
    + intro S. apply IHp. destruct Hp as [->|(p & Sp & ->)]; [exact S|].
      apply Forall_app. split; [exact S|]. constructor; [exact Sp|constructor].
Qed.

Lemma retarget_fields p es :
  p_type (retarget p es) = p_type p
  /\ p_explosionRadius (retarget p es) = p_explosionRadius p
  /\ p_falloff (retarget p es) = p_falloff p
  /\ p_damage (retarget p es) = p_damage p
  /\ p_target (retarget p es) = p_target p.
Proof.
  unfold retarget. destruct (findEnemy _ _); repeat split.
Qed.

Lemma projectileStep_standardShot p st p' :
  standardShot p -> fst (projectileStep p st) = Some p' -> standardShot p'.
Proof.
  intros (Ht & Hr & Hf). unfold projectileStep. cbv zeta.
  destruct (Qltb _ 5); cbn [fst]; [discriminate|].
  intro E. injection E as <-. unfold standardShot.
  cbn [p_type p_explosionRadius p_falloff].
  destruct (retarget_fields p (f_enemies st)) as (-> & -> & -> & _).
  auto.
Qed.

Lemma updateProjectiles_loop_standardShot ps :
  forall st,
    Forall standardShot ps ->
    Forall standardShot (fst (updateProjectiles_loop ps st)).
Proof.
  induction ps as [|p rest IH]; intros st H; [constructor|].
  inversion H as [|? ? Hp Hrest]; subst.
  cbn [updateProjectiles_loop]. specialize (IH st Hrest).
  destruct (updateProjectiles_loop rest st) as [rest' st1].
  pose proof (projectileStep_standardShot p st1) as S.
  destruct (projectileStep p st1) as [[p'|] st2]; cbn [fst] in *.
  - constructor; [apply S; auto|exact IH].
  - exact IH.
Qed.

Lemma Forall2_Forall {A} (S : A -> A -> Prop) (P : A -> Prop) l l' :
  (forall a a', S a a' -> P a -> P a') ->
  Forall2 S l l' -> Forall P l -> Forall P l'.
Proof.
  intros HS H. induction H as [|a a' l l' Ha _ IH]; intro F;
    [constructor|].
  inversion F; subst. constructor; eauto.
Qed.

Lemma Forall2_ForallOrdPairs {A} (S : A -> A -> Prop) (R : A -> A -> Prop)
    l l' :
  (forall a a' b b', S a a' -> S b b' -> R a b -> R a' b') ->
  Forall2 S l l' -> ForallOrdPairs R l -> ForallOrdPairs R l'.
Proof.
  intros HS H. induction H as [|a a' l l' Ha Hl IH]; intro F;
    [constructor|].
  inversion F as [|? ? Fa Fl]; subst. constructor; [|auto].
  clear IH Fl F. induction Hl as [|b b' l l' Hb _ IH]; [constructor|].
  inversion Fa; subst. constructor; eauto.
Qed.

Lemma ForallOrdPairs_snoc {A} (R : A -> A -> Prop) l x :
  ForallOrdPairs R l -> Forall (fun a => R a x) l ->
  ForallOrdPairs R (l ++ [x]).
Proof.
  induction 1 as [|a l Ha _ IH]; intro F; cbn [app].
  - repeat constructor.
  - inversion F; subst. constructor; [|auto].
    apply Forall_app. split; [exact Ha|]. constructor; [assumption|constructor].
Qed.

Lemma atRest_site t t' :
  atRest t' = atRest t -> t_x t' = t_x t /\ t_y t' = t_y t.
Proof.
  intro H. split.
  - change (t_x (atRest t') = t_x (atRest t)). rewrite H. reflexivity.
  - change (t_y (atRest t') = t_y (atRest t)). rewrite H. reflexivity.
Qed.

Lemma updateTowers_arsenal now rand s :
  towers (updateTowers now rand s)
  = fst (updateTowers_loop now rand 0 (towers s) (fieldOf s))
  /\ projectiles (updateTowers now rand s)
     = f_projectiles (snd (updateTowers_loop now rand 0 (towers s) (fieldOf s))).
Proof.
  unfold updateTowers.
  destruct (updateTowers_loop now rand 0 (towers s) (fieldOf s)) as [ts st].
  split; reflexivity.
Qed.

Lemma updateProjectiles_arsenal s :
  towers (updateProjectiles s) = towers s
  /\ projectiles (updateProjectiles s)
     = fst (updateProjectiles_loop (projectiles s) (fieldOf s)).
Proof.
  unfold updateProjectiles.
  destruct (updateProjectiles_loop (projectiles s) (fieldOf s)) as [ps st].
  split; reflexivity.
Qed.

Lemma apart_atRest a a' b b' :
  atRest a' = atRest a -> atRest b' = atRest b -> apart a b -> apart a' b'.
Proof.
  intros Ha Hb. apply atRest_site in Ha, Hb.
  destruct Ha as [Hax Hay], Hb as [Hbx Hby].
  unfold apart, overlapsTower. rewrite Hax, Hay, Hbx, Hby. auto.
Qed.

Lemma onSite_atRest a a' : atRest a' = atRest a -> onSite a -> onSite a'.
Proof.
  intros Ha. apply atRest_site in Ha. destruct Ha as [Hax Hay].
  unfold onSite. rewrite Hax, Hay. auto.
Qed.

Lemma placed_atRest a a' : atRest a' = atRest a -> placed a -> placed a'.
Proof.
  intros Ha [kind H]. exists kind. rewrite Ha.
  apply atRest_site in Ha. destruct Ha as [-> ->]. exact H.
Qed.

Lemma update_arsenal now rand s :
  arsenalWellFormed s -> arsenalWellFormed (update now rand s).
Proof.
  intros (P & A & O & Sh). unfold update.
  set (s1 := updateEnemies (checkWaveCompletion s)).
  assert (T1 : towers s1 = towers s).
  { unfold s1. rewrite (proj1 (proj2 (proj2 (updateEnemies_fields _)))).
    apply (checkWaveCompletion_fields s). }
  assert (P1 : projectiles s1 = projectiles s).
  { unfold s1. rewrite (proj2 (proj2 (proj2 (updateEnemies_fields _)))).
    apply (checkWaveCompletion_fields s). }
  destruct (updateProjectiles_arsenal (updateTowers now rand s1)) as [Ht Hp].
  destruct (updateTowers_arsenal now rand s1) as [Ht' Hp'].
  rewrite <- T1 in P, A, O. rewrite <- P1 in Sh.
  destruct (updateTowers_loop_placed now rand (towers s1) 0 (fieldOf s1) P)
    as (F2 & _ & _ & S2).
  unfold arsenalWellFormed. rewrite Ht, Hp, Ht', Hp'. repeat split.
  - eapply Forall2_Forall; [|exact F2|exact P].
    intros a a'. apply placed_atRest.
  - eapply Forall2_ForallOrdPairs; [|exact F2|exact A].
    intros a a' b b'. apply apart_atRest.
  - eapply Forall2_Forall; [|exact F2|exact O].
    intros a a'. apply onSite_atRest.
  - apply updateProjectiles_loop_standardShot. apply S2. exact Sh.
Qed.

Lemma fireTimer_arsenal h rand s :
  towers (fireTimer h rand s) = towers s
  /\ projectiles (fireTimer h rand s) = projectiles s.
Proof.
  unfold fireTimer. destruct (findTimer h s) as [t|]; [|auto].
  destruct (tm_callback t) as [|spawned count|bonus|n].
  - unfold firePrep. cbv zeta. destruct (_ <=? 0).
    + match goal with |- context [startWave ?x] =>
        destruct (startWave_rest x) as (_ & _ & -> & -> & _) end.
      destruct s; split; reflexivity.
    + destruct s; split; reflexivity.
  - unfold fireSpawn. destruct (count <=? spawned).
    + destruct s as [m l w ip sel ts es ps wt esi gsc pp pt df wc ws tms nh ne].
      destruct esi; split; reflexivity.
    + destruct s; split; reflexivity.
  - destruct s; split; reflexivity.
  - unfold fireCountdown. cbv zeta. destruct (n - 1 <=? 0).
    + match goal with |- context [startWave ?x] =>
        destruct (startWave_rest x) as (_ & _ & -> & -> & _) end.
      destruct s; split; reflexivity.
    + destruct s; split; reflexivity.
Qed.

Lemma isPositionValid_true x y s :
  isPositionValid x y s = true ->
  outOfBounds x y = false
  /\ existsb (overlapsTower x y) (towers s) = false
  /\ forallb (segmentClear x y) (segments path) = true.
Proof.
  unfold isPositionValid.
  destruct (outOfBounds x y); [discriminate|].
  destruct (existsb _ _); [discriminate|]. auto.
Qed.

Lemma step_arsenal ev s :
  arsenalWellFormed s -> arsenalWellFormed (step ev s).
Proof.
  intro W. destruct ev as [|kind|x y|now rand|h rand| | |]; cbn [step].
  - destruct s; exact W.
  - unfold selectTower. destruct (andb _ _); [|exact W]. destruct s; exact W.
  - unfold handleCanvasClick.
    destruct (isPlaying s); [|exact W].
    destruct (selectedTower s) as [kind|]; [|exact W].
    destruct (isPositionValid _ _ s) eqn:V; [|exact W].
    apply isPositionValid_true in V. destruct V as (Vb & Vo & Vp).
    set (gridX := (inject_Z (Qfloor (x / gridSize)) * gridSize)%Q) in *.
    set (gridY := (inject_Z (Qfloor (y / gridSize)) * gridSize)%Q) in *.
    destruct W as (P & A & O & Sh).
    assert (E : towers (set_selectedTower None (placeTower gridX gridY kind s))
                = towers s ++ [newTower gridX gridY kind]).
    { destruct s; reflexivity. }
    assert (E' : projectiles
                   (set_selectedTower None (placeTower gridX gridY kind s))
                 = projectiles s).
    { destruct s; reflexivity. }
    unfold arsenalWellFormed. rewrite E, E'.
    destruct (newTower_site gridX gridY kind) as [Hx Hy].
    repeat split.
    + apply Forall_app. split; [exact P|].
      constructor; [apply placed_newTower|constructor].
    + apply ForallOrdPairs_snoc; [exact A|].
      unfold apart. rewrite Hx, Hy. apply existsb_false_Forall. exact Vo.
    + apply Forall_app. split; [exact O|]. constructor; [|constructor].
      unfold onSite. rewrite Hx, Hy. repeat split; try assumption.
      exists (Qfloor (x / gridSize)), (Qfloor (y / gridSize)).
      split; reflexivity.
    + exact Sh.
  - unfold gameLoop.
    destruct (gameScreen s); try exact W. destruct (isPlaying s); [|exact W].
    apply update_arsenal. exact W.
  - unfold arsenalWellFormed in *.
    destruct (fireTimer_arsenal h rand s) as [-> ->]. exact W.
  - unfold arsenalWellFormed.
    assert (E : towers (restartClick s) = [] /\ projectiles (restartClick s) = []).
    { destruct s as [m l w ip sel ts es ps wt esi gsc pp pt df wc ws tms nh ne].
      unfold restartClick, resetGame. destruct esi; destruct wt;
        split; reflexivity. }
    destruct E as [-> ->]. repeat split; constructor.
  - destruct s; exact W.
  - destruct s; exact W.
Qed.

End Arsenal.

(** ** The timer table along every run *)

Section TimerTable.

Context {host : Math}.

Lemma handles_retag h cb ts :
  map tm_handle (map (retag h cb) ts) = map tm_handle ts.
Proof.
  induction ts as [|t ts IH]; [reflexivity|]. cbn [map]. rewrite IH.
  f_equal. unfold retag. destruct (Nat.eqb _ _) eqn:E; [|reflexivity].
  apply Nat.eqb_eq in E. symmetry. exact E.
Qed.

Lemma handles_keepOthers h ts :
  map tm_handle (filter (keepOthers h) ts)
  = filter (fun h' => negb (Nat.eqb h' h)) (map tm_handle ts).
Proof.
  induction ts as [|t ts IH]; [reflexivity|]. cbn [filter map].
  unfold keepOthers at 1. destruct (negb _); cbn [map]; rewrite IH;
    reflexivity.
Qed.

Lemma spawners_keepOthers h ts :
  map tm_handle (filter isSpawner (filter (keepOthers h) ts))
  = filter (fun h' => negb (Nat.eqb h' h))
           (map tm_handle (filter isSpawner ts)).
Proof.
  induction ts as [|t ts IH]; [reflexivity|]. cbn [filter].
  unfold keepOthers at 1.
  destruct (negb (Nat.eqb (tm_handle t) h)) eqn:E; cbn [filter];
    destruct (isSpawner t); cbn [map filter]; rewrite ?E, IH; reflexivity.
Qed.

Lemma NoDup_filter_nat (f : nat -> bool) l : NoDup l -> NoDup (filter f l).
Proof.
  induction 1 as [|a l Ha _ IH]; cbn [filter]; [constructor|].
  destruct (f a); [|exact IH]. constructor; [|exact IH].
  intro H. apply filter_In in H. tauto.
Qed.

Lemma same_handle_same_timer ts t t' :
  NoDup (map tm_handle ts) -> In t ts -> In t' ts ->
  tm_handle t = tm_handle t' -> t = t'.
Proof.
  induction ts as [|a ts IH]; intros N Ht Ht' E; [destruct Ht|].
  cbn [map] in N. inversion N as [|? ? Hnot N']; subst.
  destruct Ht as [<-|Ht], Ht' as [<-|Ht'].
  - reflexivity.
  - exfalso. apply Hnot. rewrite E. apply in_map. exact Ht'.
  - exfalso. apply Hnot. rewrite <- E. apply in_map. exact Ht.
  - auto.
Qed.

(** Assigning a closure variable of a timer that keeps its kind leaves the
    spawners of the table where they are. *)
Lemma spawners_retag h cb ts t :
  NoDup (map tm_handle ts) -> In t ts -> tm_handle t = h ->
  isSpawner t = isSpawner (mkTimer h 0 cb) ->
  map tm_handle (filter isSpawner (map (retag h cb) ts))
  = map tm_handle (filter isSpawner ts).
Proof.
  intros N Hin Hh Hk.
  assert (K : forall a, In a ts -> isSpawner (retag h cb a) = isSpawner a
                                   /\ tm_handle (retag h cb a) = tm_handle a).
  { intros a Ha. unfold retag. destruct (Nat.eqb _ _) eqn:E; [|auto].
    apply Nat.eqb_eq in E.
    assert (a = t) by (eapply same_handle_same_timer; eauto; congruence).
    subst a. split; [|symmetry; exact E]. rewrite Hk. reflexivity. }
  clear N Hin Hh Hk. induction ts as [|a ts IH]; [reflexivity|].
  cbn [map filter]. destruct (K a (or_introl eq_refl)) as [-> Ha].
  destruct (isSpawner a); cbn [map]; rewrite ?Ha, IH; auto;
    intros; apply K; right; assumption.
Qed.

Lemma filter_other_handles h l :
  ~ In h l -> filter (fun h' => negb (Nat.eqb h' h)) l = l.
Proof.
  induction l as [|a l IH]; intro H; [reflexivity|]. cbn [filter].
  destruct (Nat.eqb a h) eqn:E.
  - apply Nat.eqb_eq in E. exfalso. apply H. left. exact E.
  - cbn [negb]. rewrite IH; [reflexivity|]. intro. apply H. right. assumption.
Qed.

(** Clearing the handle of a timer that is not a spawner. *)
Lemma spawners_clear_other h ts t :
  NoDup (map tm_handle ts) -> In t ts -> tm_handle t = h ->
  isSpawner t = false ->
  map tm_handle (filter isSpawner (filter (keepOthers h) ts))
  = map tm_handle (filter isSpawner ts).
Proof.
  intros N Hin Hh Hk. rewrite spawners_keepOthers.
  apply filter_other_handles. intro H. apply in_map_iff in H.
  destruct H as (t' & Hh' & Hin'). apply filter_In in Hin'.
  destruct Hin' as [Hin' Hs].
  assert (t' = t) by (eapply same_handle_same_timer; eauto; congruence).
  subst t'. congruence.
Qed.

Lemma timerTable_clear_other ts n sp h t :
  timerTable ts n sp -> In t ts -> tm_handle t = h -> isSpawner t = false ->
  timerTable (filter (keepOthers h) ts) n sp.
Proof.
  intros (N & L & S) Hin Hh Hk. repeat split.
  - rewrite handles_keepOthers. apply NoDup_filter_nat. exact N.
  - eapply incl_Forall; [apply incl_filter|exact L].
  - rewrite (spawners_clear_other h ts t N Hin Hh Hk). exact S.
Qed.

Lemma timerTable_clear_spawner ts n h :
  timerTable ts n (Some h) -> timerTable (filter (keepOthers h) ts) n None.
Proof.
  intros (N & L & S). repeat split.
  - rewrite handles_keepOthers. apply NoDup_filter_nat. exact N.
  - eapply incl_Forall; [apply incl_filter|exact L].
  - rewrite spawners_keepOthers, S. cbn [filter].
    rewrite Nat.eqb_refl. reflexivity.
Qed.

Lemma timerTable_retag ts n sp h cb t :
  timerTable ts n sp -> In t ts -> tm_handle t = h ->
  isSpawner t = isSpawner (mkTimer h 0 cb) ->
  timerTable (map (retag h cb) ts) n sp.
Proof.
  intros (N & L & S) Hin Hh Hk. repeat split.
  - rewrite handles_retag. exact N.
  - apply Forall_forall. intros a Ha. apply in_map_iff in Ha.
    destruct Ha as (a' & <- & Ha'). rewrite Forall_forall in L.
    specialize (L a' Ha'). unfold retag.
    destruct (Nat.eqb _ _) eqn:E; [|exact L].
    apply Nat.eqb_eq in E. cbn [tm_handle]. rewrite <- E. exact L.
  - rewrite (spawners_retag h cb ts t N Hin Hh Hk). exact S.
Qed.

Lemma timerTable_fresh ts n sp :
  timerTable ts n sp -> ~ In n (map tm_handle ts).
Proof.
  intros (_ & L & _) H. apply in_map_iff in H. destruct H as (t & Ht & Hin).
  rewrite Forall_forall in L. specialize (L t Hin). lia.
Qed.

Lemma timerTable_add ts n sp d cb :
  timerTable ts n sp ->
  timerTable (ts ++ [mkTimer n d cb]) (S n)
    (if isSpawner (mkTimer n d cb)
     then match sp with Some h => None | None => Some n end
     else sp)
  \/ (isSpawner (mkTimer n d cb) = true /\ exists h, sp = Some h).
Proof.
  intro T. pose proof (timerTable_fresh _ _ _ T) as Fr.
  destruct T as (N & L & S).
  destruct (isSpawner (mkTimer n d cb)) eqn:K.
  - destruct sp as [h|]; [right; eauto|]. left. repeat split.
    + rewrite map_app. cbn [map tm_handle]. apply NoDup_app. repeat split.
      * exact N.
      * constructor; [intros []|constructor].
      * intros a Ha [<-|[]]. exact (Fr Ha).
    + apply Forall_app. split.
      * eapply Forall_impl; [|exact L]. cbn. intros; lia.
      * constructor; [cbn; lia|constructor].
    + rewrite filter_app, map_app, S. cbn [filter]. rewrite K. reflexivity.
  - left. repeat split.
    + rewrite map_app. cbn [map tm_handle]. apply NoDup_app. repeat split.
      * exact N.
      * constructor; [intros []|constructor].
      * intros a Ha [<-|[]]. exact (Fr Ha).
    + apply Forall_app. split.
      * eapply Forall_impl; [|exact L]. cbn. intros; lia.
      * constructor; [cbn; lia|constructor].
    + rewrite filter_app, map_app, S. cbn [filter]. rewrite K.
      cbn [map]. apply app_nil_r.
Qed.

Lemma timerTable_add_other ts n sp d cb :
  timerTable ts n sp -> isSpawner (mkTimer n d cb) = false ->
  timerTable (ts ++ [mkTimer n d cb]) (S n) sp.
Proof.
  intros T K. destruct (timerTable_add ts n sp d cb T) as [H|[H _]].
  - rewrite K in H. exact H.
  - congruence.
Qed.

Lemma timerTable_add_spawner ts n d k c :
  timerTable ts n None ->
  timerTable (ts ++ [mkTimer n d (spawnInterval k c)]) (S n) (Some n).
Proof.
  intros T.
  destruct (timerTable_add ts n None d (spawnInterval k c) T)
    as [H|(_ & h & H)]; [exact H|discriminate].
Qed.

Lemma startWave_timersWellFormed s :
  timersWellFormed s -> timersWellFormed (startWave s).
Proof.
  destruct s as [m l w ip sel ts es ps wt esi gsc pp pt df wc ws tms nh ne].
  unfold timersWellFormed, startWave, calculateWaveDifficulty, setTimer,
    clearTimer.
  intros [Hwt T]. st_cbn_in Hwt. st_cbn_in T.
  destruct esi as [h|]; destruct (10 <? _); st_cbn;
    (split; [exact Hwt|]); apply timerTable_add_spawner;
    try exact T; apply (timerTable_clear_spawner _ _ _ T).
Qed.

Lemma checkWaveCompletion_timersWellFormed s :
  timersWellFormed s -> timersWellFormed (checkWaveCompletion s).
Proof.
  unfold checkWaveCompletion. destruct (completionCondition s); [|auto].
  destruct s as [m l w ip sel ts es ps wt esi gsc pp pt df wc ws tms nh ne].
  unfold timersWellFormed, setTimer. st_cbn. intros [Hwt T].
  split; [exact Hwt|].
  apply timerTable_add_other; [|reflexivity].
  apply timerTable_add_other; [exact T|reflexivity].
Qed.

Lemma step_timers ev s :
  timersWellFormed s -> timersWellFormed (step ev s).
Proof.
  intro W. destruct ev as [|kind|x y|now rand|h rand| | |]; cbn [step].
  - destruct s as [m l w ip sel ts es ps wt esi gsc pp pt df wc ws tms nh ne].
    unfold timersWellFormed, startGame, setTimer in *. st_cbn. st_cbn_in W.
    destruct W as [Hwt T]. split; [exact Hwt|].
    apply timerTable_add_other; [exact T|reflexivity].
  - unfold selectTower. destruct (andb _ _); [|exact W]. destruct s; exact W.
  - unfold handleCanvasClick.
    destruct (isPlaying s); [|exact W].
    destruct (selectedTower s) as [kind|]; [|exact W].
    destruct (isPositionValid _ _ s); [|exact W].
    destruct s; exact W.
  - unfold gameLoop.
    destruct (gameScreen s); try exact W. destruct (isPlaying s); [|exact W].
    apply checkWaveCompletion_timersWellFormed in W.
    destruct (update_control now rand s)
      as (_ & _ & Hwt & Hesi & _ & _ & _ & _ & _ & _ & Ht & Hn & _).
    unfold timersWellFormed in *. rewrite Hwt, Hesi, Ht, Hn.
    replace (waveTimeout s) with (waveTimeout (checkWaveCompletion s)).
    replace (enemySpawnInterval s)
      with (enemySpawnInterval (checkWaveCompletion s)).
    exact W.
    all: unfold checkWaveCompletion; destruct (completionCondition s);
      destruct s; reflexivity.
  - unfold fireTimer. destruct (findTimer h s) as [t|] eqn:F; [|exact W].
    apply findTimer_In in F. destruct F as [Hin Hh].
    destruct (tm_callback t) as [|spawned count|bonus|n] eqn:C.
    + unfold firePrep. cbv zeta. destruct (_ <=? 0).
      * apply startWave_timersWellFormed.
        destruct s as [m l w ip sel ts es ps wt esi gsc pp pt df wc ws tms nh ne].
        unfold timersWellFormed, clearTimer in *. st_cbn. st_cbn_in W.
        st_cbn_in Hin. destruct W as [Hwt T]. split; [exact Hwt|].
        apply (timerTable_clear_other _ _ _ h t T Hin Hh).
        unfold isSpawner. rewrite C. reflexivity.
      * destruct s; exact W.
    + assert (Hs : enemySpawnInterval s = Some h).
      { destruct W as (_ & _ & _ & S).
        assert (I : In h (map tm_handle (filter isSpawner (timers s)))).
        { rewrite <- Hh. apply in_map. apply filter_In. split; [exact Hin|].
          unfold isSpawner. rewrite C. reflexivity. }
        rewrite S in I. destruct (enemySpawnInterval s); [|destruct I].
        destruct I as [->|[]]. reflexivity. }
      unfold fireSpawn. destruct (count <=? spawned).
      * rewrite Hs.
        destruct s as [m l w ip sel ts es ps wt esi gsc pp pt df wc ws tms nh ne].
        unfold timersWellFormed, clearTimer in *. st_cbn. st_cbn_in W.
        st_cbn_in Hs. subst esi. destruct W as [Hwt T]. split; [exact Hwt|].
        apply (timerTable_clear_spawner _ _ _ T).
      * cbv zeta.
        destruct s as [m l w ip sel ts es ps wt esi gsc pp pt df wc ws tms nh ne].
        unfold timersWellFormed, updateTimer, spawnEnemy in *. st_cbn.
        st_cbn_in W. st_cbn_in Hin. destruct W as [Hwt T].
        split; [exact Hwt|].
        apply (timerTable_retag _ _ _ h _ t T Hin Hh).
        unfold isSpawner. rewrite C. reflexivity.
    + destruct s as [m l w ip sel ts es ps wt esi gsc pp pt df wc ws tms nh ne].
      unfold timersWellFormed, fireBonus, clearTimer in *. st_cbn.
      st_cbn_in W. st_cbn_in Hin. destruct W as [Hwt T].
      split; [exact Hwt|].
      apply (timerTable_clear_other _ _ _ h t T Hin Hh).
      unfold isSpawner. rewrite C. reflexivity.
    + unfold fireCountdown. cbv zeta.
      assert (R : timersWellFormed (updateTimer h (countdownInterval (n - 1)) s)
                  /\ In (retag h (countdownInterval (n - 1)) t)
                       (timers (updateTimer h (countdownInterval (n - 1)) s))).
      { destruct s as [m l w ip sel ts es ps wt esi gsc pp pt df wc ws tms nh ne].
        unfold timersWellFormed, updateTimer in *. st_cbn. st_cbn_in W.
        st_cbn_in Hin. destruct W as [Hwt T]. split.
        - split; [exact Hwt|].
          apply (timerTable_retag _ _ _ h _ t T Hin Hh).
          unfold isSpawner. rewrite C. reflexivity.
        - apply (in_map (retag h (countdownInterval (n - 1)))). exact Hin. }
      destruct R as [R Rin].
      destruct (n - 1 <=? 0); [|exact R].
      apply startWave_timersWellFormed.
      set (s1 := updateTimer h (countdownInterval (n - 1)) s) in *.
      clearbody s1.
      destruct s1 as [m l w ip sel ts es ps wt esi gsc pp pt df wc ws tms nh ne].
      unfold timersWellFormed, clearTimer in *. st_cbn. st_cbn_in R.
      st_cbn_in Rin. destruct R as [Hwt T]. split; [exact Hwt|].
      apply (timerTable_clear_other _ _ _ h _ T Rin).
      * unfold retag. rewrite Hh, Nat.eqb_refl. reflexivity.
      * unfold retag. rewrite Hh, Nat.eqb_refl. reflexivity.
  - destruct s as [m l w ip sel ts es ps wt esi gsc pp pt df wc ws tms nh ne].
    unfold timersWellFormed, restartClick, resetGame, clearTimer in *.
    st_cbn_in W. destruct W as [Hwt T]. subst wt.
    destruct esi as [h|]; st_cbn; (split; [reflexivity|]).
    + apply (timerTable_clear_spawner _ _ _ T).
    + exact T.
  - destruct s; exact W.
  - destruct s; exact W.
Qed.

End TimerTable.

(** ** Invariants of every run *)

Section Runs.

Context {host : Math}.

Lemma run_invariant (P : State -> Prop) :
  (forall ev s, P s -> P (step ev s)) ->
  forall evs s, P s -> P (run evs s).
Proof.
  intros Hstep evs. unfold run.
  induction evs as [|ev evs IH]; intros s H; cbn [fold_left]; auto.
Qed.

Lemma run_app evs evs' s : run (evs ++ evs') s = run evs' (run evs s).
Proof. unfold run. apply fold_left_app. Qed.

Lemma run_reachable evs : reachable (run evs initialState).
Proof.
  apply run_invariant; [|constructor]. intros ev s H. constructor. exact H.
Qed.

Lemma initial_ledger :
  enemiesWellFormed initialState /\ purseWellFormed initialState.
Proof.
  split.
  - repeat split; constructor.
  - unfold purseWellFormed. cbn. repeat split; try lia. constructor.
Qed.

Lemma run_ledger evs :
  enemiesWellFormed (run evs initialState)
  /\ purseWellFormed (run evs initialState).
Proof.
  apply (run_invariant (fun s => enemiesWellFormed s /\ purseWellFormed s)).
  - apply step_ledger.
  - apply initial_ledger.
Qed.

Lemma run_timers evs : timersWellFormed (run evs initialState).
Proof.
  apply run_invariant; [apply step_timers|].
  split; [reflexivity|]. repeat split; constructor.
Qed.

Lemma run_arsenal evs : arsenalWellFormed (run evs initialState).
Proof.
  apply run_invariant; [apply step_arsenal|].
  repeat split; constructor.
Qed.

End Runs.

(** ** No defeated enemy stays on the field *)

Section Alive.

Context {host : Math}.

(** The host's logarithm is not negative from one on. *)
Hypothesis log10_nonneg : forall q : Q, (1 <= q)%Q -> (0 <= Math_log10 q)%Q.

Lemma calculateWaveDifficulty_factor s :
  1 <= wave s -> (1 <= difficultyFactor (calculateWaveDifficulty s))%Q.
Proof.
  intro Hw.
  assert (B : (1 <= 1 + inject_Z (wave s - 1) * 0.15)%Q).
  { unfold Qle, Qmult, Qplus, inject_Z, Qnum, Qden. lia. }
  unfold calculateWaveDifficulty. cbv zeta.
  destruct (10 <? wave s) eqn:E.
  - apply Z.ltb_lt in E.
    assert (L : (0 <= Math_log10 (inject_Z (wave s - 9)) * 0.5)%Q).
    { apply Qmult_le_0_compat; [|discriminate]. apply log10_nonneg.
      unfold Qle, inject_Z, Qnum, Qden. lia. }
    destruct s as [m l w ip sel ts es ps wt esi gsc pp pt df wc ws tms nh ne].
    cbn [difficultyFactor set_difficultyFactor wave] in *.
    rewrite <- (Qplus_0_r 1).
    apply Qplus_le_compat; [rewrite Qplus_0_r; exact B|exact L].
  - destruct s. exact B.
Qed.

Lemma spawn_health_positive (type : EnemyKind) (factor : Q) :
  (1 <= factor)%Q ->
  0 < Qfloor (inject_Z (ed_health (enemyTypes type)) * factor).
Proof.
  intro H.
  assert (L : (inject_Z (ed_health (enemyTypes type))
               <= inject_Z (ed_health (enemyTypes type)) * factor)%Q).
  { rewrite <- (Qmult_1_r (inject_Z _)) at 1.
    apply Qmult_le_l; [destruct type; reflexivity|exact H]. }
  apply Qfloor_resp_le in L. rewrite Qfloor_Z in L.
  destruct type; cbn [enemyTypes ed_health] in *; lia.
Qed.

Lemma startWave_fieldAlive s :
  1 <= wave s -> fieldAlive s -> fieldAlive (startWave s).
Proof.
  intros Hw [A D]. split.
  - rewrite (proj1 (proj2 (proj2 (proj2 (proj2 (proj2 (startWave_timers s))))))).
    exact A.
  - pose proof (calculateWaveDifficulty_factor s Hw) as F.
    destruct s as [m l w ip sel ts es ps wt esi gsc pp pt df wc ws tms nh ne].
    unfold startWave, calculateWaveDifficulty, setTimer, clearTimer in *.
    destruct esi; destruct (10 <? _); exact F.
Qed.

Lemma update_fieldAlive now rand s :
  enemiesWellFormed s -> fieldAlive s -> fieldAlive (update now rand s).
Proof.
  intros W [A D]. split.
  - unfold update.
    set (s0 := checkWaveCompletion s).
    assert (W0 : enemiesWellFormed s0).
    { unfold enemiesWellFormed, s0 in *.
      destruct (checkWaveCompletion_fields s) as (-> & _ & _ & _ & -> & _).
      exact W. }
    assert (A0 : Forall alive (enemies s0)).
    { unfold s0. rewrite (proj1 (checkWaveCompletion_fields s)). exact A. }
    pose proof (updateEnemies_wellFormed s0 W0) as W1.
    assert (A1 : Forall alive (enemies (updateEnemies s0))).
    { rewrite (proj1 (updateEnemies_fields s0)).
      apply updateEnemies_loop_Forall; [|exact A0].
      intros e e' M He. unfold alive.
      destruct (moveEnemy_fields _ _ M) as (_ & _ & -> & _). exact He. }
    set (s1 := updateEnemies s0) in *.
    pose proof (updateTowers_wellFormed now rand s1 W1) as W2.
    pose proof (proj2 (updateTowers_settles now rand s1 (proj1 W1)) A1) as A2.
    exact (proj2 (updateProjectiles_settles _ (proj1 W2)) A2).
  - rewrite (proj1 (proj2 (proj2 (proj2 (proj2 (proj2 (proj2 (proj2
               (update_control now rand s))))))))).
    exact D.
Qed.

Lemma step_fieldAlive ev s :
  enemiesWellFormed s -> purseWellFormed s ->
  fieldAlive s -> fieldAlive (step ev s).
Proof.
  intros W P A. destruct ev as [|kind|x y|now rand|h rand| | |]; cbn [step].
  - destruct s; exact A.
  - unfold selectTower. destruct (andb _ _); [|exact A]. destruct s; exact A.
  - unfold handleCanvasClick.
    destruct (isPlaying s); [|exact A].
    destruct (selectedTower s) as [kind|]; [|exact A].
    destruct (isPositionValid _ _ s); [|exact A].
    destruct s; exact A.
  - unfold gameLoop.
    destruct (gameScreen s); try exact A. destruct (isPlaying s); [|exact A].
    apply update_fieldAlive; assumption.
  - unfold fireTimer. destruct (findTimer h s) as [t|]; [|exact A].
    destruct (tm_callback t) as [|spawned count|bonus|n].
    + unfold firePrep. cbv zeta. destruct (_ <=? 0).
      * apply startWave_fieldAlive.
        -- destruct s; exact (proj1 P).
        -- destruct s; exact A.
      * destruct s; exact A.
    + unfold fireSpawn. destruct (count <=? spawned).
      * destruct s as [m l w ip sel ts es ps wt esi gsc pp pt df wc ws tms nh ne].
        destruct esi; exact A.
      * cbv zeta. destruct A as [A D].
        pose proof (spawn_health_positive
                      (selectEnemyTypeForWave (wave s) rand) _ D) as Hh.
        destruct s as [m l w ip sel ts es ps wt esi gsc pp pt df wc ws tms nh ne].
        unfold fieldAlive, updateTimer, spawnEnemy in *.
        st_cbn. st_cbn_in A. st_cbn_in D. st_cbn_in Hh.
        split; [|exact D]. apply Forall_app. split; [exact A|].
        constructor; [exact Hh|constructor].
    + destruct s; exact A.
    + unfold fireCountdown. cbv zeta. destruct (n - 1 <=? 0).
      * apply startWave_fieldAlive.
        -- destruct P as [Pw _]. destruct s. st_cbn. st_cbn_in Pw. lia.
        -- destruct s; exact A.
      * destruct s; exact A.
  - destruct s as [m l w ip sel ts es ps wt esi gsc pp pt df wc ws tms nh ne].
    unfold fieldAlive, restartClick, resetGame.
    destruct esi; destruct wt; st_cbn; (split; [constructor|discriminate]).
  - destruct s; exact A.
  - destruct s; exact A.
Qed.

Lemma run_fieldAlive evs : fieldAlive (run evs initialState).
Proof.
  assert (H : (enemiesWellFormed (run evs initialState)
               /\ purseWellFormed (run evs initialState))
              /\ fieldAlive (run evs initialState)).
  { apply (run_invariant
             (fun s => (enemiesWellFormed s /\ purseWellFormed s)
                       /\ fieldAlive s)).
    - intros ev s [[W P] A]. split; [apply step_ledger; auto|].
      apply step_fieldAlive; assumption.
    - split; [apply initial_ledger|]. split; [constructor|discriminate]. }
  exact (proj2 H).
Qed.

End Alive.

(** ** Timers run to their end *)

Section Schedules.

Context {host : Math}.

Lemma find_retag h cb ts t :
  find (fun t => Nat.eqb (tm_handle t) h) ts = Some t ->
  find (fun t => Nat.eqb (tm_handle t) h) (map (retag h cb) ts)
  = Some (mkTimer h (tm_delay t) cb).
Proof.
  induction ts as [|a ts IH]; [discriminate|]. cbn [find map].
  destruct (Nat.eqb (tm_handle a) h) eqn:E.
  - intro H. injection H as <-.
    assert (R : retag h cb a = mkTimer h (tm_delay a) cb)
      by (unfold retag; rewrite E; reflexivity).
    rewrite R. cbn [tm_handle]. rewrite Nat.eqb_refl. reflexivity.
  - assert (R : retag h cb a = a) by (unfold retag; rewrite E; reflexivity).
    rewrite R, E. exact IH.
Qed.

Lemma find_keepOthers_same h ts :
  find (fun t => Nat.eqb (tm_handle t) h) (filter (keepOthers h) ts) = None.
Proof.
  induction ts as [|a ts IH]; [reflexivity|]. cbn [filter].
  unfold keepOthers at 1. destruct (Nat.eqb (tm_handle a) h) eqn:E;
    cbn [negb]; [exact IH|]. cbn [find]. rewrite E. exact IH.
Qed.

Lemma find_app_fresh h ts t :
  find (fun t => Nat.eqb (tm_handle t) h) ts = None ->
  tm_handle t <> h ->
  find (fun t => Nat.eqb (tm_handle t) h) (ts ++ [t]) = None.
Proof.
  intros H Hne. induction ts as [|a ts IH]; cbn [app find] in *.
  - apply Nat.eqb_neq in Hne. rewrite Hne. reflexivity.
  - destruct (Nat.eqb (tm_handle a) h); [discriminate|auto].
Qed.

Lemma find_filter_none {A} (f g : A -> bool) l :
  find f l = None -> find f (filter g l) = None.
Proof.
  induction l as [|a l IH]; [reflexivity|]. cbn [find filter].
  destruct (f a) eqn:E; [discriminate|]. intro H.
  destruct (g a); cbn [find]; rewrite ?E; auto.
Qed.

(** One firing of a spawner that has not delivered its count: one enemy
    more, of the kind drawn for the current wave, under the next identity. *)
Lemma fireTimer_spawn_more h d k n r s :
  findTimer h s = Some (mkTimer h d (spawnInterval k n)) ->
  k < n ->
  findTimer h (fireTimer h r s) = Some (mkTimer h d (spawnInterval (k + 1) n))
  /\ enemySpawnInterval (fireTimer h r s) = enemySpawnInterval s
  /\ map e_id (enemies (fireTimer h r s))
     = map e_id (enemies s) ++ [nextEnemy s]
  /\ map e_type (enemies (fireTimer h r s))
     = map e_type (enemies s) ++ [selectEnemyTypeForWave (wave s) r]
  /\ nextEnemy (fireTimer h r s) = S (nextEnemy s)
  /\ wave (fireTimer h r s) = wave s
  /\ money (fireTimer h r s) = money s.
Proof.
  intros F Hk. unfold fireTimer. rewrite F. cbn [tm_callback].
  unfold fireSpawn. destruct (n <=? k) eqn:E; [apply Z.leb_le in E; lia|].
  cbv zeta. unfold findTimer in *.
  destruct s as [m l w ip sel ts es ps wt esi gsc pp pt df wc ws tms nh ne].
  unfold updateTimer, spawnEnemy. st_cbn. st_cbn_in F.
  rewrite !map_app. repeat split.
  exact (find_retag h (spawnInterval (k + 1) n) tms _ F).
Qed.

(** The firing after the last spawn: the stored interval is cleared. *)
Lemma fireTimer_spawn_done h d k n r s :
  findTimer h s = Some (mkTimer h d (spawnInterval k n)) ->
  enemySpawnInterval s = Some h ->
  n <= k ->
  findTimer h (fireTimer h r s) = None
  /\ enemySpawnInterval (fireTimer h r s) = None
  /\ enemies (fireTimer h r s) = enemies s
  /\ nextEnemy (fireTimer h r s) = nextEnemy s
  /\ wave (fireTimer h r s) = wave s
  /\ money (fireTimer h r s) = money s.
Proof.
  intros F S Hk. unfold fireTimer. rewrite F. cbn [tm_callback].
  unfold fireSpawn. destruct (n <=? k) eqn:E; [|apply Z.leb_gt in E; lia].
  rewrite S. unfold findTimer.
  destruct s as [m l w ip sel ts es ps wt esi gsc pp pt df wc ws tms nh ne].
  unfold clearTimer. st_cbn. repeat split.
  apply (find_keepOthers_same h tms).
Qed.

Lemma spawn_run h d n rands :
  forall k s,
    findTimer h s = Some (mkTimer h d (spawnInterval k n)) ->
    enemySpawnInterval s = Some h ->
    Z.of_nat (List.length rands) = n - k ->
    forall r,
      let s' := run (map (EvTimer h) rands ++ [EvTimer h r]) s in
      map e_id (enemies s')
      = map e_id (enemies s) ++ seq (nextEnemy s) (List.length rands)
      /\ map e_type (enemies s')
         = map e_type (enemies s)
           ++ map (selectEnemyTypeForWave (wave s)) rands
      /\ enemySpawnInterval s' = None
      /\ findTimer h s' = None
      /\ wave s' = wave s
      /\ money s' = money s.
Proof.
  induction rands as [|r0 rands IH]; intros k s F S L r s'; subst s'.
  - cbn [List.length] in L. cbn [map app run fold_left step].
    destruct (fireTimer_spawn_done h d k n r s F S ltac:(lia))
      as (F' & S' & E' & _ & W' & M').
    rewrite E'. cbn [List.length seq map]. rewrite !app_nil_r.
    repeat split; assumption.
  - cbn [List.length] in L. cbn [map app]. unfold run. cbn [fold_left step].
    destruct (fireTimer_spawn_more h d k n r0 s F ltac:(lia))
      as (F1 & S1 & I1 & T1 & N1 & W1 & M1).
    rewrite <- S1 in S.
    specialize (IH (k + 1) (fireTimer h r0 s) F1 S ltac:(lia) r).
    cbv zeta in IH. unfold run in IH.
    destruct IH as (I2 & T2 & S2 & F2 & W2 & M2).
    rewrite I2, T2, S2, F2, W2, M2, I1, T1, N1, W1, M1.
    cbn [List.length seq map]. rewrite <- !app_assoc. cbn [app].
    repeat split.
Qed.

Lemma find_retag_none h h' cb ts :
  find (fun t => Nat.eqb (tm_handle t) h') ts = None ->
  find (fun t => Nat.eqb (tm_handle t) h') (map (retag h cb) ts) = None.
Proof.
  induction ts as [|a ts IH]; [reflexivity|]. cbn [find map].
  destruct (Nat.eqb (tm_handle a) h') eqn:E; [discriminate|]. intro H.
  assert (R : tm_handle (retag h cb a) = tm_handle a).
  { unfold retag. destruct (Nat.eqb (tm_handle a) h) eqn:E'; [|reflexivity].
    apply Nat.eqb_eq in E'. symmetry. exact E'. }
  rewrite R, E. auto.
Qed.

Lemma find_app_new h ts t :
  find (fun t => Nat.eqb (tm_handle t) h) ts = None ->
  tm_handle t = h ->
  find (fun t => Nat.eqb (tm_handle t) h) (ts ++ [t]) = Some t.
Proof.
  intros H Hh. induction ts as [|a ts IH]; cbn [app find] in *.
  - rewrite Hh, Nat.eqb_refl. reflexivity.
  - destruct (Nat.eqb (tm_handle a) h); [discriminate|auto].
Qed.

(** The timer [startWave] registers is found under the handle that was next,
    and no handle that was free before is taken by it. *)
Lemma startWave_find s :
  findTimer (nextHandle s) s = None ->
  findTimer (nextHandle s) (startWave s)
  = Some (mkTimer (nextHandle s)
                  (inject_Z (Z.max 300 (1200 - (wave s - 1) * 50)))
                  (spawnInterval 0 ((8 * wave s + 32) / 5)))
  /\ forall h, h <> nextHandle s -> findTimer h s = None ->
               findTimer h (startWave s) = None.
Proof.
  intro F. unfold findTimer in *.
  rewrite (proj1 (startWave_timers s)). split.
  - apply find_app_new; [|reflexivity]. apply find_filter_none. exact F.
  - intros h Hne Fh. apply find_app_fresh; [|cbn; congruence].
    apply find_filter_none. exact Fh.
Qed.

(** A firing of the countdown before its last. *)
Lemma fireTimer_countdown_more h d n r s :
  findTimer h s = Some (mkTimer h d (countdownInterval n)) ->
  1 < n ->
  fireTimer h r s = updateTimer h (countdownInterval (n - 1)) s
  /\ findTimer h (fireTimer h r s)
     = Some (mkTimer h d (countdownInterval (n - 1))).
Proof.
  intros F Hn. unfold fireTimer. rewrite F. cbn [tm_callback].
  unfold fireCountdown. cbv zeta.
  destruct (n - 1 <=? 0) eqn:E; [apply Z.leb_le in E; lia|].
  split; [reflexivity|]. unfold findTimer in *.
  destruct s as [m l w ip sel ts es ps wt esi gsc pp pt df wc ws tms nh ne].
  unfold updateTimer. st_cbn. st_cbn_in F.
  exact (find_retag h _ tms _ F).
Qed.

Lemma updateTimer_frame h cb s :
  wave (updateTimer h cb s) = wave s
  /\ money (updateTimer h cb s) = money s
  /\ enemies (updateTimer h cb s) = enemies s
  /\ nextHandle (updateTimer h cb s) = nextHandle s
  /\ enemySpawnInterval (updateTimer h cb s) = enemySpawnInterval s
  /\ forall h', findTimer h' s = None -> findTimer h' (updateTimer h cb s) = None.
Proof.
  unfold findTimer.
  destruct s as [m l w ip sel ts es ps wt esi gsc pp pt df wc ws tms nh ne].
  unfold updateTimer. st_cbn. repeat split.
  intros h'. apply find_retag_none.
Qed.

(** The last firing of the countdown. *)
Lemma fireTimer_countdown_last h d n r s :
  findTimer h s = Some (mkTimer h d (countdownInterval n)) ->
  n <= 1 ->
  fireTimer h r s
  = startWave (set_waveCompleted false
                 (set_wave (wave s + 1)
                    (clearTimer h (updateTimer h (countdownInterval (n - 1)) s)))).
Proof.
  intros F Hn. unfold fireTimer. rewrite F. cbn [tm_callback].
  unfold fireCountdown. cbv zeta.
  destruct (n - 1 <=? 0) eqn:E; [|apply Z.leb_gt in E; lia].
  rewrite (proj1 (updateTimer_frame h _ s)). reflexivity.
Qed.

Lemma countdown_run h d rands :
  forall n s,
    findTimer h s = Some (mkTimer h d (countdownInterval n)) ->
    findTimer (nextHandle s) s = None ->
    Z.of_nat (List.length rands) = Z.max 1 n ->
    let s' := run (map (EvTimer h) rands) s in
    wave s' = wave s + 1
    /\ waveCompleted s' = false
    /\ enemySpawnInterval s' = Some (nextHandle s)
    /\ findTimer h s' = None
    /\ findTimer (nextHandle s) s'
       = Some (mkTimer (nextHandle s)
                 (inject_Z (Z.max 300 (1200 - wave s * 50)))
                 (spawnInterval 0 ((8 * (wave s + 1) + 32) / 5)))
    /\ enemies s' = enemies s
    /\ money s' = money s.
Proof.
  induction rands as [|r rands IH]; intros n s F Fn L s'; subst s'.
  - cbn [List.length] in L. lia.
  - cbn [List.length] in L. cbn [map]. unfold run. cbn [fold_left step].
    assert (Hne : h <> nextHandle s) by (intros ->; congruence).
    destruct (Z_le_gt_dec n 1) as [Hn|Hn].
    + assert (rands = []) by (destruct rands; [reflexivity|cbn in L; lia]).
      subst rands. cbn [map fold_left].
      rewrite (fireTimer_countdown_last h d n r s F Hn).
      set (s1 := updateTimer h (countdownInterval (n - 1)) s).
      set (s2 := set_waveCompleted false
                   (set_wave (wave s + 1) (clearTimer h s1))).
      destruct (updateTimer_frame h (countdownInterval (n - 1)) s)
        as (Uw & Um & Ue & Un & Us & Uf). fold s1 in Uw, Um, Ue, Un, Us, Uf.
      assert (E2 : wave s2 = wave s + 1 /\ nextHandle s2 = nextHandle s
                   /\ enemies s2 = enemies s /\ money s2 = money s
                   /\ findTimer h s2 = None
                   /\ findTimer (nextHandle s) s2 = None).
      { specialize (Uf _ Fn). unfold s2, findTimer in *. clearbody s1.
        destruct s1 as [m l w ip sel ts es ps wt esi gsc pp pt df wc ws tms nh ne].
        unfold clearTimer. st_cbn. st_cbn_in Un. st_cbn_in Ue. st_cbn_in Um.
        st_cbn_in Uf. repeat split; try assumption.
        - apply (find_keepOthers_same h tms).
        - apply find_filter_none. exact Uf. }
      destruct E2 as (W2 & N2 & En2 & M2 & F2 & Fn2).
      destruct (startWave_timers s2) as (_ & S3 & _ & C3 & W3 & E3 & M3).
      rewrite <- N2 in Fn2.
      destruct (startWave_find s2 Fn2) as [Fnew Fold].
      rewrite N2 in *. rewrite W2 in *.
      rewrite W3, C3, S3, E3, M3, Fnew, (Fold h Hne F2), En2, M2.
      replace (wave s + 1 - 1) with (wave s) by lia.
      repeat split.
    + destruct (fireTimer_countdown_more h d n r s F ltac:(lia)) as [E F1].
      destruct (updateTimer_frame h (countdownInterval (n - 1)) s)
        as (Uw & Um & Ue & Un & Us & Uf).
      rewrite <- E in Uw, Um, Ue, Un, Us, Uf.
      specialize (IH (n - 1) (fireTimer h r s) F1).
      rewrite Un in IH. specialize (IH (Uf _ Fn) ltac:(lia)).
      cbv zeta in IH. unfold run in IH. rewrite Uw, Ue, Um in IH. exact IH.
Qed.

(** A firing of the preparation interval. *)
Lemma fireTimer_prep h d r s :
  findTimer h s = Some (mkTimer h d prepInterval) ->
  fireTimer h r s
  = if preparationTimer s - 1 <=? 0
    then startWave
           (set_waveStarted true
              (set_preparationPhase false
                 (clearTimer h
                    (set_preparationTimer (preparationTimer s - 1) s))))
    else set_preparationTimer (preparationTimer s - 1) s.
Proof.
  intros F. unfold fireTimer. rewrite F. cbn [tm_callback].
  unfold firePrep. cbv zeta.
  destruct s as [m l w ip sel ts es ps wt esi gsc pp pt df wc ws tms nh ne].
  reflexivity.
Qed.

Lemma preparation_run h d rands :
  forall s,
    findTimer h s = Some (mkTimer h d prepInterval) ->
    findTimer (nextHandle s) s = None ->
    Z.of_nat (List.length rands) = Z.max 1 (preparationTimer s) ->
    let s' := run (map (EvTimer h) rands) s in
    waveStarted s' = true
    /\ preparationPhase s' = false
    /\ preparationTimer s' = Z.min 0 (preparationTimer s - 1)
    /\ wave s' = wave s
    /\ enemySpawnInterval s' = Some (nextHandle s)
    /\ findTimer h s' = None
    /\ findTimer (nextHandle s) s'
       = Some (mkTimer (nextHandle s)
                 (inject_Z (Z.max 300 (1200 - (wave s - 1) * 50)))
                 (spawnInterval 0 ((8 * wave s + 32) / 5)))
    /\ enemies s' = enemies s
    /\ money s' = money s.
Proof.
  induction rands as [|r rands IH]; intros s F Fn L s'; subst s'.
  - cbn [List.length] in L. lia.
  - cbn [List.length] in L. cbn [map]. unfold run. cbn [fold_left step].
    assert (Hne : h <> nextHandle s) by (intros ->; congruence).
    rewrite (fireTimer_prep h d r s F).
    destruct (preparationTimer s - 1 <=? 0) eqn:E.
    + apply Z.leb_le in E.
      assert (rands = []) by (destruct rands; [reflexivity|cbn in L; lia]).
      subst rands. cbn [map fold_left].
      match goal with |- context [startWave ?x] => set (s2 := x) end.
      assert (E2 : wave s2 = wave s /\ nextHandle s2 = nextHandle s
                   /\ enemies s2 = enemies s /\ money s2 = money s
                   /\ findTimer h s2 = None
                   /\ findTimer (nextHandle s) s2 = None
                   /\ waveStarted s2 = true /\ preparationPhase s2 = false
                   /\ preparationTimer s2 = preparationTimer s - 1).
      { unfold s2, findTimer in *.
        destruct s as [m l w ip sel ts es ps wt esi gsc pp pt df wc ws tms nh ne].
        unfold clearTimer. st_cbn. st_cbn_in Fn. repeat split.
        - apply (find_keepOthers_same h tms).
        - apply find_filter_none. exact Fn. }
      destruct E2 as (W2 & N2 & En2 & M2 & F2 & Fn2 & Ws2 & Pp2 & Pt2).
      destruct (startWave_timers s2) as (_ & S3 & _ & C3 & W3 & E3 & M3).
      destruct (startWave_rest s2)
        as (_ & _ & _ & _ & _ & _ & _ & _ & Ws3 & Pp3 & Pt3).
      rewrite <- N2 in Fn2.
      destruct (startWave_find s2 Fn2) as [Fnew Fold].
      rewrite N2 in *. rewrite W2 in *.
      rewrite W3, S3, E3, M3, Fnew, (Fold h Hne F2), En2, M2, Ws3, Pp3, Pt3,
        Ws2, Pp2, Pt2.
      repeat split. lia.
    + apply Z.leb_gt in E.
      set (s1 := set_preparationTimer (preparationTimer s - 1) s).
      assert (E1 : findTimer h s1 = Some (mkTimer h d prepInterval)
                   /\ findTimer (nextHandle s1) s1 = None
                   /\ preparationTimer s1 = preparationTimer s - 1
                   /\ wave s1 = wave s /\ nextHandle s1 = nextHandle s
                   /\ enemies s1 = enemies s /\ money s1 = money s).
      { unfold s1, findTimer in *.
        destruct s as [m l w ip sel ts es ps wt esi gsc pp pt df wc ws tms nh ne].
        st_cbn. st_cbn_in F. st_cbn_in Fn. repeat split; assumption. }
      destruct E1 as (F1 & Fn1 & Pt1 & W1 & N1 & En1 & M1).
      specialize (IH s1 F1 Fn1). rewrite Pt1 in IH.
      specialize (IH ltac:(lia)). cbv zeta in IH. unfold run in IH.
      rewrite W1, N1, En1, M1 in IH.
      replace (Z.min 0 (preparationTimer s - 1))
        with (Z.min 0 (preparationTimer s - 1 - 1)) by lia.
      exact IH.
Qed.

End Schedules.

(** ** Frames and the completion of a wave *)

Section Completion.

Context {host : Math}.

Lemma checkWaveCompletion_cases s :
  (completionCondition s = false /\ checkWaveCompletion s = s)
  \/ (waveCompleted s = false
      /\ timers (checkWaveCompletion s)
         = timers s
           ++ [mkTimer (nextHandle s) 1000 (bonusTimeout (20 + wave s * 5));
               mkTimer (S (nextHandle s)) 1000 (countdownInterval 8)]
      /\ nextHandle (checkWaveCompletion s) = S (S (nextHandle s))
      /\ waveCompleted (checkWaveCompletion s) = true).
Proof.
  unfold checkWaveCompletion. destruct (completionCondition s) eqn:C.
  - right. unfold completionCondition in C.
    destruct (waveCompleted s) eqn:W; [discriminate|].
    destruct s as [m l w ip sel ts es ps wt esi gsc pp pt df wc ws tms nh ne].
    unfold setTimer. st_cbn. rewrite <- app_assoc. repeat split.
  - left. auto.
Qed.

Lemma completed_blocks_completion s :
  waveCompleted s = true -> checkWaveCompletion s = s.
Proof.
  intro W. unfold checkWaveCompletion, completionCondition. rewrite W.
  reflexivity.
Qed.

Lemma gameLoop_timers now rand s :
  wave (gameLoop now rand s) = wave s
  /\ ((timers (gameLoop now rand s) = timers s
       /\ nextHandle (gameLoop now rand s) = nextHandle s
       /\ waveCompleted (gameLoop now rand s) = waveCompleted s)
      \/ (waveCompleted s = false
          /\ timers (gameLoop now rand s)
             = timers s
               ++ [mkTimer (nextHandle s) 1000
                     (bonusTimeout (20 + wave s * 5));
                   mkTimer (S (nextHandle s)) 1000 (countdownInterval 8)]
          /\ nextHandle (gameLoop now rand s) = S (S (nextHandle s))
          /\ waveCompleted (gameLoop now rand s) = true)).
Proof.
  unfold gameLoop.
  destruct (gameScreen s); try (split; [reflexivity|left; auto]).
  destruct (isPlaying s); [|split; [reflexivity|left; auto]].
  destruct (update_control now rand s)
    as (Hw & _ & _ & _ & _ & _ & _ & _ & _ & _ & Ht & Hn & Hc).
  split; [exact Hw|]. rewrite Ht, Hn, Hc.
  destruct (checkWaveCompletion_cases s) as [[_ ->]|H]; [left; auto|right; exact H].
Qed.

Lemma frames_after_completion fs :
  forall s,
    waveCompleted s = true ->
    timers (run (frameEvents fs) s) = timers s
    /\ nextHandle (run (frameEvents fs) s) = nextHandle s
    /\ waveCompleted (run (frameEvents fs) s) = true
    /\ wave (run (frameEvents fs) s) = wave s.
Proof.
  induction fs as [|[now rand] fs IH]; intros s W; [cbn; auto|].
  unfold frameEvents, run. cbn [map fold_left step fst snd].
  destruct (gameLoop_timers now rand s) as [Hw [(Ht & Hn & Hc)|(Hc & _)]];
    [|congruence].
  rewrite W in Hc. destruct (IH _ Hc) as (IHt & IHn & IHc & IHw).
  unfold frameEvents, run in *. rewrite IHt, IHn, IHc, IHw. auto.
Qed.

End Completion.

(** ** Reset *)

Section Reset.

Context {host : Math}.

Lemma Qabs_self_lt (x : Q) : Qltb (Qabs (x - x)) gridSize = true.
Proof.
  apply Qltb_lt.
  assert (E : (x - x == 0)%Q) by ring.
  rewrite (Qabs_wd _ _ E). reflexivity.
Qed.

Lemma overlapsTower_self t : overlapsTower (t_x t) (t_y t) t = true.
Proof.
  unfold overlapsTower. rewrite !Qabs_self_lt. reflexivity.
Qed.

End Reset.

(** ** What every run keeps *)

(** X3: over any burst of frames a completed wave is detected at most once:
    either the timer table is left as it was, or exactly one bonus timeout
    of [20 + 5 * wave] and one countdown from 8 are appended, under the two
    next handles, and [waveCompleted] is set.  Once it is set, frames
    register nothing. *)
Theorem frames_schedule_completion_once :
  forall (host : Math) (fs : list (Z * (nat -> Q))) (s : State),
    wave (run (frameEvents fs) s) = wave s
    /\ ((timers (run (frameEvents fs) s) = timers s
         /\ nextHandle (run (frameEvents fs) s) = nextHandle s
         /\ waveCompleted (run (frameEvents fs) s) = waveCompleted s)
        \/ (waveCompleted s = false
            /\ timers (run (frameEvents fs) s)
               = timers s
                 ++ [mkTimer (nextHandle s) 1000
                       (bonusTimeout (20 + wave s * 5));
                     mkTimer (S (nextHandle s)) 1000 (countdownInterval 8)]
            /\ nextHandle (run (frameEvents fs) s) = S (S (nextHandle s))
            /\ waveCompleted (run (frameEvents fs) s) = true)).
Proof.
  intros host fs. induction fs as [|[now rand] fs IH]; intro s.
  - cbn. split; [reflexivity|left; auto].
  - unfold frameEvents, run. cbn [map fold_left step fst snd].
    fold (frameEvents fs). fold (run (frameEvents fs) (gameLoop now rand s)).
    destruct (gameLoop_timers now rand s) as [Hw [(Ht & Hn & Hc)|(Hc & Ht & Hn & Hc')]].
    + destruct (IH (gameLoop now rand s)) as [IHw IHc].
      rewrite Hw, Ht, Hn, Hc in *. split; [exact IHw|exact IHc].
    + destruct (frames_after_completion fs _ Hc') as (Ft & Fn & Fc & Fw).
      rewrite Ft, Fn, Fc, Fw, Hw, Ht, Hn. split; [reflexivity|right; auto].
Qed.

(** X4: in every state a run of events reaches from the initial one, the
    enemies of the field are distinct objects, each allocated before the
    next identity, each on a segment that has an end point in [path] (so
    [path[pathIndex + 1]] is never read past the array), and none carries a
    negative reward. *)
Theorem enemies_distinct_and_on_path :
  forall (host : Math) (evs : list Event),
    NoDup (map e_id (enemies (run evs initialState)))
    /\ Forall (fun e => (e_id e < nextEnemy (run evs initialState))%nat
                        /\ (S (e_pathIndex e) < List.length path)%nat
                        /\ 0 <= e_reward e)
              (enemies (run evs initialState)).
Proof.
  intros host evs. destruct (run_ledger evs) as [(N & L & I & R) _].
  split; [exact N|]. rewrite Forall_forall in *. auto.
Qed.

(** X5: along every run the wave counter stays positive and the money never
    goes negative: a pending selection is always covered by the money, so
    the click that places it cannot overdraw, and no bonus waiting in the
    timer table is negative. *)
Theorem purse_never_overdrawn :
  forall (host : Math) (evs : list Event),
    1 <= wave (run evs initialState)
    /\ 0 <= money (run evs initialState)
    /\ (forall kind,
          selectedTower (run evs initialState) = Some kind ->
          td_cost (towerTypes kind) <= money (run evs initialState))
    /\ (forall h d bonus,
          In (mkTimer h d (bonusTimeout bonus))
             (timers (run evs initialState)) ->
          0 <= bonus)
    /\ forall x y, 0 <= money (handleCanvasClick x y (run evs initialState)).
Proof.
  intros host evs. destruct (run_ledger evs) as [_ (W & M & S & B)].
  repeat split; try assumption.
  - intros kind E. rewrite E in S. exact S.
  - intros h d bonus Hin. rewrite Forall_forall in B.
    exact (B _ Hin).
  - intros x y.
    destruct (run_ledger (evs ++ [EvCanvasClick x y])) as [_ (_ & M' & _)].
    rewrite run_app in M'. exact M'.
Qed.

(** X6: along every run the timer handles are distinct and were issued
    before [nextHandle]; [waveTimeout] is never assigned, so the
    [clearTimeout] branch of [resetGame] never runs; and the spawn intervals
    in the table are exactly the one stored in [enemySpawnInterval]: at most
    one wave spawns at a time, and a stored handle always names a live
    spawner. *)
Theorem timer_table_consistent :
  forall (host : Math) (evs : list Event),
    NoDup (map tm_handle (timers (run evs initialState)))
    /\ Forall (fun t => (tm_handle t < nextHandle (run evs initialState))%nat)
              (timers (run evs initialState))
    /\ waveTimeout (run evs initialState) = None
    /\ map tm_handle (filter isSpawner (timers (run evs initialState)))
       = match enemySpawnInterval (run evs initialState) with
         | Some h => [h]
         | None => []
         end.
Proof.
  intros host evs. destruct (run_timers evs) as (W & N & L & S).
  auto.
Qed.

(** X7: along every run each tower is as [placeTower] built it, apart
    from its aim state, so its [type] is never ["sniper"] nor ["bomber"]:
    [updateTowers] then never changes the enemies or the money, and no
    projectile in flight is a ["bomber"] one or carries an explosion
    radius. *)
Theorem towers_only_fire_standard_projectiles :
  forall (host : Math) (evs : list Event) (now : Z) (rand : nat -> Q),
    Forall (fun t => placed t
                     /\ String.eqb (t_type t) "sniper" = false
                     /\ String.eqb (t_type t) "bomber" = false)
           (towers (run evs initialState))
    /\ Forall standardShot (projectiles (run evs initialState))
    /\ enemies (updateTowers now rand (run evs initialState))
       = enemies (run evs initialState)
    /\ money (updateTowers now rand (run evs initialState))
       = money (run evs initialState).
Proof.
  intros host evs now rand. destruct (run_arsenal evs) as (P & _ & _ & S).
  destruct (updateTowers_fields now rand (run evs initialState)) as [He Hm].
  destruct (updateTowers_loop_placed now rand _ 0
              (fieldOf (run evs initialState)) P) as (_ & He' & Hm' & _).
  rewrite He, Hm, He', Hm'. repeat split; try assumption.
  eapply Forall_impl; [|exact P]. intros t Pt.
  split; [exact Pt|]. apply placed_type. exact Pt.
Qed.

(** X8: along every run each tower stands on a corner of the 40-pixel
    grid, inside the margins and clear of the path, and no tower overlaps
    one that was placed before it. *)
Theorem towers_stand_apart_on_valid_sites :
  forall (host : Math) (evs : list Event),
    ForallOrdPairs apart (towers (run evs initialState))
    /\ Forall onSite (towers (run evs initialState)).
Proof.
  intros host evs. destruct (run_arsenal evs) as (_ & A & O & _). auto.
Qed.

(** X9: no state accepts a second tower on the site of one it holds,
    whatever the rest of the state. *)
Theorem occupied_site_is_refused :
  forall (host : Math) (s : State),
    Forall (fun t => isPositionValid (t_x t) (t_y t) s = false) (towers s).
Proof.
  intros host s. apply Forall_forall. intros t Hin. unfold isPositionValid.
  destruct (outOfBounds _ _); [reflexivity|].
  assert (E : existsb (overlapsTower (t_x t) (t_y t)) (towers s) = true).
  { apply existsb_exists. exists t. split; [exact Hin|].
    apply overlapsTower_self. }
  rewrite E. reflexivity.
Qed.

(** X10: on a host whose [log10] is not negative from one on, no state of
    any run holds an enemy of health zero or less: enemies are spawned with
    positive health, and whatever brings an enemy to zero takes it off the
    field in the same step. *)
Theorem no_defeated_enemy_on_field :
  forall (host : Math),
    (forall q : Q, (1 <= q)%Q -> (0 <= Math_log10 q)%Q) ->
    forall evs : list Event,
      Forall alive (enemies (run evs initialState))
      /\ (1 <= difficultyFactor (run evs initialState))%Q.
Proof.
  intros host Hlog evs. exact (run_fieldAlive Hlog evs).
Qed.

Lemma log10Q_nonneg (q : Q) : (0 <= log10Q q)%Q.
Proof.
  unfold log10Q. apply Qmult_le_0_compat; [|discriminate].
  unfold Qle, inject_Z, Qnum, Qden. pose proof (Z.log2_nonneg (Qfloor q)).
  lia.
Qed.

(** The rational host at the 240 Hz session that ends in a breach. *)
Lemma no_defeated_enemy_on_field_witness :
  (0 <= Math_log10 (Math := rationalMath) 2)%Q
  /\ Forall alive (enemies (run (host := rationalMath) firstWaveAt240Hz
                                initialState)).
Proof.
  split; [apply log10Q_nonneg|].
  exact (proj1 (no_defeated_enemy_on_field rationalMath
                  (fun q _ => log10Q_nonneg q) firstWaveAt240Hz)).
Defined.

(** ** Timers that run to their end *)

(** X11: a spawn interval that has delivered [k] of its [n] enemies and
    is the stored one delivers the other [n - k], one per firing, under fresh
    consecutive identities and of the kinds drawn for the current wave; the
    firing after the last one clears it and the stored handle.  The wave and
    the money are untouched. *)
Theorem spawn_schedule_delivers_the_wave :
  forall (host : Math) (h : nat) (d : Q) (k n : Z) (rands : list Q) (r : Q)
         (s : State),
    findTimer h s = Some (mkTimer h d (spawnInterval k n)) ->
    enemySpawnInterval s = Some h ->
    Z.of_nat (List.length rands) = n - k ->
    map e_id (enemies (run (map (EvTimer h) rands ++ [EvTimer h r]) s))
    = map e_id (enemies s) ++ seq (nextEnemy s) (List.length rands)
    /\ map e_type (enemies (run (map (EvTimer h) rands ++ [EvTimer h r]) s))
       = map e_type (enemies s)
         ++ map (selectEnemyTypeForWave (wave s)) rands
    /\ enemySpawnInterval (run (map (EvTimer h) rands ++ [EvTimer h r]) s)
       = None
    /\ findTimer h (run (map (EvTimer h) rands ++ [EvTimer h r]) s) = None
    /\ wave (run (map (EvTimer h) rands ++ [EvTimer h r]) s) = wave s
    /\ money (run (map (EvTimer h) rands ++ [EvTimer h r]) s) = money s.
Proof.
  intros host h d k n rands r s F S L.
  exact (spawn_run h d n rands k s F S L r).
Qed.

(** The first wave: eight firings spawn enemies 0..7, all basic, and the
    ninth ends the schedule. *)
Lemma spawn_schedule_delivers_the_wave_witness :
  findTimer 2 firstWaveReady = Some (mkTimer 2 (inject_Z 1200) (spawnInterval 0 8))
  /\ enemySpawnInterval firstWaveReady = Some 2%nat
  /\ map e_id (enemies (run (host := rationalMath)
                            (map (EvTimer 2) (repeat 0.5%Q 8) ++ [EvTimer 2 0.5])
                            firstWaveReady))
     = [0; 1; 2; 3; 4; 5; 6; 7]%nat
  /\ enemySpawnInterval (run (host := rationalMath)
                            (map (EvTimer 2) (repeat 0.5%Q 8) ++ [EvTimer 2 0.5])
                            firstWaveReady)
     = None.
Proof.
  assert (F : findTimer 2 firstWaveReady
              = Some (mkTimer 2 (inject_Z 1200) (spawnInterval 0 8)))
    by (vm_compute; reflexivity).
  assert (S : enemySpawnInterval firstWaveReady = Some 2%nat)
    by (vm_compute; reflexivity).
  split; [exact F|]. split; [exact S|].
  destruct (spawn_schedule_delivers_the_wave rationalMath 2 (inject_Z 1200)
              0 8 (repeat 0.5%Q 8) 0.5%Q firstWaveReady F S eq_refl)
    as (I & _ & E & _).
  split; [exact I|exact E].
Defined.

(** X12: a countdown with [n >= 1] ticks left starts the next wave at
    its [n]-th firing and not before: the wave counter goes up by one, the
    countdown leaves the table and [startWave] stores a spawn interval for
    the new wave under the handle that was next.  Enemies and money are
    untouched. *)
Theorem countdown_starts_next_wave :
  forall (host : Math) (h : nat) (d : Q) (n : Z) (rands : list Q) (s : State),
    findTimer h s = Some (mkTimer h d (countdownInterval n)) ->
    findTimer (nextHandle s) s = None ->
    1 <= n ->
    Z.of_nat (List.length rands) = n ->
    (forall rands', (List.length rands' < List.length rands)%nat ->
       wave (run (map (EvTimer h) rands') s) = wave s
       /\ enemySpawnInterval (run (map (EvTimer h) rands') s)
          = enemySpawnInterval s)
    /\ wave (run (map (EvTimer h) rands) s) = wave s + 1
    /\ waveCompleted (run (map (EvTimer h) rands) s) = false
    /\ enemySpawnInterval (run (map (EvTimer h) rands) s)
       = Some (nextHandle s)
    /\ findTimer h (run (map (EvTimer h) rands) s) = None
    /\ findTimer (nextHandle s) (run (map (EvTimer h) rands) s)
       = Some (mkTimer (nextHandle s)
                 (inject_Z (Z.max 300 (1200 - wave s * 50)))
                 (spawnInterval 0 ((8 * (wave s + 1) + 32) / 5)))
    /\ enemies (run (map (EvTimer h) rands) s) = enemies s
    /\ money (run (map (EvTimer h) rands) s) = money s.
Proof.
  intros host h d n rands s F Fn Hn L. split.
  - clear Fn. intros rands' Hl.
    assert (Hk : Z.of_nat (List.length rands') < n) by lia. clear Hl L Hn.
    revert n s F Hk.
    induction rands' as [|r rands' IH]; intros n s F Hk; [cbn; auto|].
    cbn [List.length] in Hk. cbn [map]. unfold run. cbn [fold_left step].
    destruct (fireTimer_countdown_more h d n r s F ltac:(lia)) as [E F1].
    destruct (updateTimer_frame h (countdownInterval (n - 1)) s)
      as (Uw & _ & _ & _ & Us & _).
    rewrite <- E in Uw, Us.
    destruct (IH (n - 1) (fireTimer h r s) F1 ltac:(lia)) as [IHw IHs].
    unfold run in IHw, IHs. rewrite IHw, IHs. auto.
  - apply (countdown_run h d rands n s F Fn). lia.
Qed.

(** Wave 7 detected as complete: eight firings of the countdown (handle 4)
    start wave 8 with [(8 * 8 + 32) / 5 = 19] enemies, one every 850 ms. *)
Lemma countdown_starts_next_wave_witness :
  findTimer 4 waveDetected = Some (mkTimer 4 1000 (countdownInterval 8))
  /\ findTimer (nextHandle waveDetected) waveDetected = None
  /\ wave (run (host := rationalMath) (map (EvTimer 4) (repeat 0%Q 8))
               waveDetected) = 8
  /\ findTimer 5 (run (host := rationalMath) (map (EvTimer 4) (repeat 0%Q 8))
                      waveDetected)
     = Some (mkTimer 5 (inject_Z 850) (spawnInterval 0 19)).
Proof.
  assert (F : findTimer 4 waveDetected
              = Some (mkTimer 4 1000 (countdownInterval 8)))
    by (vm_compute; reflexivity).
  assert (Fn : findTimer (nextHandle waveDetected) waveDetected = None)
    by (vm_compute; reflexivity).
  split; [exact F|]. split; [exact Fn|].
  destruct (countdown_starts_next_wave rationalMath 4 1000 8 (repeat 0%Q 8)
              waveDetected F Fn ltac:(lia) eq_refl)
    as (_ & W & _ & _ & _ & N & _).
  split; [exact W|exact N].
Defined.

(** X13: a preparation interval fired while [preparationTimer] is
    [n >= 1] starts the wave at its [n]-th firing: the preparation phase
    ends, [waveStarted] is set, the interval leaves the table and
    [startWave] stores the spawn interval of the current wave. *)
Theorem preparation_starts_first_wave :
  forall (host : Math) (h : nat) (d : Q) (rands : list Q) (s : State),
    findTimer h s = Some (mkTimer h d prepInterval) ->
    findTimer (nextHandle s) s = None ->
    1 <= preparationTimer s ->
    Z.of_nat (List.length rands) = preparationTimer s ->
    waveStarted (run (map (EvTimer h) rands) s) = true
    /\ preparationPhase (run (map (EvTimer h) rands) s) = false
    /\ preparationTimer (run (map (EvTimer h) rands) s) = 0
    /\ wave (run (map (EvTimer h) rands) s) = wave s
    /\ enemySpawnInterval (run (map (EvTimer h) rands) s)
       = Some (nextHandle s)
    /\ findTimer h (run (map (EvTimer h) rands) s) = None
    /\ findTimer (nextHandle s) (run (map (EvTimer h) rands) s)
       = Some (mkTimer (nextHandle s)
                 (inject_Z (Z.max 300 (1200 - (wave s - 1) * 50)))
                 (spawnInterval 0 ((8 * wave s + 32) / 5)))
    /\ enemies (run (map (EvTimer h) rands) s) = enemies s
    /\ money (run (map (EvTimer h) rands) s) = money s.
Proof.
  intros host h d rands s F Fn Hn L.
  destruct (preparation_run h d rands s F Fn ltac:(lia))
    as (A & B & C & D & E & G & H & I & J).
  repeat split; try assumption. rewrite C. lia.
Qed.

(** A fresh session: five firings of handle 1 start wave 1 with 8 enemies,
    one every 1200 ms. *)
Lemma preparation_starts_first_wave_witness :
  findTimer 1 (startGame initialState) = Some (mkTimer 1 1000 prepInterval)
  /\ findTimer (nextHandle (startGame initialState)) (startGame initialState)
     = None
  /\ preparationTimer (startGame initialState) = 5
  /\ waveStarted (run (host := rationalMath) (map (EvTimer 1) (repeat 0%Q 5))
                      (startGame initialState)) = true
  /\ findTimer 2 (run (host := rationalMath) (map (EvTimer 1) (repeat 0%Q 5))
                      (startGame initialState))
     = Some (mkTimer 2 (inject_Z 1200) (spawnInterval 0 8)).
Proof.
  assert (F : findTimer 1 (startGame initialState)
              = Some (mkTimer 1 1000 prepInterval)) by reflexivity.
  assert (Fn : findTimer (nextHandle (startGame initialState))
                         (startGame initialState) = None) by reflexivity.
  split; [exact F|]. split; [exact Fn|]. split; [reflexivity|].
  destruct (preparation_starts_first_wave rationalMath 1 1000 (repeat 0%Q 5)
              (startGame initialState) F Fn ltac:(vm_compute; discriminate) eq_refl)
    as (W & _ & _ & _ & _ & _ & N & _).
  split; [exact W|exact N].
Defined.

(** ** Reset and movement *)

Lemma resetGame_value (s : State) :
  resetGame s
  = mkState 75 1 1 (isPlaying s) None [] [] [] None None (gameScreen s)
            (preparationPhase s) (preparationTimer s) 1 false false
            (let kept := match enemySpawnInterval s with
                         | Some h => filter (keepOthers h) (timers s)
                         | None => timers s
                         end in
             match waveTimeout s with
             | Some h => filter (keepOthers h) kept
             | None => kept
             end)
            (nextHandle s) (nextEnemy s).
Proof.
  destruct s as [m l w ip sel ts es ps wt esi gsc pp pt df wc ws tms nh ne].
  unfold resetGame. destruct esi; destruct wt; reflexivity.
Qed.

(** X14: [resetGame] restores the economy, the field and the wave flags
    and forgets the stored spawn interval, but leaves [isPlaying], the screen
    and the preparation phase and timer as they were; resetting twice is
    resetting once; and after the restart button no frame changes the
    state, since the screen is the main menu. *)
Theorem resetGame_restores_defaults :
  forall (host : Math) (s : State),
    (money (resetGame s) = 75 /\ lives (resetGame s) = 1
     /\ wave (resetGame s) = 1 /\ difficultyFactor (resetGame s) = 1%Q)
    /\ (towers (resetGame s) = [] /\ enemies (resetGame s) = []
        /\ projectiles (resetGame s) = []
        /\ selectedTower (resetGame s) = None)
    /\ (waveCompleted (resetGame s) = false
        /\ waveStarted (resetGame s) = false
        /\ enemySpawnInterval (resetGame s) = None
        /\ waveTimeout (resetGame s) = None)
    /\ (isPlaying (resetGame s) = isPlaying s
        /\ gameScreen (resetGame s) = gameScreen s
        /\ preparationPhase (resetGame s) = preparationPhase s
        /\ preparationTimer (resetGame s) = preparationTimer s
        /\ nextHandle (resetGame s) = nextHandle s
        /\ nextEnemy (resetGame s) = nextEnemy s)
    /\ resetGame (resetGame s) = resetGame s
    /\ forall fs, run (frameEvents fs) (restartClick s) = restartClick s.
Proof.
  intros host s.
  assert (G : forall fs s', gameScreen s' = mainMenu ->
                            run (frameEvents fs) s' = s').
  { induction fs as [|[now rand] fs IH]; intros s' H; [reflexivity|].
    unfold frameEvents, run in *. cbn [map fold_left step fst snd].
    assert (E : gameLoop now rand s' = s')
      by (unfold gameLoop; rewrite H; reflexivity).
    rewrite E. apply IH. exact H. }
  assert (M : gameScreen (restartClick s) = mainMenu).
  { unfold restartClick. destruct (resetGame s); reflexivity. }
  assert (R : forall fs, run (frameEvents fs) (restartClick s) = restartClick s)
    by (intro fs; apply G; exact M).
  clear G M.
  assert (I : resetGame (resetGame s) = resetGame s).
  { rewrite (resetGame_value (resetGame s)), (resetGame_value s).
    cbn [isPlaying waveTimeout enemySpawnInterval gameScreen preparationPhase
         preparationTimer timers nextHandle nextEnemy].
    reflexivity. }
  split; [|split; [|split; [|split; [|split; [exact I|exact R]]]]];
    rewrite (resetGame_value s); repeat split.
Qed.

(** X15: a step of an enemy keeps its identity, kind, health, speed and
    reward.  When the step takes it onto the next segment its progress
    restarts at 0 and, the position being interpolated on the segment it has
    just left, it is put back on the start of that segment; otherwise its
    progress grows by its speed on the same segment. *)
Theorem waypoint_crossing_restarts_the_segment :
  forall (host : Math) (enemy enemy' : Enemy),
    moveEnemy enemy = Some enemy' ->
    (e_id enemy' = e_id enemy /\ e_type enemy' = e_type enemy
     /\ e_health enemy' = e_health enemy
     /\ e_maxHealth enemy' = e_maxHealth enemy
     /\ e_speed enemy' = e_speed enemy /\ e_reward enemy' = e_reward enemy)
    /\ ((e_pathIndex enemy' = e_pathIndex enemy
         /\ e_progress enemy' = (e_progress enemy + e_speed enemy)%Q)
        \/ (e_pathIndex enemy' = S (e_pathIndex enemy)
            /\ (S (S (e_pathIndex enemy)) < List.length path)%nat
            /\ e_progress enemy' = 0%Q
            /\ (e_x enemy' == pt_x (pathPoint (e_pathIndex enemy)))%Q
            /\ (e_y enemy' == pt_y (pathPoint (e_pathIndex enemy)))%Q)).
Proof.
  intros host enemy enemy'. unfold moveEnemy. cbv zeta.
  destruct (Qleb _ _).
  - destruct (List.length path - 1 <=? S (e_pathIndex enemy))%nat eqn:E;
      [discriminate|].
    apply Nat.leb_gt in E.
    intro H. injection H as <-.
    cbn [e_id e_type e_health e_maxHealth e_speed e_reward e_pathIndex
         e_progress e_x e_y].
    split; [repeat split|]. right.
    split; [reflexivity|]. split; [lia|]. split; [reflexivity|].
    split; unfold Qdiv; rewrite Qmult_0_l, Qmult_0_r, Qplus_0_r; reflexivity.
  - intro H. injection H as <-.
    cbn [e_id e_type e_health e_maxHealth e_speed e_reward e_pathIndex
         e_progress].
    split; [repeat split|]. left. split; reflexivity.
Qed.

(** The enemy at 279 of 280 on the sixth segment: its step takes it to
    segment 6 and puts it at [(600, 120)], the start of the segment it
    left. *)
Lemma waypoint_crossing_restarts_the_segment_witness :
  moveEnemy (host := rationalMath) atWaypoint
  = Some (mkEnemy 0 (600 + 0 * (0 / 280)) (120 + 280 * (0 / 280)) Ebasic
                  40 40 1 10 6 0)
  /\ (e_x (mkEnemy 0 (600 + 0 * (0 / 280)) (120 + 280 * (0 / 280)) Ebasic
                   40 40 1 10 6 0) == 600)%Q.
Proof.
  assert (M : moveEnemy (host := rationalMath) atWaypoint
              = Some (mkEnemy 0 (600 + 0 * (0 / 280)) (120 + 280 * (0 / 280))
                              Ebasic 40 40 1 10 6 0)).
  { vm_compute. reflexivity. }
  split; [exact M|].
  destruct (waypoint_crossing_restarts_the_segment rationalMath _ _ M)
    as [_ [[H _]|(_ & _ & _ & Hx & _)]].
  - discriminate H.
  - exact Hx.
Defined.

(** ** Visual effects *)

Section Effects.

Lemma Qltb_comp a a' b b' :
  (a == a')%Q -> (b == b')%Q -> Qltb a b = Qltb a' b'.
Proof.
  intros Ha Hb. destruct (Qltb a' b') eqn:E.
  - apply Qltb_lt. apply Qltb_lt in E. rewrite Ha, Hb. exact E.
  - apply Qltb_ge. apply Qltb_ge in E. rewrite Ha, Hb. exact E.
Qed.

Lemma tickEffect_lifetime effect :
  match tickEffect effect with
  | Some effect' =>
      Qltb 1 (ef_lifetime effect) = true
      /\ ef_lifetime effect' = (ef_lifetime effect - 1)%Q
      /\ ef_type effect' = ef_type effect
      /\ ef_text effect' = ef_text effect
      /\ ef_color effect' = ef_color effect
      /\ ef_maxRadius effect' = ef_maxRadius effect
      /\ ef_velocity effect' = ef_velocity effect
  | None => Qltb 1 (ef_lifetime effect) = false
  end.
Proof.
  unfold tickEffect. cbv zeta.
  destruct (Qleb (ef_lifetime effect - 1) 0) eqn:E.
  - apply Qltb_ge. apply Qle_bool_iff in E.
    apply Qplus_le_l with (z := (- (1))%Q).
    setoid_replace (1 + - (1))%Q with 0%Q by ring. exact E.
  - destruct (match ef_velocity effect with
              | Some (vx, vy) => _
              | None => _
              end) as [x y].
    cbn [ef_lifetime ef_type ef_text ef_color ef_maxRadius ef_velocity].
    repeat split. apply Qltb_lt.
    assert (H : ~ (ef_lifetime effect - 1 <= 0)%Q).
    { intro H. apply Qle_bool_iff in H. unfold Qleb in E. congruence. }
    apply Qnot_le_lt in H.
    apply Qplus_lt_l with (z := (- (1))%Q).
    setoid_replace (1 + - (1))%Q with 0%Q by ring. exact H.
Qed.

(** One frame: the survivors are the effects with more than one frame to
    live, in their order, each one frame older. *)
Lemma updateEffects_survivors effects :
  Forall2 (fun effect' effect => tickEffect effect = Some effect')
          (updateEffects effects)
          (filter (fun effect => Qltb 1 (ef_lifetime effect)) effects).
Proof.
  induction effects as [|effect rest IH]; [constructor|].
  cbn [updateEffects filter].
  pose proof (tickEffect_lifetime effect) as H.
  destruct (tickEffect effect) as [effect'|] eqn:E.
  - destruct H as [-> _]. constructor; [exact E|exact IH].
  - rewrite H. exact IH.
Qed.

Lemma Forall2_filter {A B} (R : A -> B -> Prop) (p : A -> bool)
    (q : B -> bool) l l' :
  (forall a b, R a b -> p a = q b) ->
  Forall2 R l l' -> Forall2 R (filter p l) (filter q l').
Proof.
  intros H F. induction F as [|a b l l' Hab _ IH]; [constructor|].
  cbn [filter]. rewrite (H a b Hab). destruct (q b); [constructor|]; auto.
Qed.

Lemma Forall2_compose {A B C} (R : A -> B -> Prop) (S : B -> C -> Prop)
    (T : A -> C -> Prop) l1 l2 l3 :
  (forall a b c, R a b -> S b c -> T a c) ->
  Forall2 R l1 l2 -> Forall2 S l2 l3 -> Forall2 T l1 l3.
Proof.
  intros H F. revert l3. induction F as [|a b l1 l2 Hab _ IH]; intros l3 G.
  - inversion G. constructor.
  - inversion G as [|? c ? l3' Hbc G']; subst. constructor; eauto.
Qed.

Lemma filter_filter_both {A} (p q : A -> bool) l :
  (forall a, p a = true -> q a = true) ->
  filter p (filter q l) = filter p l.
Proof.
  intro H. induction l as [|a l IH]; [reflexivity|]. cbn [filter].
  destruct (q a) eqn:Eq; cbn [filter].
  - rewrite IH. reflexivity.
  - destruct (p a) eqn:Ep; [|exact IH]. rewrite (H a Ep) in Eq. discriminate.
Qed.

Lemma inject_Z_S (n : nat) :
  (inject_Z (Z.of_nat (S n)) == inject_Z (Z.of_nat n) + 1)%Q.
Proof.
  rewrite Nat2Z.inj_succ. unfold Z.succ. rewrite inject_Z_plus. reflexivity.
Qed.

Lemma effectsAfter_survivors n effects :
  Forall2 (agedBy (S n))
          (effectsAfter (S n) effects)
          (filter (fun effect =>
                     Qltb (inject_Z (Z.of_nat (S n))) (ef_lifetime effect))
                  effects).
Proof.
  induction n as [|n IH].
  - change (effectsAfter 1 effects) with (updateEffects effects).
    eapply Forall2_impl; [|apply updateEffects_survivors].
    intros effect' effect E. pose proof (tickEffect_lifetime effect) as H.
    rewrite E in H. destruct H as (_ & L & H). unfold agedBy.
    rewrite L. split; [reflexivity|exact H].
  - change (effectsAfter (S (S n)) effects)
      with (updateEffects (effectsAfter (S n) effects)).
    pose proof (updateEffects_survivors (effectsAfter (S n) effects)) as H1.
    assert (C : forall a b,
               agedBy (S n) a b ->
               Qltb 1 (ef_lifetime a)
               = Qltb (inject_Z (Z.of_nat (S (S n)))) (ef_lifetime b)).
    { intros a b (R & _). pose proof (inject_Z_S (S n)) as K.
      destruct (Qltb (inject_Z (Z.of_nat (S (S n)))) (ef_lifetime b)) eqn:E.
      - apply Qltb_lt. apply Qltb_lt in E. lra.
      - apply Qltb_ge. apply Qltb_ge in E. lra. }
    pose proof (Forall2_filter _
                  (fun effect => Qltb 1 (ef_lifetime effect))
                  (fun effect =>
                     Qltb (inject_Z (Z.of_nat (S (S n)))) (ef_lifetime effect))
                  _ _ C IH) as H2.
    cbv beta in H2.
    rewrite filter_filter_both in H2.
    + eapply Forall2_compose; [|exact H1|exact H2].
      intros a b c Hab Hbc. cbv beta in Hab.
      pose proof (tickEffect_lifetime b) as T. rewrite Hab in T.
      destruct T as (_ & L & Ty & Tx & Co & Mx & Ve).
      destruct Hbc as (L' & Ty' & Tx' & Co' & Mx' & Ve').
      unfold agedBy. rewrite L, Ty, Tx, Co, Mx, Ve, L'.
      split; [rewrite (inject_Z_S (S n)); ring|auto].
    + intros a Ha. apply Qltb_lt in Ha. apply Qltb_lt.
      eapply Qle_lt_trans; [|exact Ha].
      rewrite (inject_Z_S (S n)).
      rewrite <- (Qplus_0_r (inject_Z (Z.of_nat (S n)))) at 1.
      apply Qplus_le_r. discriminate.
Qed.

Lemma updateEffects_length effects :
  (List.length (updateEffects effects) <= List.length effects)%nat.
Proof.
  induction effects as [|effect rest IH]; [constructor|].
  cbn [updateEffects List.length]. destruct (tickEffect effect);
    cbn [List.length]; lia.
Qed.

Lemma effectsAfter_length n effects :
  (List.length (effectsAfter n effects) <= List.length effects)%nat.
Proof.
  unfold effectsAfter. induction n as [|n IH]; [constructor|].
  cbn [Nat.iter]. etransitivity; [apply updateEffects_length|exact IH].
Qed.

Lemma effectsAfter_S_single n effect effect' :
  effectsAfter (S n) [effect] = [effect'] ->
  exists now, effectsAfter n [effect] = [now] /\ tickEffect now = Some effect'.
Proof.
  pose proof (effectsAfter_length n [effect]) as L.
  change (effectsAfter (S n) [effect])
    with (updateEffects (effectsAfter n [effect])).
  destruct (effectsAfter n [effect]) as [|now rest].
  - cbn [updateEffects]. discriminate.
  - destruct rest; [|cbn in L; lia].
    cbn [updateEffects].
    destruct (tickEffect now) as [e|] eqn:T; [|discriminate].
    intro H. injection H as <-. exists now. split; [reflexivity|exact T].
Qed.

Lemma tickEffect_step effect effect' :
  tickEffect effect = Some effect' ->
  ~ (ef_lifetime effect - 1 == 0)%Q
  /\ driftedBy 1 effect' effect
  /\ fadedFrom effect' effect
  /\ (if String.eqb (ef_type effect) "explosion" then
        forall radius maxRadius,
          ef_radius effect = Some radius ->
          ef_maxRadius effect = Some maxRadius ->
          ef_radius effect'
          = Some (radius + (maxRadius - radius) / (ef_lifetime effect - 1))%Q
      else ef_radius effect' = ef_radius effect).
Proof.
  unfold tickEffect. cbv zeta.
  destruct (Qleb (ef_lifetime effect - 1) 0) eqn:E; [discriminate|].
  assert (Hnz : ~ (ef_lifetime effect - 1 == 0)%Q).
  { intro H. assert (L : (ef_lifetime effect - 1 <= 0)%Q)
      by (rewrite H; apply Qle_refl).
    apply Qle_bool_iff in L. unfold Qleb in E. congruence. }
  unfold driftedBy, fadedFrom.
  destruct (ef_velocity effect) as [[vx vy]|];
    intro H; injection H as <-;
    cbn [ef_x ef_y ef_alpha ef_radius]; (split; [exact Hnz|]);
    (split; [try (split; reflexivity);
             split; change (inject_Z (Z.of_nat 1)) with 1%Q; ring|]);
    (split; [|destruct (String.eqb (ef_type effect) "explosion");
              [intros radius maxRadius -> ->; reflexivity|reflexivity]]).
  all: intro A; destruct (Qeq_bool (ef_alpha effect) 0);
    [split; [exact A|apply Qle_refl]|];
    unfold Math_max, Qleb;
    destruct (Qle_bool 0 (ef_alpha effect - 0.02)) eqn:M;
    [apply Qle_bool_iff in M; split; [exact M|]
    |split; [apply Qle_refl|exact A]];
    rewrite <- (Qplus_0_r (ef_alpha effect)) at 2;
    apply Qplus_le_r; discriminate.
Qed.

Lemma effect_closed_form n :
  forall effect effect',
    effectsAfter n [effect] = [effect'] ->
    agedBy n effect' effect
    /\ driftedBy n effect' effect
    /\ fadedFrom effect' effect
    /\ grownBy n effect' effect.
Proof.
  induction n as [|n IH]; intros effect effect' H.
  - unfold effectsAfter in H. cbn [Nat.iter] in H. injection H as <-.
    unfold agedBy, driftedBy, fadedFrom, grownBy.
    change (inject_Z (Z.of_nat 0)) with 0%Q.
    split; [split; [ring|repeat split]|].
    split; [destruct (ef_velocity effect) as [[vx vy]|];
            split; try reflexivity; ring|].
    split; [intro A; split; [exact A|apply Qle_refl]|].
    destruct (String.eqb _ _); [|reflexivity].
    intros radius maxRadius Hr Hm. exists radius. split; [exact Hr|ring].
  - apply effectsAfter_S_single in H. destruct H as (now & Hnow & T).
    destruct (IH effect now Hnow) as (A & D & F & G).
    pose proof (tickEffect_lifetime now) as TL. rewrite T in TL.
    destruct TL as (_ & L & Ty & Tx & Co & Mx & Ve).
    destruct (tickEffect_step now effect' T) as (Hnz & D1 & F1 & G1).
    destruct A as (AL & ATy & ATx & ACo & AMx & AVe).
    split; [|split; [|split]].
    + unfold agedBy. rewrite L, Ty, Tx, Co, Mx, Ve, AL.
      split; [rewrite (inject_Z_S n); ring|auto].
    + unfold driftedBy in *. rewrite AVe in D1.
      destruct (ef_velocity effect) as [[vx vy]|].
      * destruct D as [Dx Dy], D1 as [Dx1 Dy1].
        change (inject_Z (Z.of_nat 1)) with 1%Q in Dx1, Dy1.
        rewrite Dx1, Dy1, Dx, Dy, (inject_Z_S n). split; ring.
      * destruct D as [Dx Dy], D1 as [Dx1 Dy1]. split; congruence.
    + unfold fadedFrom in *. intro A0. destruct (F A0) as [F0 F2].
      destruct (F1 F0) as [F3 F4]. split; [exact F3|].
      eapply Qle_trans; eassumption.
    + unfold grownBy in *. rewrite ATy in G1.
      destruct (String.eqb (ef_type effect) "explosion"); [|congruence].
      intros radius maxRadius Hr Hm.
      destruct (G radius maxRadius Hr Hm) as (rk & Hrk & Hgap).
      rewrite <- AMx in Hm.
      rewrite (G1 rk maxRadius Hrk Hm). eexists. split; [reflexivity|].
      set (Lk := ef_lifetime now) in *. set (L0 := ef_lifetime effect) in *.
      set (K := inject_Z (Z.of_nat n)) in *.
      assert (E1 : ((maxRadius - (rk + (maxRadius - rk) / (Lk - 1)))
                    * (L0 - 1)
                    == ((maxRadius - rk) * (L0 - 1))
                       * ((Lk - 1 - 1) / (Lk - 1)))%Q)
        by (field; exact Hnz).
      assert (E2 : (Lk - 1 == L0 - 1 - K)%Q) by (rewrite AL; ring).
      assert (E3 : (L0 - 1 - inject_Z (Z.of_nat (S n)) == Lk - 1 - 1)%Q)
        by (rewrite (inject_Z_S n), AL; fold K; ring).
      rewrite E1, Hgap, E3, <- E2. field. exact Hnz.
Qed.

End Effects.

(** X16: after [n + 1] frames the effects left are exactly those that had
    more than [n + 1] frames to live, in their order, each with its lifetime
    reduced by [n + 1] and its type, text, colour, [maxRadius] and velocity
    unchanged; if no lifetime exceeds [n + 1] the array is empty. *)
Theorem effects_expire_on_schedule :
  forall (n : nat) (effects : list Effect),
    Forall2 (agedBy (S n))
            (effectsAfter (S n) effects)
            (filter (fun effect =>
                       Qltb (inject_Z (Z.of_nat (S n))) (ef_lifetime effect))
                    effects)
    /\ (Forall (fun effect =>
                  (ef_lifetime effect <= inject_Z (Z.of_nat (S n)))%Q)
               effects ->
        effectsAfter (S n) effects = []).
Proof.
  intros n effects. pose proof (effectsAfter_survivors n effects) as H.
  split; [exact H|]. intro F.
  assert (E : filter (fun effect =>
                        Qltb (inject_Z (Z.of_nat (S n))) (ef_lifetime effect))
                     effects = []).
  { clear H. induction F as [|e l He _ IH]; [reflexivity|].
    cbn [filter]. apply Qltb_ge in He. rewrite He. exact IH. }
  rewrite E in H. destruct (effectsAfter (S n) effects); [reflexivity|].
  inversion H.
Qed.

(** X17: what one effect has become after [n] frames, if it is still
    there: [n] frames older, moved by [n] times its velocity, not more
    opaque and not below zero opacity, and, for an explosion, with the gap to
    [maxRadius] shrunk linearly: [(maxRadius - radius') * (lifetime - 1) =
    (maxRadius - radius) * (lifetime - 1 - n)], so that [maxRadius] is
    reached on the last frame. *)
Theorem effect_after_frames :
  forall (n : nat) (effect effect' : Effect),
    effectsAfter n [effect] = [effect'] ->
    agedBy n effect' effect
    /\ driftedBy n effect' effect
    /\ fadedFrom effect' effect
    /\ grownBy n effect' effect.
Proof.
  intros n effect effect'. apply effect_closed_form.
Qed.

(** The shockwave of radius 60, from radius 5 with 20 frames to live, on
    frame 3: 3/19 of the way. *)
Lemma effect_after_frames_witness :
  effectsAfter 3 [shockwave 100 100 60] = [youngRing]
  /\ exists radius',
       ef_radius youngRing = Some radius'
       /\ ((60 - radius') * (20 - 1)
           == (60 - 5) * (20 - 1 - inject_Z (Z.of_nat 3)))%Q.
Proof.
  assert (H : effectsAfter 3 [shockwave 100 100 60] = [youngRing])
    by (vm_compute; reflexivity).
  split; [exact H|].
  destruct (effect_after_frames 3 _ _ H) as (_ & _ & _ & G).
  exact (G 5%Q 60%Q eq_refl eq_refl).
Defined.

(** X18: a floating text rises one pixel per frame where it was
    created, keeps its text and colour, and is alone in the array for 59
    frames; from frame 60 on the array is empty again. *)
Theorem floating_text_rises_and_expires :
  forall (x y : Q) (text color : string) (n : nat),
    match effectsAfter n (createFloatingText x y text color []) with
    | [] => (60 <= n)%nat
    | [effect] =>
        (n < 60)%nat
        /\ (ef_x effect == x)%Q
        /\ (ef_y effect == y - inject_Z (Z.of_nat n))%Q
        /\ (ef_lifetime effect == 60 - inject_Z (Z.of_nat n))%Q
        /\ ef_text effect = Some text /\ ef_color effect = color
    | _ => False
    end.
Proof.
  intros x y text color n. unfold createFloatingText. cbn [app].
  set (e := mkEffect "text" x y None None color (Some text)
                     (Some (0, -1)%Q) 1 60).
  assert (C : forall e', effectsAfter n [e] = [e'] ->
                         (ef_x e' == x)%Q
                         /\ (ef_y e' == y - inject_Z (Z.of_nat n))%Q
                         /\ (ef_lifetime e' == 60 - inject_Z (Z.of_nat n))%Q
                         /\ ef_text e' = Some text /\ ef_color e' = color).
  { intros e' H.
    destruct (effect_closed_form n e e' H)
      as ((L & _ & Tx & Co & _) & D & _).
    unfold driftedBy in D. cbn [e ef_velocity ef_x ef_y] in D.
    destruct D as [Dx Dy]. cbn [e ef_lifetime] in L.
    repeat split; try assumption.
    - rewrite Dx. ring.
    - rewrite Dy. ring. }
  destruct n as [|n].
  - specialize (C e eq_refl). cbn [effectsAfter Nat.iter].
    split; [lia|exact C].
  - pose proof (effectsAfter_survivors n [e]) as H. cbn [filter] in H.
    cbn [e ef_lifetime] in H. fold e in H.
    destruct (Qltb (inject_Z (Z.of_nat (S n))) 60) eqn:E.
    + apply Qltb_lt in E.
      assert (Hn : (S n < 60)%nat).
      { change 60%Q with (inject_Z 60) in E. rewrite <- Zlt_Qlt in E. lia. }
      destruct (effectsAfter (S n) [e]) as [|e' [|e'' l]] eqn:El.
      * inversion H.
      * split; [exact Hn|]. apply C. reflexivity.
      * inversion H as [|? ? ? ? _ Hl]; subst. inversion Hl.
    + apply Qltb_ge in E.
      assert (Hn : (60 <= S n)%nat).
      { change 60%Q with (inject_Z 60) in E. rewrite <- Zle_Qle in E. lia. }
      destruct (effectsAfter (S n) [e]); [exact Hn|inversion H].
Qed.
